(** * The dual bounded packet queue of the TSP server (queue.c)

    A shallow embedding of [queue.c]: the module-level globals become a
    record, every C function becomes a computation in a small monad over a
    "world" (globals, the scripted results of the blocking system calls, and
    the log of observable events), and the lock-delimited pieces of
    [enqueue_tun] / [dequeue_tun] are additionally interleaved by an
    explicit scheduler to study the producer/consumer pair. *)

From Stdlib Require Import ZArith List String Bool Lia.
From Stdlib Require Import Init.Byte.
From stdpp Require Import base list.

Local Open Scope Z_scope.

(** ** Constants *)

(** [enum { QUEUE_SIZE = 32 }]. *)
Definition QUEUE_SIZE : Z := 32.

(** Values of <errno.h> and <stdlib.h> on Linux; the development only uses
    that they are what the C code compares against. *)
Definition EINTR : Z := 4.
Definition EAGAIN : Z := 11.
Definition ETIMEDOUT : Z := 110.
Definition EXIT_FAILURE : Z := 1.

(** ** Data *)

(** [struct sockaddr_in], reduced to its three meaningful fields. *)
Record sockaddr_in : Type := mk_sockaddr_in {
  sin_family : Z;
  sin_port : Z;
  sin_addr : Z
}.

Definition sockaddr_zero : sockaddr_in := mk_sockaddr_in 0 0 0.

#[global] Instance sockaddr_in_inhabited : Inhabited sockaddr_in :=
  populate sockaddr_zero.

#[global] Instance byte_inhabited : Inhabited byte := populate x00.

(** A [char buf[MTU]]. *)
Definition buffer : Type := list byte.

(** The file-scope variables of queue.c, and the two [static char dummy[MTU]]
    of [drop_tun] and [drop_sock]. *)
Record globals : Type := mk_globals {
  queue_tun : list buffer;
  queue_sock : list buffer;
  length_tun : list Z;
  length_sock : list Z;
  client_addr : list sockaddr_in;
  freeptr_tun : Z;
  curptr_tun : Z;
  freeptr_sock : Z;
  curptr_sock : Z;
  dummy_tun : buffer;
  dummy_sock : buffer
}.

Definition set_queue_tun (v : list buffer) (s : globals) : globals :=
  mk_globals v (queue_sock s) (length_tun s) (length_sock s) (client_addr s)
    (freeptr_tun s) (curptr_tun s) (freeptr_sock s) (curptr_sock s)
    (dummy_tun s) (dummy_sock s).
Definition set_queue_sock (v : list buffer) (s : globals) : globals :=
  mk_globals (queue_tun s) v (length_tun s) (length_sock s) (client_addr s)
    (freeptr_tun s) (curptr_tun s) (freeptr_sock s) (curptr_sock s)
    (dummy_tun s) (dummy_sock s).
Definition set_length_tun (v : list Z) (s : globals) : globals :=
  mk_globals (queue_tun s) (queue_sock s) v (length_sock s) (client_addr s)
    (freeptr_tun s) (curptr_tun s) (freeptr_sock s) (curptr_sock s)
    (dummy_tun s) (dummy_sock s).
Definition set_length_sock (v : list Z) (s : globals) : globals :=
  mk_globals (queue_tun s) (queue_sock s) (length_tun s) v (client_addr s)
    (freeptr_tun s) (curptr_tun s) (freeptr_sock s) (curptr_sock s)
    (dummy_tun s) (dummy_sock s).
Definition set_client_addr (v : list sockaddr_in) (s : globals) : globals :=
  mk_globals (queue_tun s) (queue_sock s) (length_tun s) (length_sock s) v
    (freeptr_tun s) (curptr_tun s) (freeptr_sock s) (curptr_sock s)
    (dummy_tun s) (dummy_sock s).
Definition set_freeptr_tun (v : Z) (s : globals) : globals :=
  mk_globals (queue_tun s) (queue_sock s) (length_tun s) (length_sock s)
    (client_addr s) v (curptr_tun s) (freeptr_sock s) (curptr_sock s)
    (dummy_tun s) (dummy_sock s).
Definition set_curptr_tun (v : Z) (s : globals) : globals :=
  mk_globals (queue_tun s) (queue_sock s) (length_tun s) (length_sock s)
    (client_addr s) (freeptr_tun s) v (freeptr_sock s) (curptr_sock s)
    (dummy_tun s) (dummy_sock s).
Definition set_freeptr_sock (v : Z) (s : globals) : globals :=
  mk_globals (queue_tun s) (queue_sock s) (length_tun s) (length_sock s)
    (client_addr s) (freeptr_tun s) (curptr_tun s) v (curptr_sock s)
    (dummy_tun s) (dummy_sock s).
Definition set_curptr_sock (v : Z) (s : globals) : globals :=
  mk_globals (queue_tun s) (queue_sock s) (length_tun s) (length_sock s)
    (client_addr s) (freeptr_tun s) (curptr_tun s) (freeptr_sock s) v
    (dummy_tun s) (dummy_sock s).
Definition set_dummy_tun (v : buffer) (s : globals) : globals :=
  mk_globals (queue_tun s) (queue_sock s) (length_tun s) (length_sock s)
    (client_addr s) (freeptr_tun s) (curptr_tun s) (freeptr_sock s)
    (curptr_sock s) v (dummy_sock s).
Definition set_dummy_sock (v : buffer) (s : globals) : globals :=
  mk_globals (queue_tun s) (queue_sock s) (length_tun s) (length_sock s)
    (client_addr s) (freeptr_tun s) (curptr_tun s) (freeptr_sock s)
    (curptr_sock s) (dummy_tun s) v.

(** ** The environment *)

(** What one blocking [read] / [recvfrom] call comes back with: a unit of
    data (a frame, or a datagram with its sender; an empty unit is a result
    of 0), or -1 with [errno] set. *)
Inductive io_result : Type :=
| IoData (data : list byte) (from : sockaddr_in)
| IoError (e : Z).

(** What one [pthread_cond_timedwait] comes back with: its return code, the
    clock value read just before it, and what the other threads did to the
    globals while the mutex was released inside the wait. *)
Record timespec : Type := mk_timespec {
  tv_sec : Z;
  tv_nsec : Z
}.

Record wait_result : Type := mk_wait_result {
  wr_now : timespec;
  wr_rc : Z;
  wr_others : globals -> globals
}.

Inductive mutex : Type := lock_tunqueue | lock_sockqueue.
Inductive condvar : Type := cond_tunqueue | cond_sockqueue.
Inductive fd : Type := tunfd | sockfd.

(** The destination of a read: a queue slot or a scratch buffer. *)
Inductive bufref : Type :=
| SlotTun (ptr : Z)
| SlotSock (ptr : Z)
| DummyTun
| DummySock.

(** Observable events, in program order. *)
Inductive event : Type :=
| EvLock (m : mutex)
| EvUnlock (m : mutex)
| EvRead (f : fd) (dst : bufref) (r : io_result)
| EvLog (msg : string)
| EvSignal (c : condvar)
| EvTimedWait (c : condvar) (m : mutex) (abstime : timespec)
| EvProcessTun (buf : buffer) (len : Z)
| EvProcessSock (addr : sockaddr_in) (buf : buffer) (len : Z).

Record world : Type := mk_world {
  mem : globals;
  errno : Z;
  tunfd_in : list io_result;
  sockfd_in : list io_result;
  wait_in : list wait_result;
  trace : list event
}.

Definition set_mem (v : globals) (w : world) : world :=
  mk_world v (errno w) (tunfd_in w) (sockfd_in w) (wait_in w) (trace w).
Definition set_errno (v : Z) (w : world) : world :=
  mk_world (mem w) v (tunfd_in w) (sockfd_in w) (wait_in w) (trace w).
Definition set_tunfd_in (v : list io_result) (w : world) : world :=
  mk_world (mem w) (errno w) v (sockfd_in w) (wait_in w) (trace w).
Definition set_sockfd_in (v : list io_result) (w : world) : world :=
  mk_world (mem w) (errno w) (tunfd_in w) v (wait_in w) (trace w).
Definition set_wait_in (v : list wait_result) (w : world) : world :=
  mk_world (mem w) (errno w) (tunfd_in w) (sockfd_in w) v (trace w).
Definition set_trace (v : list event) (w : world) : world :=
  mk_world (mem w) (errno w) (tunfd_in w) (sockfd_in w) (wait_in w) v.

(** ** The monad of C functions

    A call returns, or has called [exit], or sits forever in a blocking
    call whose script is exhausted. *)
Inductive outcome (A : Type) : Type :=
| Returns (a : A) (w : world)
| Exits (status : Z) (w : world)
| Blocks (w : world).
Arguments Returns {A} a w.
Arguments Exits {A} status w.
Arguments Blocks {A} w.

Definition M (A : Type) : Type := world -> outcome A.

#[global] Instance M_ret : MRet M := fun A a w => Returns a w.
#[global] Instance M_bind : MBind M := fun A B f c w =>
  match c w with
  | Returns a w' => f a w'
  | Exits st w' => Exits st w'
  | Blocks w' => Blocks w'
  end.

Definition emit (e : event) : M unit :=
  fun w => Returns tt (set_trace (trace w ++ [e]) w).
Definition load {A : Type} (f : globals -> A) : M A :=
  fun w => Returns (f (mem w)) w.
Definition store (f : globals -> globals) : M unit :=
  fun w => Returns tt (set_mem (f (mem w)) w).
Definition get_errno : M Z := fun w => Returns (errno w) w.

Definition pthread_mutex_lock (m : mutex) : M unit := emit (EvLock m).
Definition pthread_mutex_unlock (m : mutex) : M unit := emit (EvUnlock m).
Definition pthread_cond_signal (c : condvar) : M unit := emit (EvSignal c).
Definition tspslog (msg : string) : M unit := emit (EvLog msg).
Definition exit {A : Type} (status : Z) : M A := fun w => Exits status w.
Definition process_tun_packet (buf : buffer) (len : Z) : M unit :=
  emit (EvProcessTun buf len).
Definition process_sock_packet (addr : sockaddr_in) (buf : buffer) (len : Z)
  : M unit := emit (EvProcessSock addr buf len).

(** Array access [a[i]] with an [int] index. *)
Definition idx {A : Type} `{Inhabited A} (a : list A) (i : Z) : A :=
  a !!! Z.to_nat i.
Definition upd {A : Type} (a : list A) (i : Z) (v : A) : list A :=
  <[Z.to_nat i := v]> a.

Section Queue.

(** [MTU] comes from tsps.h. *)
Variable MTU : nat.

(** The result of a [read(fd, buf, MTU)]: at most [MTU] bytes of the unit
    land at the start of [buf]. *)
Definition io_ret (r : io_result) : Z :=
  match r with
  | IoData d _ => Z.of_nat (length (take MTU d))
  | IoError _ => -1
  end.
Definition io_fill (r : io_result) (buf : buffer) : buffer :=
  match r with
  | IoData d _ => take MTU d ++ drop (length (take MTU d)) buf
  | IoError _ => buf
  end.
Definition io_errno (r : io_result) (old : Z) : Z :=
  match r with
  | IoData _ _ => old
  | IoError e => e
  end.
Definition io_from (r : io_result) (old : sockaddr_in) : sockaddr_in :=
  match r with
  | IoData _ a => a
  | IoError _ => old
  end.

(** ** queue.c, lines 49-93 *)

Definition queue_tun_isfull : M bool :=
  pthread_mutex_lock lock_tunqueue;;
  rt ← load (fun s => freeptr_tun s =? curptr_tun s);
  pthread_mutex_unlock lock_tunqueue;;
  mret rt.

Definition queue_sock_isfull : M bool :=
  pthread_mutex_lock lock_sockqueue;;
  rt ← load (fun s => freeptr_sock s =? curptr_sock s);
  pthread_mutex_unlock lock_sockqueue;;
  mret rt.

Definition _queue_tun_isempty (s : globals) : bool :=
  Z.rem (curptr_tun s + 1) QUEUE_SIZE =? freeptr_tun s.

Definition _queue_sock_isempty (s : globals) : bool :=
  Z.rem (curptr_sock s + 1) QUEUE_SIZE =? freeptr_sock s.

Definition queue_tun_isempty : M bool :=
  pthread_mutex_lock lock_tunqueue;;
  rt ← load _queue_tun_isempty;
  pthread_mutex_unlock lock_tunqueue;;
  mret rt.

Definition queue_sock_isempty : M bool :=
  pthread_mutex_lock lock_sockqueue;;
  rt ← load _queue_sock_isempty;
  pthread_mutex_unlock lock_sockqueue;;
  mret rt.

(** ** The system calls, given the scripted result of the call *)

(** Where the bytes of a read go. *)
Definition write_buf (dst : bufref) (r : io_result) (s : globals) : globals :=
  match dst with
  | SlotTun ptr =>
      set_queue_tun (upd (queue_tun s) ptr (io_fill r (idx (queue_tun s) ptr))) s
  | SlotSock ptr =>
      set_queue_sock
        (upd (queue_sock s) ptr (io_fill r (idx (queue_sock s) ptr))) s
  | DummyTun => set_dummy_tun (io_fill r (dummy_tun s)) s
  | DummySock => set_dummy_sock (io_fill r (dummy_sock s)) s
  end.

(** [read(f, dst, MTU)]. *)
Definition read (f : fd) (dst : bufref) (r : io_result) : M Z :=
  emit (EvRead f dst r);;
  (fun w => Returns tt (set_errno (io_errno r (errno w)) w));;
  store (write_buf dst r);;
  mret (io_ret r).

(** [recvfrom(f, dst, MTU, 0, src_addr, &socklen)]; [src_addr] is
    [&client_addr[i]] ([Some i]) or [NULL] ([None]). *)
Definition recvfrom (f : fd) (dst : bufref) (src_addr : option Z)
    (r : io_result) : M Z :=
  emit (EvRead f dst r);;
  (fun w => Returns tt (set_errno (io_errno r (errno w)) w));;
  store (write_buf dst r);;
  match src_addr with
  | Some i =>
      store (fun s =>
        set_client_addr
          (upd (client_addr s) i (io_from r (idx (client_addr s) i))) s)
  | None => mret tt
  end;;
  mret (io_ret r).

(** [clock_gettime(CLOCK_REALTIME, &ts)] followed by
    [pthread_cond_timedwait(c, m, &ts)] with the deadline [abstime]: the
    mutex is released while waiting, so the other threads act on the
    globals, and is held again on return. *)
Definition pthread_cond_timedwait (c : condvar) (m : mutex)
    (abstime : timespec) (r : wait_result) : M Z :=
  emit (EvTimedWait c m abstime);;
  store (wr_others r);;
  mret (wr_rc r).

(** [errno != EAGAIN && errno != EINTR], after a result of -1. *)
Definition fatal_errno (len e : Z) : bool :=
  (len =? -1) && negb (e =? EAGAIN) && negb (e =? EINTR).

(** The four [do { ... } while (length <= 0)] loops of the file make one
    blocking read per pass. They are run by recursion on the results those
    reads will give ([consume] takes one off the script of the descriptor);
    with none left the read never returns. *)
Fixpoint do_while_read (consume : list io_result -> world -> world)
    (body : io_result -> M bool) (rs : list io_result) : M unit :=
  match rs with
  | [] => fun w => Blocks w
  | r :: rs' => fun w =>
      (again ← body r;
       if (again : bool) then do_while_read consume body rs' else mret tt)
        (consume rs' w)
  end.

(** ** enqueue_tun, lines 95-118 *)

(** Lines 99-106: the critical section that reserves a slot. *)
Definition enqueue_tun_reserve : M (option Z) :=
  pthread_mutex_lock lock_tunqueue;;
  full ← load (fun s => freeptr_tun s =? curptr_tun s);
  if (full : bool) then
    pthread_mutex_unlock lock_tunqueue;;
    mret None
  else
    ptr ← load (fun s => Z.rem (freeptr_tun s) QUEUE_SIZE);
    store (fun s => set_freeptr_tun (freeptr_tun s + 1) s);;
    store (fun s => set_freeptr_tun (Z.rem (freeptr_tun s) QUEUE_SIZE) s);;
    pthread_mutex_unlock lock_tunqueue;;
    mret (Some ptr).

(** Lines 109-115: one pass through the body of the do-while, [r] being
    what the read comes back with; the result is the loop condition. *)
Definition enqueue_tun_body (ptr : Z) (r : io_result) : M bool :=
  n ← read tunfd (SlotTun ptr) r;
  store (fun s => set_length_tun (upd (length_tun s) ptr n) s);;
  len ← load (fun s => idx (length_tun s) ptr);
  e ← get_errno;
  if fatal_errno len e then
    tspslog "Read error";;
    exit EXIT_FAILURE
  else
    len ← load (fun s => idx (length_tun s) ptr);
    mret (len <=? 0).

(** The do-while around it. *)
Definition enqueue_tun_loop (ptr : Z) : list io_result -> M unit :=
  do_while_read set_tunfd_in (enqueue_tun_body ptr).

Definition enqueue_tun : M unit :=
  p ← enqueue_tun_reserve;
  match p with
  | None => mret tt
  | Some ptr =>
      (fun w => enqueue_tun_loop ptr (tunfd_in w) w);;
      pthread_cond_signal cond_tunqueue
  end.

(** ** enqueue_sock, lines 120-146 *)

Definition enqueue_sock_reserve : M (option Z) :=
  pthread_mutex_lock lock_sockqueue;;
  full ← load (fun s => freeptr_sock s =? curptr_sock s);
  if (full : bool) then
    pthread_mutex_unlock lock_sockqueue;;
    mret None
  else
    ptr ← load (fun s => Z.rem (freeptr_sock s) QUEUE_SIZE);
    store (fun s => set_freeptr_sock (freeptr_sock s + 1) s);;
    store (fun s => set_freeptr_sock (Z.rem (freeptr_sock s) QUEUE_SIZE) s);;
    pthread_mutex_unlock lock_sockqueue;;
    mret (Some ptr).

Definition enqueue_sock_body (ptr : Z) (r : io_result) : M bool :=
  n ← recvfrom sockfd (SlotSock ptr) (Some ptr) r;
  store (fun s => set_length_sock (upd (length_sock s) ptr n) s);;
  len ← load (fun s => idx (length_sock s) ptr);
  e ← get_errno;
  if fatal_errno len e then
    tspslog "Recvfrom error";;
    exit EXIT_FAILURE
  else
    len ← load (fun s => idx (length_sock s) ptr);
    mret (len <=? 0).

(** The do-while around it. *)
Definition enqueue_sock_loop (ptr : Z) : list io_result -> M unit :=
  do_while_read set_sockfd_in (enqueue_sock_body ptr).

Definition enqueue_sock : M unit :=
  p ← enqueue_sock_reserve;
  match p with
  | None => mret tt
  | Some ptr =>
      (fun w => enqueue_sock_loop ptr (sockfd_in w) w);;
      pthread_cond_signal cond_sockqueue
  end.

(** ** drop_tun and drop_sock, lines 148-176 *)

Definition drop_tun_body (r : io_result) : M bool :=
  length ← read tunfd DummyTun r;
  e ← get_errno;
  if fatal_errno length e then
    tspslog "Read error";;
    exit EXIT_FAILURE
  else
    mret (length <=? 0).

(** The do-while around it. *)
Definition drop_tun_loop : list io_result -> M unit :=
  do_while_read set_tunfd_in drop_tun_body.

Definition drop_tun : M unit :=
  fun w => drop_tun_loop (tunfd_in w) w.

Definition drop_sock_body (r : io_result) : M bool :=
  length ← recvfrom sockfd DummySock None r;
  e ← get_errno;
  if fatal_errno length e then
    tspslog "Read error";;
    exit EXIT_FAILURE
  else
    mret (length <=? 0).

(** The do-while around it. *)
Definition drop_sock_loop : list io_result -> M unit :=
  do_while_read set_sockfd_in drop_sock_body.

Definition drop_sock : M unit :=
  fun w => drop_sock_loop (sockfd_in w) w.

(** ** dequeue_tun and dequeue_sock, lines 178-208 *)

(** Lines 182-189: the critical section that claims the next slot. *)
Definition dequeue_tun_claim : M (option Z) :=
  pthread_mutex_lock lock_tunqueue;;
  empty ← load _queue_tun_isempty;
  if (empty : bool) then
    pthread_mutex_unlock lock_tunqueue;;
    mret None
  else
    store (fun s => set_curptr_tun (curptr_tun s + 1) s);;
    ptr ← load (fun s => Z.rem (curptr_tun s) QUEUE_SIZE);
    store (fun s => set_curptr_tun (Z.rem (curptr_tun s) QUEUE_SIZE) s);;
    pthread_mutex_unlock lock_tunqueue;;
    mret (Some ptr).

(** Line 191. *)
Definition dequeue_tun_process (ptr : Z) : M unit :=
  buf ← load (fun s => idx (queue_tun s) ptr);
  len ← load (fun s => idx (length_tun s) ptr);
  process_tun_packet buf len.

Definition dequeue_tun : M unit :=
  p ← dequeue_tun_claim;
  match p with
  | None => mret tt
  | Some ptr => dequeue_tun_process ptr
  end.

Definition dequeue_sock_claim : M (option Z) :=
  pthread_mutex_lock lock_sockqueue;;
  empty ← load _queue_sock_isempty;
  if (empty : bool) then
    pthread_mutex_unlock lock_sockqueue;;
    mret None
  else
    store (fun s => set_curptr_sock (curptr_sock s + 1) s);;
    ptr ← load (fun s => Z.rem (curptr_sock s) QUEUE_SIZE);
    store (fun s => set_curptr_sock (Z.rem (curptr_sock s) QUEUE_SIZE) s);;
    pthread_mutex_unlock lock_sockqueue;;
    mret (Some ptr).

(** Line 207. *)
Definition dequeue_sock_process (ptr : Z) : M unit :=
  addr ← load (fun s => idx (client_addr s) ptr);
  buf ← load (fun s => idx (queue_sock s) ptr);
  len ← load (fun s => idx (length_sock s) ptr);
  process_sock_packet addr buf len.

Definition dequeue_sock : M unit :=
  p ← dequeue_sock_claim;
  match p with
  | None => mret tt
  | Some ptr => dequeue_sock_process ptr
  end.

(** ** block_on_tun_empty and block_on_sock_empty, lines 210-244 *)

(** [ts.tv_sec += 1]. *)
Definition deadline (now : timespec) : timespec :=
  mk_timespec (tv_sec now + 1) (tv_nsec now).

(** Lines 216-224 and 234-242: [while (empty) { timed wait on [c] and [m];
    a return code other than 0 and [ETIMEDOUT] is fatal }], by recursion on
    what the waits will come back with; with none left the wait never
    returns. *)
Fixpoint while_empty_wait (isempty : globals -> bool) (c : condvar)
    (m : mutex) (ws : list wait_result) : M unit :=
  fun w =>
    if isempty (mem w) then
      match ws with
      | [] => Blocks w
      | r :: ws' =>
          (rc ← pthread_cond_timedwait c m (deadline (wr_now r)) r;
           if negb (rc =? 0) && negb (rc =? ETIMEDOUT) then
             tspslog "Conditional wait error";;
             exit 1
           else while_empty_wait isempty c m ws')
            (set_wait_in ws' w)
      end
    else Returns tt w.

Definition block_on_tun_empty : M unit :=
  pthread_mutex_lock lock_tunqueue;;
  (fun w =>
     while_empty_wait _queue_tun_isempty cond_tunqueue lock_tunqueue
       (wait_in w) w);;
  pthread_mutex_unlock lock_tunqueue.

Definition block_on_sock_empty : M unit :=
  pthread_mutex_lock lock_sockqueue;;
  (fun w =>
     while_empty_wait _queue_sock_isempty cond_sockqueue lock_sockqueue
       (wait_in w) w);;
  pthread_mutex_unlock lock_sockqueue.

(** ** The state at program start

    Objects of static storage are zero-initialised, except
    [curptr_tun = -1] and [curptr_sock = -1] (lines 41-42). *)
Definition zero_buffer : buffer := replicate MTU x00.

Definition init_globals : globals :=
  mk_globals
    (replicate (Z.to_nat QUEUE_SIZE) zero_buffer)
    (replicate (Z.to_nat QUEUE_SIZE) zero_buffer)
    (replicate (Z.to_nat QUEUE_SIZE) 0)
    (replicate (Z.to_nat QUEUE_SIZE) 0)
    (replicate (Z.to_nat QUEUE_SIZE) sockaddr_zero)
    0 (-1) 0 (-1)
    zero_buffer zero_buffer.

Definition init_world (tun_script sock_script : list io_result)
    (wait_script : list wait_result) : world :=
  mk_world init_globals 0 tun_script sock_script wait_script [].

(** ** The producer and the consumer of the tunnel queue, interleaved

    The thread bodies are outside queue.c. The producer thread is taken to
    call [enqueue_tun] again and again, the consumer thread to call
    [block_on_tun_empty] and then [dequeue_tun], again and again. A thread
    is preempted only where it does not hold the mutex, so that the
    scheduler interleaves these pieces:
    - producer: lines 99-106, then each pass of the do-while (one read),
      then line 117;
    - consumer: lines 215-216 up to the wait or the unlock of line 225,
      each return of the wait followed by the test of line 216, then lines
      182-189, then line 191. *)
Inductive thread : Type := Producer | Consumer.

Inductive producer_pc : Type :=
| PCall
| PRead (ptr : Z)
| PSignal.

Inductive consumer_pc : Type :=
| CBlock
| CWaiting
| CCall
| CProcess (ptr : Z).

Record system : Type := mk_system {
  sys_world : world;
  producer : producer_pc;
  consumer : consumer_pc
}.

Definition producer_step (pc : producer_pc) : M producer_pc :=
  match pc with
  | PCall =>
      p ← enqueue_tun_reserve;
      mret (match p with None => PCall | Some ptr => PRead ptr end)
  | PRead ptr => fun w =>
      match tunfd_in w with
      | [] => Returns (PRead ptr) w
      | r :: rs' =>
          (again ← enqueue_tun_body ptr r;
           mret (if (again : bool) then PRead ptr else PSignal))
            (set_tunfd_in rs' w)
      end
  | PSignal =>
      pthread_cond_signal cond_tunqueue;;
      mret PCall
  end.

(** The test of line 216 with the mutex held. *)
Definition block_on_tun_empty_test : M consumer_pc :=
  empty ← load _queue_tun_isempty;
  if (empty : bool) then mret CWaiting
  else
    pthread_mutex_unlock lock_tunqueue;;
    mret CCall.

Definition consumer_step (pc : consumer_pc) : M consumer_pc :=
  match pc with
  | CBlock =>
      pthread_mutex_lock lock_tunqueue;;
      block_on_tun_empty_test
  | CWaiting => fun w =>
      match wait_in w with
      | [] => Returns CWaiting w
      | r :: ws' =>
          (rc ← pthread_cond_timedwait cond_tunqueue lock_tunqueue
                  (deadline (wr_now r)) r;
           if negb (rc =? 0) && negb (rc =? ETIMEDOUT) then
             tspslog "Conditional wait error";;
             exit 1
           else block_on_tun_empty_test)
            (set_wait_in ws' w)
      end
  | CCall =>
      p ← dequeue_tun_claim;
      mret (match p with None => CBlock | Some ptr => CProcess ptr end)
  | CProcess ptr =>
      dequeue_tun_process ptr;;
      mret CBlock
  end.

Inductive sys_outcome : Type :=
| Running (c : system)
| Exited (status : Z) (w : world).

Definition step (t : thread) (c : system) : sys_outcome :=
  match t with
  | Producer =>
      match producer_step (producer c) (sys_world c) with
      | Returns pc w => Running (mk_system w pc (consumer c))
      | Exits st w => Exited st w
      | Blocks w => Running (mk_system w (producer c) (consumer c))
      end
  | Consumer =>
      match consumer_step (consumer c) (sys_world c) with
      | Returns pc w => Running (mk_system w (producer c) pc)
      | Exits st w => Exited st w
      | Blocks w => Running (mk_system w (producer c) (consumer c))
      end
  end.

Fixpoint run (sched : list thread) (c : system) : sys_outcome :=
  match sched with
  | [] => Running c
  | t :: sched' =>
      match step t c with
      | Running c' => run sched' c'
      | Exited st w => Exited st w
      end
  end.

Definition init_system (tun_script : list io_result)
    (wait_script : list wait_result) : system :=
  mk_system (init_world tun_script [] wait_script) PCall CBlock.

(** ** Vocabulary of the statements *)

(** The world after some more events. *)
Definition log_events (es : list event) (w : world) : world :=
  set_trace (trace w ++ es) w.

(** The cursors index the arrays, [curptr] being -1 until the first claim. *)
Definition cursors_ok (s : globals) : Prop :=
  (0 <= freeptr_tun s < QUEUE_SIZE /\ -1 <= curptr_tun s < QUEUE_SIZE) /\
  (0 <= freeptr_sock s < QUEUE_SIZE /\ -1 <= curptr_sock s < QUEUE_SIZE).

(** The arrays have [QUEUE_SIZE] entries. *)
Definition arrays_ok (s : globals) : Prop :=
  length (queue_tun s) = Z.to_nat QUEUE_SIZE /\
  length (queue_sock s) = Z.to_nat QUEUE_SIZE /\
  length (length_tun s) = Z.to_nat QUEUE_SIZE /\
  length (length_sock s) = Z.to_nat QUEUE_SIZE /\
  length (client_addr s) = Z.to_nat QUEUE_SIZE.

(** The two invariants as tests. *)
Definition in_range (lo x hi : Z) : bool := (lo <=? x) && (x <? hi).
Definition cursors_okb (s : globals) : bool :=
  in_range 0 (freeptr_tun s) QUEUE_SIZE &&
  in_range (-1) (curptr_tun s) QUEUE_SIZE &&
  in_range 0 (freeptr_sock s) QUEUE_SIZE &&
  in_range (-1) (curptr_sock s) QUEUE_SIZE.
Definition arrays_okb (s : globals) : bool :=
  (length (queue_tun s) =? Z.to_nat QUEUE_SIZE)%nat &&
  (length (queue_sock s) =? Z.to_nat QUEUE_SIZE)%nat &&
  (length (length_tun s) =? Z.to_nat QUEUE_SIZE)%nat &&
  (length (length_sock s) =? Z.to_nat QUEUE_SIZE)%nat &&
  (length (client_addr s) =? Z.to_nat QUEUE_SIZE)%nat.

(** The part of the globals that makes up the two queues: the slots, the
    recorded lengths and sender addresses, and the four cursors. *)
Definition queues (s : globals) :=
  (queue_tun s, queue_sock s, length_tun s, length_sock s, client_addr s,
   freeptr_tun s, curptr_tun s, freeptr_sock s, curptr_sock s).

Definition outcome_world {A : Type} (o : outcome A) : world :=
  match o with
  | Returns _ w => w
  | Exits _ w => w
  | Blocks w => w
  end.

Definition arrays_inv (w : world) : Prop := arrays_ok (mem w).
Definition no_inv (w : world) : Prop := True.

(** The three kinds of result of a read, as the loops tell them apart. *)
Definition fatal (r : io_result) : Prop :=
  exists e, r = IoError e /\ e <> EAGAIN /\ e <> EINTR.
Definition transient (r : io_result) : Prop :=
  io_ret r <= 0 /\ ~ fatal r.
Definition positive (r : io_result) : Prop :=
  0 < io_ret r.

Definition is_fatal (r : io_result) : bool :=
  match r with
  | IoData _ _ => false
  | IoError e => negb (e =? EAGAIN) && negb (e =? EINTR)
  end.

(** The world after [read(f, dst, MTU)] came back with [r], and after
    [recvfrom] did. *)
Definition after_read (f : fd) (dst : bufref) (r : io_result) (w : world)
  : world :=
  set_mem (write_buf dst r (mem w))
    (set_errno (io_errno r (errno w)) (log_events [EvRead f dst r] w)).
Definition after_recvfrom (f : fd) (dst : bufref) (i : Z) (r : io_result)
    (w : world) : world :=
  let w1 := after_read f dst r w in
  set_mem
    (set_client_addr
       (upd (client_addr (mem w1)) i (io_from r (idx (client_addr (mem w1)) i)))
       (mem w1)) w1.

(** The world after one pass of each of the four loops. *)
Definition enqueue_tun_pass (ptr : Z) (r : io_result) (w : world) : world :=
  let w1 := after_read tunfd (SlotTun ptr) r w in
  set_mem (set_length_tun (upd (length_tun (mem w1)) ptr (io_ret r)) (mem w1))
    w1.
Definition enqueue_sock_pass (ptr : Z) (r : io_result) (w : world) : world :=
  let w1 := after_recvfrom sockfd (SlotSock ptr) ptr r w in
  set_mem
    (set_length_sock (upd (length_sock (mem w1)) ptr (io_ret r)) (mem w1)) w1.
Definition drop_tun_pass (r : io_result) (w : world) : world :=
  after_read tunfd DummyTun r w.
Definition drop_sock_pass (r : io_result) (w : world) : world :=
  after_read sockfd DummySock r w.

(** The world after the passes that read [pre], [rest] being the results
    still to come after them. *)
Fixpoint passes (consume : list io_result -> world -> world)
    (pass : io_result -> world -> world) (pre rest : list io_result)
    (w : world) : world :=
  match pre with
  | [] => w
  | r :: pre' =>
      passes consume pass pre' rest (pass r (consume (pre' ++ rest) w))
  end.

(** The world after the critical section reserved the slot at the write
    cursor. *)
Definition after_reserve_tun (w : world) : world :=
  log_events [EvLock lock_tunqueue; EvUnlock lock_tunqueue]
    (set_mem
       (set_freeptr_tun ((freeptr_tun (mem w) + 1) mod QUEUE_SIZE) (mem w)) w).
Definition after_reserve_sock (w : world) : world :=
  log_events [EvLock lock_sockqueue; EvUnlock lock_sockqueue]
    (set_mem
       (set_freeptr_sock ((freeptr_sock (mem w) + 1) mod QUEUE_SIZE) (mem w))
       w).

(** A wait that came back without a failure. *)
Definition rc_ok (r : wait_result) : Prop :=
  wr_rc r = 0 \/ wr_rc r = ETIMEDOUT.

(** The queue is empty at each of the tests that lead to the waits
    [waited], none of which fails, and is not empty at the test after the
    last of them. *)
Fixpoint woken_nonempty (isempty : globals -> bool)
    (waited : list wait_result) (s : globals) : Prop :=
  match waited with
  | [] => isempty s = false
  | r :: waited' =>
      isempty s = true /\ rc_ok r /\
      woken_nonempty isempty waited' (wr_others r s)
  end.

(** The globals after what the other threads did during the waits. *)
Definition after_waits (waited : list wait_result) (s : globals) : globals :=
  fold_left (fun s r => wr_others r s) waited s.

(** The world after one timed wait came back with [r], [ws] being the waits
    still to come, and after the waits [waited] came back. *)
Definition after_wait (c : condvar) (m : mutex) (r : wait_result)
    (ws : list wait_result) (w : world) : world :=
  set_mem (wr_others r (mem w))
    (log_events [EvTimedWait c m (deadline (wr_now r))] (set_wait_in ws w)).

Definition timed_waits (c : condvar) (m : mutex) (waited : list wait_result)
  : list event :=
  map (fun r => EvTimedWait c m (deadline (wr_now r))) waited.

(** The log messages of a trace. *)
Definition logged (tr : list event) : list string :=
  omap (fun e => match e with EvLog msg => Some msg | _ => None end) tr.

(** The units the producer stored in slots of the tunnel queue, in the order
    of their reads, and the units handed to [process_tun_packet], in the
    order of the calls. *)
Definition published (tr : list event) : list (list byte) :=
  omap (fun e =>
          match e with
          | EvRead tunfd (SlotTun _) (IoData d _) =>
              match take MTU d with
              | [] => None
              | b :: bs => Some (b :: bs)
              end
          | _ => None
          end) tr.
Definition claimed (tr : list event) : list (list byte) :=
  omap (fun e =>
          match e with
          | EvProcessTun buf len => Some (take (Z.to_nat len) buf)
          | _ => None
          end) tr.

(** What is claimed of a call [call] that runs one of the read loops on the
    script [script w], reading from [f] into [dst], with the events [before]
    ahead of the loop and [after] behind it:
    - it ends the process exactly when, after transient results only, a
      read comes back with a fatal error; the exit status is then
      [EXIT_FAILURE], all these reads were the same call, and the one
      message [msg] is logged last;
    - it returns exactly when, after transient results only, a read comes
      back with a positive length; all these reads were the same call;
    - it stays in the read exactly when all the results are transient. *)
Definition read_loop_contract (call : M unit)
    (script : world -> list io_result) (f : fd) (dst : bufref) (msg : string)
    (before after : list event) (w : world) : Prop :=
  ((exists st w', call w = Exits st w') <->
   (exists pre r post,
      script w = pre ++ r :: post /\ Forall transient pre /\ fatal r)) /\
  (forall st w', call w = Exits st w' ->
     st = EXIT_FAILURE /\
     exists pre r post,
       script w = pre ++ r :: post /\ Forall transient pre /\ fatal r /\
       script w' = post /\
       trace w' =
         trace w ++ before ++ map (EvRead f dst) (pre ++ [r]) ++ [EvLog msg] /\
       logged (trace w') = logged (trace w) ++ [msg]) /\
  ((exists w', call w = Returns tt w') <->
   (exists pre r post,
      script w = pre ++ r :: post /\ Forall transient pre /\ positive r)) /\
  (forall w', call w = Returns tt w' ->
     exists pre r post,
       script w = pre ++ r :: post /\ Forall transient pre /\ positive r /\
       script w' = post /\
       trace w' =
         trace w ++ before ++ map (EvRead f dst) (pre ++ [r]) ++ after /\
       logged (trace w') = logged (trace w)) /\
  ((exists w', call w = Blocks w') <-> Forall transient (script w)).

(** Units of one byte each, from no particular sender. *)
Definition units (bs : list byte) : list io_result :=
  map (fun b => IoData [b] sockaddr_zero) bs.

Definition bytes_1_to_33 : list byte :=
  [x01; x02; x03; x04; x05; x06; x07; x08; x09; x0a; x0b; x0c; x0d; x0e; x0f;
   x10; x11; x12; x13; x14; x15; x16; x17; x18; x19; x1a; x1b; x1c; x1d; x1e;
   x1f; x20; x21].

(** A wait that expires, nothing having happened meanwhile. *)
Definition timeout_wait : wait_result :=
  mk_wait_result (mk_timespec 0 0) ETIMEDOUT (fun s => s).

(** Both invariants together, and a computation that keeps them whatever
    its outcome. *)
Definition globals_ok (s : globals) : Prop := cursors_ok s /\ arrays_ok s.
Definition keeps_ok {A : Type} (c : M A) : Prop :=
  forall w, globals_ok (mem w) -> globals_ok (mem (outcome_world (c w))).

(** The other threads keep the invariants during every wait to come. *)
Definition waits_keep_ok (ws : list wait_result) : Prop :=
  Forall (fun r => forall s, globals_ok s -> globals_ok (wr_others r s)) ws.

(** In the interleaved system: the invariants hold, and the slot a thread
    has in hand is one of the 32. *)
Definition system_ok (c : system) : Prop :=
  globals_ok (mem (sys_world c)) /\
  waits_keep_ok (wait_in (sys_world c)) /\
  (forall ptr, producer c = PRead ptr -> 0 <= ptr < QUEUE_SIZE) /\
  (forall ptr, consumer c = CProcess ptr -> 0 <= ptr < QUEUE_SIZE).

(** What belongs to each of the two pipelines: the slots, lengths (and
    addresses), the two cursors, the scratch buffer of the drain, and the
    input still to come on the descriptor. *)
Definition tun_side (w : world) :=
  (queue_tun (mem w), length_tun (mem w), freeptr_tun (mem w),
   curptr_tun (mem w), dummy_tun (mem w), tunfd_in w).
Definition sock_side (w : world) :=
  (queue_sock (mem w), length_sock (mem w), client_addr (mem w),
   freeptr_sock (mem w), curptr_sock (mem w), dummy_sock (mem w),
   sockfd_in w).

(** The number of slots between the read cursor and the write cursor: the
    units stored and not yet claimed. *)
Definition stored_tun (s : globals) : Z :=
  (freeptr_tun s - curptr_tun s - 1) mod QUEUE_SIZE.
Definition stored_sock (s : globals) : Z :=
  (freeptr_sock s - curptr_sock s - 1) mod QUEUE_SIZE.

Definition cursors_tun (w : world) : Z * Z :=
  (freeptr_tun (mem w), curptr_tun (mem w)).
Definition cursors_sock (w : world) : Z * Z :=
  (freeptr_sock (mem w), curptr_sock (mem w)).

(** The slot of the tunnel queue at index [i], the [n] slots from index [i]
    on around the ring, and the slots that hold the units stored and not
    yet claimed, oldest first. *)
Definition slot_tun (s : globals) (i : Z) : buffer * Z :=
  (idx (queue_tun s) i, idx (length_tun s) i).
Fixpoint slots_from (s : globals) (i : Z) (n : nat) : list (buffer * Z) :=
  match n with
  | O => []
  | S n' => slot_tun s i :: slots_from s ((i + 1) mod QUEUE_SIZE) n'
  end.
Definition contents_tun (s : globals) : list (buffer * Z) :=
  slots_from s ((curptr_tun s + 1) mod QUEUE_SIZE) (Z.to_nat (stored_tun s)).

(** The bytes of a slot that count, given its recorded length. *)
Definition unit_bytes (x : buffer * Z) : list byte :=
  take (Z.to_nat (snd x)) (fst x).
Definition units_in (s : globals) : list (list byte) :=
  map unit_bytes (contents_tun s).

(** A sequence of complete calls on the tunnel queue. *)
Inductive call : Type := CallEnqueue | CallDrop | CallDequeue.
Definition do_call (c : call) : M unit :=
  match c with
  | CallEnqueue => enqueue_tun
  | CallDrop => drop_tun
  | CallDequeue => dequeue_tun
  end.
Fixpoint do_calls (cs : list call) : M unit :=
  match cs with
  | [] => mret tt
  | c :: cs' => do_call c;; do_calls cs'
  end.

(** The queue is empty at each of the tests that lead to the waits
    [waited], none of which fails, and at the test after the last. *)
Fixpoint still_empty (isempty : globals -> bool)
    (waited : list wait_result) (s : globals) : Prop :=
  match waited with
  | [] => isempty s = true
  | r :: waited' =>
      isempty s = true /\ rc_ok r /\
      still_empty isempty waited' (wr_others r s)
  end.

(** In an interleaved run the other threads are run by the scheduler, so
    that nothing happens to the globals inside a wait. *)
Definition waits_quiet (ws : list wait_result) : Prop :=
  Forall (fun r => forall s, wr_others r s = s) ws.

(** The lock discipline of a run of events, [held] being the mutex held
    before it: a mutex is locked only when none is held, only the mutex held
    is unlocked, a timed wait is made on the mutex held, and a read, a
    signal or a call of a processing callback happens with no mutex held.
    The result is the mutex held after the events. *)
Definition mutex_eqb (m1 m2 : mutex) : bool :=
  match m1, m2 with
  | lock_tunqueue, lock_tunqueue => true
  | lock_sockqueue, lock_sockqueue => true
  | _, _ => false
  end.

Fixpoint lock_discipline (held : option mutex) (tr : list event)
  : option (option mutex) :=
  match tr with
  | [] => Some held
  | e :: tr' =>
      match e, held with
      | EvLock m, None => lock_discipline (Some m) tr'
      | EvUnlock m, Some m' =>
          if mutex_eqb m m' then lock_discipline None tr' else None
      | EvTimedWait _ m _, Some m' =>
          if mutex_eqb m m' then lock_discipline held tr' else None
      | EvLog _, _ => lock_discipline held tr'
      | EvRead _ _ _, None => lock_discipline held tr'
      | EvSignal _, None => lock_discipline held tr'
      | EvProcessTun _ _, None => lock_discipline held tr'
      | EvProcessSock _ _ _, None => lock_discipline held tr'
      | _, _ => None
      end
  end.

(** The events of a call keep the discipline from no mutex held, and leave
    [after] held. *)
Definition disciplined {A : Type} (c : M A) (w : world)
    (after : option mutex) : Prop :=
  exists tr,
    trace (outcome_world (c w)) = trace w ++ tr /\
    lock_discipline None tr = Some after.

(** The same for the socket queue, whose slots have a sender address. *)
Definition slot_sock (s : globals) (i : Z) : sockaddr_in * buffer * Z :=
  (idx (client_addr s) i, idx (queue_sock s) i, idx (length_sock s) i).
Fixpoint slots_from_sock (s : globals) (i : Z) (n : nat)
  : list (sockaddr_in * buffer * Z) :=
  match n with
  | O => []
  | S n' => slot_sock s i :: slots_from_sock s ((i + 1) mod QUEUE_SIZE) n'
  end.
Definition contents_sock (s : globals) : list (sockaddr_in * buffer * Z) :=
  slots_from_sock s ((curptr_sock s + 1) mod QUEUE_SIZE)
    (Z.to_nat (stored_sock s)).
Definition datagram (x : sockaddr_in * buffer * Z)
  : sockaddr_in * list byte :=
  let '(a, buf, len) := x in (a, take (Z.to_nat len) buf).
Definition datagrams_in (s : globals) : list (sockaddr_in * list byte) :=
  map datagram (contents_sock s).

(** The datagrams the producer stored in slots of the socket queue, and the
    datagrams handed to [process_sock_packet], each with its sender. *)
Definition published_sock (tr : list event)
  : list (sockaddr_in * list byte) :=
  omap (fun e =>
          match e with
          | EvRead sockfd (SlotSock _) (IoData d a) =>
              match take MTU d with
              | [] => None
              | b :: bs => Some (a, b :: bs)
              end
          | _ => None
          end) tr.
Definition claimed_sock (tr : list event) : list (sockaddr_in * list byte) :=
  omap (fun e =>
          match e with
          | EvProcessSock addr buf len => Some (addr, take (Z.to_nat len) buf)
          | _ => None
          end) tr.

Inductive call_sock : Type := SockEnqueue | SockDrop | SockDequeue.
Definition do_call_sock (c : call_sock) : M unit :=
  match c with
  | SockEnqueue => enqueue_sock
  | SockDrop => drop_sock
  | SockDequeue => dequeue_sock
  end.
Fixpoint do_calls_sock (cs : list call_sock) : M unit :=
  match cs with
  | [] => mret tt
  | c :: cs' => do_call_sock c;; do_calls_sock cs'
  end.

(** Events that follow a reservation: no mutex is locked or unlocked any
    more, and every read is into the buffer [dst]. *)
Definition reads_only_into (dst : bufref) (tr : list event) : Prop :=
  Forall (fun e =>
            match e with
            | EvRead _ d _ => d = dst
            | EvLock _ => False
            | EvUnlock _ => False
            | _ => True
            end) tr.

(** [n] calls in a row. *)
Fixpoint times (n : nat) (c : M unit) : M unit :=
  match n with
  | O => mret tt
  | S k => c;; times k c
  end.

(** * Properties *)

(** Runs the straight-line part of a computation. *)
Ltac run_m :=
  cbv [mbind M_bind mret M_ret emit load store get_errno pthread_mutex_lock
       pthread_mutex_unlock pthread_cond_signal tspslog exit
       process_tun_packet process_sock_packet read recvfrom
       pthread_cond_timedwait log_events];
  cbn [mem errno tunfd_in sockfd_in wait_in trace set_mem set_errno
       set_tunfd_in set_sockfd_in set_wait_in set_trace].

(** Closes an equation between two outcomes that differ in the bracketing of
    the trace or of the setters. *)
Ltac same_world :=
  cbv [log_events set_mem set_errno set_tunfd_in set_sockfd_in set_wait_in
       set_trace];
  cbn [mem errno tunfd_in sockfd_in wait_in trace];
  rewrite <- ?app_assoc; cbn [app];
  repeat f_equal.

Lemma rem_small (x : Z) : 0 <= x < QUEUE_SIZE -> Z.rem x QUEUE_SIZE = x.
Proof. intros H. apply Z.rem_small. exact H. Qed.

Lemma rem_is_mod (x : Z) :
  0 <= x -> Z.rem x QUEUE_SIZE = x mod QUEUE_SIZE.
Proof. intros H. apply Z.rem_mod_nonneg; [exact H | reflexivity]. Qed.

Lemma set_freeptr_tun_twice (a b : Z) (s : globals) :
  set_freeptr_tun a (set_freeptr_tun b s) = set_freeptr_tun a s.
Proof. reflexivity. Qed.

(** ** The cursor tests *)

Lemma queue_tun_isfull_eq (w : world) :
  queue_tun_isfull w =
  Returns (freeptr_tun (mem w) =? curptr_tun (mem w))
    (log_events [EvLock lock_tunqueue; EvUnlock lock_tunqueue] w).
Proof. unfold queue_tun_isfull. run_m. same_world. Qed.

Lemma queue_sock_isfull_eq (w : world) :
  queue_sock_isfull w =
  Returns (freeptr_sock (mem w) =? curptr_sock (mem w))
    (log_events [EvLock lock_sockqueue; EvUnlock lock_sockqueue] w).
Proof. unfold queue_sock_isfull. run_m. same_world. Qed.

Lemma queue_tun_isempty_eq (w : world) :
  queue_tun_isempty w =
  Returns (_queue_tun_isempty (mem w))
    (log_events [EvLock lock_tunqueue; EvUnlock lock_tunqueue] w).
Proof. unfold queue_tun_isempty. run_m. same_world. Qed.

Lemma queue_sock_isempty_eq (w : world) :
  queue_sock_isempty w =
  Returns (_queue_sock_isempty (mem w))
    (log_events [EvLock lock_sockqueue; EvUnlock lock_sockqueue] w).
Proof. unfold queue_sock_isempty. run_m. same_world. Qed.

Lemma _queue_tun_isempty_true (s : globals) :
  -1 <= curptr_tun s ->
  _queue_tun_isempty s = true <->
  (curptr_tun s + 1) mod QUEUE_SIZE = freeptr_tun s.
Proof.
  intros H. unfold _queue_tun_isempty.
  rewrite rem_is_mod by lia. apply Z.eqb_eq.
Qed.

Lemma _queue_sock_isempty_true (s : globals) :
  -1 <= curptr_sock s ->
  _queue_sock_isempty s = true <->
  (curptr_sock s + 1) mod QUEUE_SIZE = freeptr_sock s.
Proof.
  intros H. unfold _queue_sock_isempty.
  rewrite rem_is_mod by lia. apply Z.eqb_eq.
Qed.

(** C5: each of the four tests locks the mutex of its queue, compares the
    cursors, unlocks and returns; the globals are left as they were.
    [queue_tun_isfull] and [queue_sock_isfull] return true exactly when the
    write cursor equals the read cursor, [queue_tun_isempty] and
    [queue_sock_isempty] exactly when the read cursor plus one, modulo
    [QUEUE_SIZE], equals the write cursor. *)
Theorem C5_isfull_isempty (w : world) (Hc : cursors_ok (mem w)) :
  (exists b,
     queue_tun_isfull w =
       Returns b (log_events [EvLock lock_tunqueue; EvUnlock lock_tunqueue] w)
     /\ (b = true <-> freeptr_tun (mem w) = curptr_tun (mem w))) /\
  (exists b,
     queue_sock_isfull w =
       Returns b
         (log_events [EvLock lock_sockqueue; EvUnlock lock_sockqueue] w)
     /\ (b = true <-> freeptr_sock (mem w) = curptr_sock (mem w))) /\
  (exists b,
     queue_tun_isempty w =
       Returns b (log_events [EvLock lock_tunqueue; EvUnlock lock_tunqueue] w)
     /\ (b = true <->
         (curptr_tun (mem w) + 1) mod QUEUE_SIZE = freeptr_tun (mem w))) /\
  (exists b,
     queue_sock_isempty w =
       Returns b
         (log_events [EvLock lock_sockqueue; EvUnlock lock_sockqueue] w)
     /\ (b = true <->
         (curptr_sock (mem w) + 1) mod QUEUE_SIZE = freeptr_sock (mem w))).
Proof.
  destruct Hc as [[_ Ht] [_ Hs]].
  repeat split.
  - eexists. split; [apply queue_tun_isfull_eq | apply Z.eqb_eq].
  - eexists. split; [apply queue_sock_isfull_eq | apply Z.eqb_eq].
  - eexists. split; [apply queue_tun_isempty_eq |].
    apply _queue_tun_isempty_true. lia.
  - eexists. split; [apply queue_sock_isempty_eq |].
    apply _queue_sock_isempty_true. lia.
Qed.

(** ** Reserving and claiming a slot *)

Lemma enqueue_tun_reserve_eq (w : world) :
  enqueue_tun_reserve w =
  if freeptr_tun (mem w) =? curptr_tun (mem w) then
    Returns None (log_events [EvLock lock_tunqueue; EvUnlock lock_tunqueue] w)
  else
    Returns (Some (Z.rem (freeptr_tun (mem w)) QUEUE_SIZE))
      (log_events [EvLock lock_tunqueue; EvUnlock lock_tunqueue]
         (set_mem
            (set_freeptr_tun (Z.rem (freeptr_tun (mem w) + 1) QUEUE_SIZE)
               (mem w)) w)).
Proof.
  unfold enqueue_tun_reserve. run_m.
  destruct (freeptr_tun (mem w) =? curptr_tun (mem w)); same_world.
Qed.

Lemma enqueue_sock_reserve_eq (w : world) :
  enqueue_sock_reserve w =
  if freeptr_sock (mem w) =? curptr_sock (mem w) then
    Returns None
      (log_events [EvLock lock_sockqueue; EvUnlock lock_sockqueue] w)
  else
    Returns (Some (Z.rem (freeptr_sock (mem w)) QUEUE_SIZE))
      (log_events [EvLock lock_sockqueue; EvUnlock lock_sockqueue]
         (set_mem
            (set_freeptr_sock (Z.rem (freeptr_sock (mem w) + 1) QUEUE_SIZE)
               (mem w)) w)).
Proof.
  unfold enqueue_sock_reserve. run_m.
  destruct (freeptr_sock (mem w) =? curptr_sock (mem w)); same_world.
Qed.

Lemma dequeue_tun_claim_eq (w : world) :
  dequeue_tun_claim w =
  if _queue_tun_isempty (mem w) then
    Returns None (log_events [EvLock lock_tunqueue; EvUnlock lock_tunqueue] w)
  else
    Returns (Some (Z.rem (curptr_tun (mem w) + 1) QUEUE_SIZE))
      (log_events [EvLock lock_tunqueue; EvUnlock lock_tunqueue]
         (set_mem
            (set_curptr_tun (Z.rem (curptr_tun (mem w) + 1) QUEUE_SIZE)
               (mem w)) w)).
Proof.
  unfold dequeue_tun_claim. run_m.
  destruct (_queue_tun_isempty (mem w)); same_world.
Qed.

Lemma dequeue_sock_claim_eq (w : world) :
  dequeue_sock_claim w =
  if _queue_sock_isempty (mem w) then
    Returns None
      (log_events [EvLock lock_sockqueue; EvUnlock lock_sockqueue] w)
  else
    Returns (Some (Z.rem (curptr_sock (mem w) + 1) QUEUE_SIZE))
      (log_events [EvLock lock_sockqueue; EvUnlock lock_sockqueue]
         (set_mem
            (set_curptr_sock (Z.rem (curptr_sock (mem w) + 1) QUEUE_SIZE)
               (mem w)) w)).
Proof.
  unfold dequeue_sock_claim. run_m.
  destruct (_queue_sock_isempty (mem w)); same_world.
Qed.

(** A full queue: [enqueue_tun] and [enqueue_sock] only lock and unlock. *)
Lemma enqueue_tun_full (w : world) :
  freeptr_tun (mem w) = curptr_tun (mem w) ->
  enqueue_tun w =
  Returns tt (log_events [EvLock lock_tunqueue; EvUnlock lock_tunqueue] w).
Proof.
  intros H. unfold enqueue_tun.
  change ((enqueue_tun_reserve ≫= ?f) w)
    with (match enqueue_tun_reserve w with
          | Returns a w' => f a w'
          | Exits st w' => Exits st w'
          | Blocks w' => Blocks w'
          end).
  rewrite enqueue_tun_reserve_eq.
  apply Z.eqb_eq in H. rewrite H. reflexivity.
Qed.

Lemma enqueue_sock_full (w : world) :
  freeptr_sock (mem w) = curptr_sock (mem w) ->
  enqueue_sock w =
  Returns tt (log_events [EvLock lock_sockqueue; EvUnlock lock_sockqueue] w).
Proof.
  intros H. unfold enqueue_sock.
  change ((enqueue_sock_reserve ≫= ?f) w)
    with (match enqueue_sock_reserve w with
          | Returns a w' => f a w'
          | Exits st w' => Exits st w'
          | Blocks w' => Blocks w'
          end).
  rewrite enqueue_sock_reserve_eq.
  apply Z.eqb_eq in H. rewrite H. reflexivity.
Qed.

(** C7: [dequeue_tun] and [dequeue_sock] lock the mutex of the queue; on an
    empty queue they unlock and return, and no callback is called; otherwise
    they move the read cursor to the next index modulo [QUEUE_SIZE], unlock,
    and call the processing callback once, on the buffer and the length
    stored at that index (and, for the socket queue, the address stored
    there). *)
Theorem C7_dequeue (w : world) (Hc : cursors_ok (mem w)) :
  ((curptr_tun (mem w) + 1) mod QUEUE_SIZE = freeptr_tun (mem w) ->
   dequeue_tun w =
     Returns tt
       (log_events [EvLock lock_tunqueue; EvUnlock lock_tunqueue] w)) /\
  ((curptr_tun (mem w) + 1) mod QUEUE_SIZE <> freeptr_tun (mem w) ->
   let i := (curptr_tun (mem w) + 1) mod QUEUE_SIZE in
   dequeue_tun w =
     Returns tt
       (log_events
          [EvLock lock_tunqueue; EvUnlock lock_tunqueue;
           EvProcessTun (idx (queue_tun (mem w)) i)
             (idx (length_tun (mem w)) i)]
          (set_mem (set_curptr_tun i (mem w)) w))) /\
  ((curptr_sock (mem w) + 1) mod QUEUE_SIZE = freeptr_sock (mem w) ->
   dequeue_sock w =
     Returns tt
       (log_events [EvLock lock_sockqueue; EvUnlock lock_sockqueue] w)) /\
  ((curptr_sock (mem w) + 1) mod QUEUE_SIZE <> freeptr_sock (mem w) ->
   let i := (curptr_sock (mem w) + 1) mod QUEUE_SIZE in
   dequeue_sock w =
     Returns tt
       (log_events
          [EvLock lock_sockqueue; EvUnlock lock_sockqueue;
           EvProcessSock (idx (client_addr (mem w)) i)
             (idx (queue_sock (mem w)) i) (idx (length_sock (mem w)) i)]
          (set_mem (set_curptr_sock i (mem w)) w))).
Proof.
  destruct Hc as [[_ Hct] [_ Hcs]].
  split; [|split; [|split]].
  - intros H. unfold dequeue_tun.
    change ((dequeue_tun_claim ≫= ?f) w)
      with (match dequeue_tun_claim w with
            | Returns a w' => f a w'
            | Exits st w' => Exits st w'
            | Blocks w' => Blocks w'
            end).
    rewrite dequeue_tun_claim_eq.
    apply _queue_tun_isempty_true in H; [|lia]. rewrite H. reflexivity.
  - intros H i. unfold dequeue_tun.
    change ((dequeue_tun_claim ≫= ?f) w)
      with (match dequeue_tun_claim w with
            | Returns a w' => f a w'
            | Exits st w' => Exits st w'
            | Blocks w' => Blocks w'
            end).
    rewrite dequeue_tun_claim_eq.
    destruct (_queue_tun_isempty (mem w)) eqn:E.
    { apply _queue_tun_isempty_true in E; [contradiction | lia]. }
    rewrite rem_is_mod by lia. fold i.
    unfold dequeue_tun_process. run_m. same_world.
  - intros H. unfold dequeue_sock.
    change ((dequeue_sock_claim ≫= ?f) w)
      with (match dequeue_sock_claim w with
            | Returns a w' => f a w'
            | Exits st w' => Exits st w'
            | Blocks w' => Blocks w'
            end).
    rewrite dequeue_sock_claim_eq.
    apply _queue_sock_isempty_true in H; [|lia]. rewrite H. reflexivity.
  - intros H i. unfold dequeue_sock.
    change ((dequeue_sock_claim ≫= ?f) w)
      with (match dequeue_sock_claim w with
            | Returns a w' => f a w'
            | Exits st w' => Exits st w'
            | Blocks w' => Blocks w'
            end).
    rewrite dequeue_sock_claim_eq.
    destruct (_queue_sock_isempty (mem w)) eqn:E.
    { apply _queue_sock_isempty_true in E; [contradiction | lia]. }
    rewrite rem_is_mod by lia. fold i.
    unfold dequeue_sock_process. run_m. same_world.
Qed.

(** ** The read loops *)

Lemma bind_eq {A B : Type} (c : M A) (f : A -> M B) (w : world) :
  (c ≫= f) w =
  match c w with
  | Returns a w' => f a w'
  | Exits st w' => Exits st w'
  | Blocks w' => Blocks w'
  end.
Proof. reflexivity. Qed.

Lemma io_ret_data_nonneg (d : list byte) (a : sockaddr_in) :
  0 <= io_ret (IoData d a).
Proof. unfold io_ret. lia. Qed.

Lemma is_fatal_true (r : io_result) : is_fatal r = true <-> fatal r.
Proof.
  unfold fatal. destruct r as [d a | e]; cbn.
  - split; [discriminate | intros (e & H & _); discriminate].
  - rewrite andb_true_iff, !negb_true_iff, !Z.eqb_neq. split.
    + intros [H1 H2]. exists e. auto.
    + intros (e' & H & H1 & H2). injection H as ->. auto.
Qed.

Lemma is_fatal_false (r : io_result) : is_fatal r = false <-> ~ fatal r.
Proof.
  rewrite <- is_fatal_true. destruct (is_fatal r); split; intros H;
    try reflexivity; try discriminate; try (intros H'; discriminate).
  exfalso. apply H. reflexivity.
Qed.

Lemma transient_bools (r : io_result) :
  transient r -> is_fatal r = false /\ (io_ret r <=? 0) = true.
Proof.
  intros [H1 H2]. split; [apply is_fatal_false; exact H2 | apply Z.leb_le].
  exact H1.
Qed.

Lemma positive_bools (r : io_result) :
  positive r -> is_fatal r = false /\ (io_ret r <=? 0) = false.
Proof.
  unfold positive. intros H. split; [|apply Z.leb_gt; exact H].
  destruct r as [d a | e]; [reflexivity | cbn in H; lia].
Qed.

Lemma result_cases (r : io_result) : transient r \/ fatal r \/ positive r.
Proof.
  destruct (is_fatal r) eqn:F.
  - right. left. apply is_fatal_true. exact F.
  - apply is_fatal_false in F. unfold transient, positive.
    destruct (Z_le_gt_dec (io_ret r) 0); [left; auto | right; right; lia].
Qed.

Lemma script_cases (rs : list io_result) :
  Forall transient rs \/
  exists pre r post,
    rs = pre ++ r :: post /\ Forall transient pre /\ (fatal r \/ positive r).
Proof.
  induction rs as [|r rs IH].
  - left. constructor.
  - destruct (result_cases r) as [T | D].
    + destruct IH as [All | (pre & r' & post & -> & Hpre & D)].
      * left. constructor; assumption.
      * right. exists (r :: pre), r', post.
        split; [reflexivity | split; [constructor; assumption | exact D]].
    + right. exists [], r, rs.
      split; [reflexivity | split; [constructor | exact D]].
Qed.

Lemma logged_reads (f : fd) (dst : bufref) (rs : list io_result) :
  logged (map (EvRead f dst) rs) = [].
Proof. induction rs as [|r rs IH]; [reflexivity | exact IH]. Qed.

Section DoWhile.

Variable consume : list io_result -> world -> world.
Variable body : io_result -> M bool.
Variable pass : io_result -> world -> world.
Variable msg : string.
Variable inv : world -> Prop.

Hypothesis body_eq : forall r w,
  inv w ->
  body r w =
  if is_fatal r then Exits EXIT_FAILURE (log_events [EvLog msg] (pass r w))
  else Returns (io_ret r <=? 0) (pass r w).
Hypothesis inv_pass : forall r w, inv w -> inv (pass r w).
Hypothesis inv_consume : forall rs w, inv w -> inv (consume rs w).

Lemma do_while_read_cons (r : io_result) (rs : list io_result) (w : world) :
  inv w ->
  do_while_read consume body (r :: rs) w =
  if is_fatal r then
    Exits EXIT_FAILURE (log_events [EvLog msg] (pass r (consume rs w)))
  else if io_ret r <=? 0 then
    do_while_read consume body rs (pass r (consume rs w))
  else Returns tt (pass r (consume rs w)).
Proof.
  intros Hw. cbn [do_while_read]. rewrite bind_eq.
  rewrite body_eq by (apply inv_consume; exact Hw).
  destruct (is_fatal r); [reflexivity |].
  destruct (io_ret r <=? 0); reflexivity.
Qed.

Lemma inv_passes (pre rest : list io_result) (w : world) :
  inv w -> inv (passes consume pass pre rest w).
Proof.
  revert w. induction pre as [|r pre IH]; intros w Hw; [exact Hw |].
  cbn [passes]. apply IH, inv_pass, inv_consume, Hw.
Qed.

Lemma passes_snoc (pre : list io_result) (r : io_result)
    (post : list io_result) (w : world) :
  passes consume pass (pre ++ [r]) post w =
  pass r (consume post (passes consume pass pre (r :: post) w)).
Proof.
  revert w. induction pre as [|p pre IH]; intros w; [reflexivity |].
  cbn [app passes]. rewrite IH. rewrite <- app_assoc. reflexivity.
Qed.

Lemma do_while_read_transient (pre rest : list io_result) (w : world) :
  Forall transient pre -> inv w ->
  do_while_read consume body (pre ++ rest) w =
  do_while_read consume body rest (passes consume pass pre rest w).
Proof.
  revert w. induction pre as [|r pre IH]; intros w Hpre Hw; [reflexivity |].
  inversion Hpre as [|? ? Hr Hpre']; subst.
  cbn [app]. rewrite do_while_read_cons by exact Hw.
  destruct (transient_bools r Hr) as [-> ->].
  rewrite IH; [reflexivity | exact Hpre' |].
  apply inv_pass, inv_consume, Hw.
Qed.

Lemma do_while_read_blocks (rs : list io_result) (w : world) :
  Forall transient rs -> inv w ->
  do_while_read consume body rs w = Blocks (passes consume pass rs [] w).
Proof.
  intros Hrs Hw. rewrite <- (app_nil_r rs) at 1.
  rewrite do_while_read_transient by assumption. reflexivity.
Qed.

Lemma do_while_read_exits (pre : list io_result) (r : io_result)
    (post : list io_result) (w : world) :
  Forall transient pre -> fatal r -> inv w ->
  do_while_read consume body (pre ++ r :: post) w =
  Exits EXIT_FAILURE
    (log_events [EvLog msg] (passes consume pass (pre ++ [r]) post w)).
Proof.
  intros Hpre Hr Hw. rewrite do_while_read_transient by assumption.
  rewrite do_while_read_cons by (apply inv_passes; exact Hw).
  apply is_fatal_true in Hr. rewrite Hr, passes_snoc. reflexivity.
Qed.

Lemma do_while_read_returns (pre : list io_result) (r : io_result)
    (post : list io_result) (w : world) :
  Forall transient pre -> positive r -> inv w ->
  do_while_read consume body (pre ++ r :: post) w =
  Returns tt (passes consume pass (pre ++ [r]) post w).
Proof.
  intros Hpre Hr Hw. rewrite do_while_read_transient by assumption.
  rewrite do_while_read_cons by (apply inv_passes; exact Hw).
  destruct (positive_bools r Hr) as [-> ->]. rewrite passes_snoc.
  reflexivity.
Qed.

(** The trace and the script after the passes. *)
Variable f : fd.
Variable dst : bufref.
Variable script : world -> list io_result.

Hypothesis trace_pass : forall r w,
  trace (pass r w) = trace w ++ [EvRead f dst r].
Hypothesis trace_consume : forall rs w, trace (consume rs w) = trace w.
Hypothesis script_pass : forall r w, script (pass r w) = script w.
Hypothesis script_consume : forall rs w, script (consume rs w) = rs.

Lemma trace_passes (pre rest : list io_result) (w : world) :
  trace (passes consume pass pre rest w) =
  trace w ++ map (EvRead f dst) pre.
Proof.
  revert w. induction pre as [|r pre IH]; intros w.
  - cbn. rewrite app_nil_r. reflexivity.
  - cbn [passes map]. rewrite IH, trace_pass, trace_consume.
    rewrite <- app_assoc. reflexivity.
Qed.

Lemma script_passes (pre : list io_result) (r : io_result)
    (post : list io_result) (w : world) :
  script (passes consume pass (pre ++ [r]) post w) = post.
Proof. rewrite passes_snoc, script_pass, script_consume. reflexivity. Qed.

End DoWhile.

(** The contract of a read loop, from the outcome in each of the three
    cases of its script. *)
Lemma read_loop_contract_intro (call : M unit)
    (script : world -> list io_result) (f : fd) (dst : bufref) (msg : string)
    (before after : list event) (w : world) :
  logged before = [] -> logged after = [] ->
  (forall pre r post,
     script w = pre ++ r :: post -> Forall transient pre -> fatal r ->
     exists w',
       call w = Exits EXIT_FAILURE w' /\ script w' = post /\
       trace w' =
         trace w ++ before ++ map (EvRead f dst) (pre ++ [r]) ++ [EvLog msg]) ->
  (forall pre r post,
     script w = pre ++ r :: post -> Forall transient pre -> positive r ->
     exists w',
       call w = Returns tt w' /\ script w' = post /\
       trace w' =
         trace w ++ before ++ map (EvRead f dst) (pre ++ [r]) ++ after) ->
  (Forall transient (script w) -> exists w', call w = Blocks w') ->
  read_loop_contract call script f dst msg before after w.
Proof.
  intros Lb La HE HR HB.
  assert (LE : forall tr pre r,
             logged (tr ++ before ++ map (EvRead f dst) (pre ++ [r])
                     ++ [EvLog msg]) = logged tr ++ [msg]).
  { intros tr pre r. unfold logged. rewrite !omap_app.
    fold (logged before). fold (logged (map (EvRead f dst) (pre ++ [r]))).
    rewrite Lb, logged_reads. reflexivity. }
  assert (LR : forall tr pre r,
             logged (tr ++ before ++ map (EvRead f dst) (pre ++ [r])
                     ++ after) = logged tr).
  { intros tr pre r. unfold logged. rewrite !omap_app.
    fold (logged before). fold (logged (map (EvRead f dst) (pre ++ [r]))).
    fold (logged after).
    rewrite Lb, La, logged_reads. cbn. rewrite app_nil_r. reflexivity. }
  unfold read_loop_contract.
  destruct (script_cases (script w))
    as [All | (pre & r & post & Hs & Hpre & [Hr | Hr])].
  - destruct (HB All) as (wb & Hb).
    split; [|split; [|split; [|split]]].
    + split.
      * intros (st & w' & H). rewrite Hb in H. discriminate.
      * intros (pre & r & post & Hs & Hpre & Hr).
        destruct (HE _ _ _ Hs Hpre Hr) as (w' & H & _). eauto.
    + intros st w' H. rewrite Hb in H. discriminate.
    + split.
      * intros (w' & H). rewrite Hb in H. discriminate.
      * intros (pre & r & post & Hs & Hpre & Hr).
        destruct (HR _ _ _ Hs Hpre Hr) as (w' & H & _). eauto.
    + intros w' H. rewrite Hb in H. discriminate.
    + split; [intros _; exact All | intros _; eauto].
  - destruct (HE _ _ _ Hs Hpre Hr) as (we & He & Hse & Hte).
    split; [|split; [|split; [|split]]].
    + split; [intros _; exists pre, r, post; auto | intros _; eauto].
    + intros st w' H. rewrite He in H. injection H as <- <-.
      split; [reflexivity |]. exists pre, r, post.
      repeat (split; [assumption |]). rewrite Hte. apply LE.
    + split.
      * intros (w' & H). rewrite He in H. discriminate.
      * intros (pre' & r' & post' & Hs' & Hpre' & Hr').
        destruct (HR _ _ _ Hs' Hpre' Hr') as (w' & H & _). eauto.
    + intros w' H. rewrite He in H. discriminate.
    + split.
      * intros (w' & H). rewrite He in H. discriminate.
      * intros All. destruct (HB All) as (w' & H). eauto.
  - destruct (HR _ _ _ Hs Hpre Hr) as (wr & Hret & Hsr & Htr).
    split; [|split; [|split; [|split]]].
    + split.
      * intros (st & w' & H). rewrite Hret in H. discriminate.
      * intros (pre' & r' & post' & Hs' & Hpre' & Hr').
        destruct (HE _ _ _ Hs' Hpre' Hr') as (w' & H & _). eauto.
    + intros st w' H. rewrite Hret in H. discriminate.
    + split; [intros _; exists pre, r, post; auto | intros _; eauto].
    + intros w' H. rewrite Hret in H. injection H as <-.
      exists pre, r, post.
      repeat (split; [assumption |]). rewrite Htr. apply LR.
    + split.
      * intros (w' & H). rewrite Hret in H. discriminate.
      * intros All. destruct (HB All) as (w' & H). eauto.
Qed.

(** *** One pass of each loop *)

Lemma fatal_errno_eq (r : io_result) (e0 : Z) :
  fatal_errno (io_ret r) (io_errno r e0) = is_fatal r.
Proof.
  destruct r as [d a | e]; [|reflexivity].
  unfold fatal_errno, is_fatal.
  pose proof (io_ret_data_nonneg d a) as H.
  destruct (io_ret (IoData d a) =? -1) eqn:E; [|reflexivity].
  apply Z.eqb_eq in E. lia.
Qed.

Lemma idx_upd_eq {A : Type} `{Inhabited A} (a : list A) (i : Z) (v : A) :
  (Z.to_nat i < length a)%nat -> idx (upd a i v) i = v.
Proof. intros Hi. unfold idx, upd. apply list_lookup_total_insert_eq, Hi. Qed.

Lemma length_upd {A : Type} (a : list A) (i : Z) (v : A) :
  length (upd a i v) = length a.
Proof. apply length_insert. Qed.

Lemma slot_in_range (ptr : Z) (n : nat) :
  0 <= ptr < QUEUE_SIZE -> n = Z.to_nat QUEUE_SIZE -> (Z.to_nat ptr < n)%nat.
Proof. unfold QUEUE_SIZE. lia. Qed.

Lemma drop_tun_body_eq (r : io_result) (w : world) :
  drop_tun_body r w =
  if is_fatal r then
    Exits EXIT_FAILURE (log_events [EvLog "Read error"] (drop_tun_pass r w))
  else Returns (io_ret r <=? 0) (drop_tun_pass r w).
Proof.
  unfold drop_tun_body. run_m. rewrite fatal_errno_eq.
  destruct (is_fatal r); reflexivity.
Qed.

Lemma drop_sock_body_eq (r : io_result) (w : world) :
  drop_sock_body r w =
  if is_fatal r then
    Exits EXIT_FAILURE (log_events [EvLog "Read error"] (drop_sock_pass r w))
  else Returns (io_ret r <=? 0) (drop_sock_pass r w).
Proof.
  unfold drop_sock_body. run_m. rewrite fatal_errno_eq.
  destruct (is_fatal r); reflexivity.
Qed.

Lemma enqueue_tun_body_eq (ptr : Z) (r : io_result) (w : world) :
  0 <= ptr < QUEUE_SIZE -> arrays_ok (mem w) ->
  enqueue_tun_body ptr r w =
  if is_fatal r then
    Exits EXIT_FAILURE
      (log_events [EvLog "Read error"] (enqueue_tun_pass ptr r w))
  else Returns (io_ret r <=? 0) (enqueue_tun_pass ptr r w).
Proof.
  intros Hp (_ & _ & Hl & _). unfold enqueue_tun_body. run_m.
  cbn [write_buf length_tun set_queue_tun set_length_tun].
  rewrite idx_upd_eq by (eapply slot_in_range; eauto).
  rewrite fatal_errno_eq.
  destruct (is_fatal r); [reflexivity |].
  cbv beta. cbn [mem set_mem length_tun set_length_tun].
  rewrite idx_upd_eq by (eapply slot_in_range; eauto).
  reflexivity.
Qed.

Lemma enqueue_sock_body_eq (ptr : Z) (r : io_result) (w : world) :
  0 <= ptr < QUEUE_SIZE -> arrays_ok (mem w) ->
  enqueue_sock_body ptr r w =
  if is_fatal r then
    Exits EXIT_FAILURE
      (log_events [EvLog "Recvfrom error"] (enqueue_sock_pass ptr r w))
  else Returns (io_ret r <=? 0) (enqueue_sock_pass ptr r w).
Proof.
  intros Hp (_ & _ & _ & Hl & _). unfold enqueue_sock_body. run_m.
  cbn [write_buf length_sock set_queue_sock set_length_sock set_client_addr].
  rewrite idx_upd_eq by (eapply slot_in_range; eauto).
  rewrite fatal_errno_eq.
  destruct (is_fatal r); [reflexivity |].
  cbv beta. cbn [mem set_mem length_sock set_length_sock set_client_addr].
  rewrite idx_upd_eq by (eapply slot_in_range; eauto).
  reflexivity.
Qed.

Lemma arrays_ok_enqueue_tun_pass (ptr : Z) (r : io_result) (w : world) :
  arrays_ok (mem w) -> arrays_ok (mem (enqueue_tun_pass ptr r w)).
Proof.
  unfold arrays_ok. intros (H1 & H2 & H3 & H4 & H5).
  cbn. rewrite !length_upd. auto.
Qed.

Lemma arrays_ok_enqueue_sock_pass (ptr : Z) (r : io_result) (w : world) :
  arrays_ok (mem w) -> arrays_ok (mem (enqueue_sock_pass ptr r w)).
Proof.
  unfold arrays_ok. intros (H1 & H2 & H3 & H4 & H5).
  cbn. rewrite !length_upd. auto.
Qed.

(** *** The four functions, case by case on the script *)

Lemma drop_tun_exits (pre : list io_result) (r : io_result)
    (post : list io_result) (w : world) :
  tunfd_in w = pre ++ r :: post -> Forall transient pre -> fatal r ->
  drop_tun w =
  Exits EXIT_FAILURE
    (log_events [EvLog "Read error"]
       (passes set_tunfd_in drop_tun_pass (pre ++ [r]) post w)).
Proof.
  intros Hs Hpre Hr. unfold drop_tun, drop_tun_loop. rewrite Hs.
  apply (do_while_read_exits _ _ _ _ no_inv); try assumption; try exact I.
  - intros; apply drop_tun_body_eq.
  - intros; exact I.
  - intros; exact I.
Qed.

Lemma drop_tun_returns (pre : list io_result) (r : io_result)
    (post : list io_result) (w : world) :
  tunfd_in w = pre ++ r :: post -> Forall transient pre -> positive r ->
  drop_tun w =
  Returns tt (passes set_tunfd_in drop_tun_pass (pre ++ [r]) post w).
Proof.
  intros Hs Hpre Hr. unfold drop_tun, drop_tun_loop. rewrite Hs.
  apply (do_while_read_returns _ _ _ "Read error" no_inv);
    try assumption; try exact I.
  - intros; apply drop_tun_body_eq.
  - intros; exact I.
  - intros; exact I.
Qed.

Lemma drop_tun_blocks (w : world) :
  Forall transient (tunfd_in w) ->
  drop_tun w = Blocks (passes set_tunfd_in drop_tun_pass (tunfd_in w) [] w).
Proof.
  intros Hs. unfold drop_tun, drop_tun_loop.
  apply (do_while_read_blocks _ _ _ "Read error" no_inv);
    try assumption; try exact I.
  - intros; apply drop_tun_body_eq.
  - intros; exact I.
  - intros; exact I.
Qed.

Lemma drop_sock_exits (pre : list io_result) (r : io_result)
    (post : list io_result) (w : world) :
  sockfd_in w = pre ++ r :: post -> Forall transient pre -> fatal r ->
  drop_sock w =
  Exits EXIT_FAILURE
    (log_events [EvLog "Read error"]
       (passes set_sockfd_in drop_sock_pass (pre ++ [r]) post w)).
Proof.
  intros Hs Hpre Hr. unfold drop_sock, drop_sock_loop. rewrite Hs.
  apply (do_while_read_exits _ _ _ _ no_inv); try assumption; try exact I.
  - intros; apply drop_sock_body_eq.
  - intros; exact I.
  - intros; exact I.
Qed.

Lemma drop_sock_returns (pre : list io_result) (r : io_result)
    (post : list io_result) (w : world) :
  sockfd_in w = pre ++ r :: post -> Forall transient pre -> positive r ->
  drop_sock w =
  Returns tt (passes set_sockfd_in drop_sock_pass (pre ++ [r]) post w).
Proof.
  intros Hs Hpre Hr. unfold drop_sock, drop_sock_loop. rewrite Hs.
  apply (do_while_read_returns _ _ _ "Read error" no_inv);
    try assumption; try exact I.
  - intros; apply drop_sock_body_eq.
  - intros; exact I.
  - intros; exact I.
Qed.

Lemma drop_sock_blocks (w : world) :
  Forall transient (sockfd_in w) ->
  drop_sock w =
  Blocks (passes set_sockfd_in drop_sock_pass (sockfd_in w) [] w).
Proof.
  intros Hs. unfold drop_sock, drop_sock_loop.
  apply (do_while_read_blocks _ _ _ "Read error" no_inv);
    try assumption; try exact I.
  - intros; apply drop_sock_body_eq.
  - intros; exact I.
  - intros; exact I.
Qed.

(** A queue that is not full: the slot at the write cursor is reserved, the
    loop reads into it, and the condition is signalled. *)
Lemma enqueue_tun_not_full (w : world) :
  cursors_ok (mem w) ->
  freeptr_tun (mem w) <> curptr_tun (mem w) ->
  enqueue_tun w =
  (enqueue_tun_loop (freeptr_tun (mem w)) (tunfd_in w);;
   pthread_cond_signal cond_tunqueue) (after_reserve_tun w).
Proof.
  intros [[Hf _] _] H. unfold enqueue_tun. rewrite bind_eq.
  rewrite enqueue_tun_reserve_eq. apply Z.eqb_neq in H. rewrite H.
  rewrite rem_small by exact Hf. rewrite rem_is_mod by lia.
  reflexivity.
Qed.

Lemma enqueue_sock_not_full (w : world) :
  cursors_ok (mem w) ->
  freeptr_sock (mem w) <> curptr_sock (mem w) ->
  enqueue_sock w =
  (enqueue_sock_loop (freeptr_sock (mem w)) (sockfd_in w);;
   pthread_cond_signal cond_sockqueue) (after_reserve_sock w).
Proof.
  intros [_ [Hf _]] H. unfold enqueue_sock. rewrite bind_eq.
  rewrite enqueue_sock_reserve_eq. apply Z.eqb_neq in H. rewrite H.
  rewrite rem_small by exact Hf. rewrite rem_is_mod by lia.
  reflexivity.
Qed.

Lemma enqueue_tun_exits (pre : list io_result) (r : io_result)
    (post : list io_result) (w : world) :
  cursors_ok (mem w) -> arrays_ok (mem w) ->
  freeptr_tun (mem w) <> curptr_tun (mem w) ->
  tunfd_in w = pre ++ r :: post -> Forall transient pre -> fatal r ->
  enqueue_tun w =
  Exits EXIT_FAILURE
    (log_events [EvLog "Read error"]
       (passes set_tunfd_in (enqueue_tun_pass (freeptr_tun (mem w)))
          (pre ++ [r]) post (after_reserve_tun w))).
Proof.
  intros Hc Ha Hn Hs Hpre Hr. rewrite enqueue_tun_not_full by assumption.
  rewrite bind_eq, Hs. unfold enqueue_tun_loop.
  rewrite (do_while_read_exits _ _ (enqueue_tun_pass (freeptr_tun (mem w)))
             "Read error" arrays_inv); try assumption; try reflexivity.
  - intros; apply enqueue_tun_body_eq; [apply Hc | assumption].
  - intros; apply arrays_ok_enqueue_tun_pass; assumption.
  - intros ? ? H; exact H.
Qed.

Lemma enqueue_tun_returns (pre : list io_result) (r : io_result)
    (post : list io_result) (w : world) :
  cursors_ok (mem w) -> arrays_ok (mem w) ->
  freeptr_tun (mem w) <> curptr_tun (mem w) ->
  tunfd_in w = pre ++ r :: post -> Forall transient pre -> positive r ->
  enqueue_tun w =
  Returns tt
    (log_events [EvSignal cond_tunqueue]
       (passes set_tunfd_in (enqueue_tun_pass (freeptr_tun (mem w)))
          (pre ++ [r]) post (after_reserve_tun w))).
Proof.
  intros Hc Ha Hn Hs Hpre Hr. rewrite enqueue_tun_not_full by assumption.
  rewrite bind_eq, Hs. unfold enqueue_tun_loop.
  rewrite (do_while_read_returns _ _ (enqueue_tun_pass (freeptr_tun (mem w)))
             "Read error" arrays_inv); try assumption; try reflexivity.
  - intros; apply enqueue_tun_body_eq; [apply Hc | assumption].
  - intros; apply arrays_ok_enqueue_tun_pass; assumption.
  - intros ? ? H; exact H.
Qed.

Lemma enqueue_tun_blocks (w : world) :
  cursors_ok (mem w) -> arrays_ok (mem w) ->
  freeptr_tun (mem w) <> curptr_tun (mem w) ->
  Forall transient (tunfd_in w) ->
  enqueue_tun w =
  Blocks
    (passes set_tunfd_in (enqueue_tun_pass (freeptr_tun (mem w)))
       (tunfd_in w) [] (after_reserve_tun w)).
Proof.
  intros Hc Ha Hn Hs. rewrite enqueue_tun_not_full by assumption.
  rewrite bind_eq. unfold enqueue_tun_loop.
  rewrite (do_while_read_blocks _ _ (enqueue_tun_pass (freeptr_tun (mem w)))
             "Read error" arrays_inv); try assumption; try reflexivity.
  - intros; apply enqueue_tun_body_eq; [apply Hc | assumption].
  - intros; apply arrays_ok_enqueue_tun_pass; assumption.
  - intros ? ? H; exact H.
Qed.

Lemma enqueue_sock_exits (pre : list io_result) (r : io_result)
    (post : list io_result) (w : world) :
  cursors_ok (mem w) -> arrays_ok (mem w) ->
  freeptr_sock (mem w) <> curptr_sock (mem w) ->
  sockfd_in w = pre ++ r :: post -> Forall transient pre -> fatal r ->
  enqueue_sock w =
  Exits EXIT_FAILURE
    (log_events [EvLog "Recvfrom error"]
       (passes set_sockfd_in (enqueue_sock_pass (freeptr_sock (mem w)))
          (pre ++ [r]) post (after_reserve_sock w))).
Proof.
  intros Hc Ha Hn Hs Hpre Hr. rewrite enqueue_sock_not_full by assumption.
  rewrite bind_eq, Hs. unfold enqueue_sock_loop.
  rewrite (do_while_read_exits _ _ (enqueue_sock_pass (freeptr_sock (mem w)))
             "Recvfrom error" arrays_inv); try assumption; try reflexivity.
  - intros; apply enqueue_sock_body_eq; [apply Hc | assumption].
  - intros; apply arrays_ok_enqueue_sock_pass; assumption.
  - intros ? ? H; exact H.
Qed.

Lemma enqueue_sock_returns (pre : list io_result) (r : io_result)
    (post : list io_result) (w : world) :
  cursors_ok (mem w) -> arrays_ok (mem w) ->
  freeptr_sock (mem w) <> curptr_sock (mem w) ->
  sockfd_in w = pre ++ r :: post -> Forall transient pre -> positive r ->
  enqueue_sock w =
  Returns tt
    (log_events [EvSignal cond_sockqueue]
       (passes set_sockfd_in (enqueue_sock_pass (freeptr_sock (mem w)))
          (pre ++ [r]) post (after_reserve_sock w))).
Proof.
  intros Hc Ha Hn Hs Hpre Hr. rewrite enqueue_sock_not_full by assumption.
  rewrite bind_eq, Hs. unfold enqueue_sock_loop.
  rewrite (do_while_read_returns _ _
             (enqueue_sock_pass (freeptr_sock (mem w)))
             "Recvfrom error" arrays_inv); try assumption; try reflexivity.
  - intros; apply enqueue_sock_body_eq; [apply Hc | assumption].
  - intros; apply arrays_ok_enqueue_sock_pass; assumption.
  - intros ? ? H; exact H.
Qed.

Lemma enqueue_sock_blocks (w : world) :
  cursors_ok (mem w) -> arrays_ok (mem w) ->
  freeptr_sock (mem w) <> curptr_sock (mem w) ->
  Forall transient (sockfd_in w) ->
  enqueue_sock w =
  Blocks
    (passes set_sockfd_in (enqueue_sock_pass (freeptr_sock (mem w)))
       (sockfd_in w) [] (after_reserve_sock w)).
Proof.
  intros Hc Ha Hn Hs. rewrite enqueue_sock_not_full by assumption.
  rewrite bind_eq. unfold enqueue_sock_loop.
  rewrite (do_while_read_blocks _ _
             (enqueue_sock_pass (freeptr_sock (mem w)))
             "Recvfrom error" arrays_inv); try assumption; try reflexivity.
  - intros; apply enqueue_sock_body_eq; [apply Hc | assumption].
  - intros; apply arrays_ok_enqueue_sock_pass; assumption.
  - intros ? ? H; exact H.
Qed.

(** *** The contracts *)

Ltac loop_case lem script :=
  intros ? ? ? ? ? ?; eexists; split; [apply lem; eassumption |];
  split;
  [ cbn [log_events set_trace tunfd_in sockfd_in];
    apply (script_passes _ _ script); intros; reflexivity
  | cbn [log_events set_trace trace];
    erewrite trace_passes by (intros; reflexivity);
    cbn [after_reserve_tun after_reserve_sock log_events set_trace set_mem
         trace app];
    rewrite <- ?app_assoc; cbn [app]; rewrite ?app_nil_r; reflexivity ].

Lemma drop_tun_contract (w : world) :
  read_loop_contract drop_tun tunfd_in tunfd DummyTun "Read error" [] [] w.
Proof.
  apply read_loop_contract_intro; try reflexivity.
  - loop_case drop_tun_exits tunfd_in.
  - loop_case drop_tun_returns tunfd_in.
  - intros H. eexists. apply drop_tun_blocks, H.
Qed.

Lemma drop_sock_contract (w : world) :
  read_loop_contract drop_sock sockfd_in sockfd DummySock "Read error" [] []
    w.
Proof.
  apply read_loop_contract_intro; try reflexivity.
  - loop_case drop_sock_exits sockfd_in.
  - loop_case drop_sock_returns sockfd_in.
  - intros H. eexists. apply drop_sock_blocks, H.
Qed.

Lemma enqueue_tun_contract (w : world) :
  cursors_ok (mem w) -> arrays_ok (mem w) ->
  freeptr_tun (mem w) <> curptr_tun (mem w) ->
  read_loop_contract enqueue_tun tunfd_in tunfd
    (SlotTun (freeptr_tun (mem w))) "Read error"
    [EvLock lock_tunqueue; EvUnlock lock_tunqueue] [EvSignal cond_tunqueue] w.
Proof.
  intros Hc Ha Hn.
  apply read_loop_contract_intro; try reflexivity.
  - loop_case enqueue_tun_exits tunfd_in.
  - loop_case enqueue_tun_returns tunfd_in.
  - intros H. eexists. apply enqueue_tun_blocks; assumption.
Qed.

Lemma enqueue_sock_contract (w : world) :
  cursors_ok (mem w) -> arrays_ok (mem w) ->
  freeptr_sock (mem w) <> curptr_sock (mem w) ->
  read_loop_contract enqueue_sock sockfd_in sockfd
    (SlotSock (freeptr_sock (mem w))) "Recvfrom error"
    [EvLock lock_sockqueue; EvUnlock lock_sockqueue]
    [EvSignal cond_sockqueue] w.
Proof.
  intros Hc Ha Hn.
  apply read_loop_contract_intro; try reflexivity.
  - loop_case enqueue_sock_exits sockfd_in.
  - loop_case enqueue_sock_returns sockfd_in.
  - intros H. eexists. apply enqueue_sock_blocks; assumption.
Qed.

Lemma enqueue_tun_stored_length (pre : list io_result) (r : io_result)
    (post : list io_result) (ptr : Z) (w : world) :
  0 <= ptr < QUEUE_SIZE -> arrays_ok (mem w) ->
  idx (length_tun
         (mem (passes set_tunfd_in (enqueue_tun_pass ptr) (pre ++ [r]) post
                 w))) ptr = io_ret r.
Proof.
  intros Hp Ha. rewrite passes_snoc.
  cbn [enqueue_tun_pass after_read mem set_mem length_tun set_length_tun
       write_buf set_queue_tun log_events set_errno set_trace set_tunfd_in].
  apply idx_upd_eq.
  assert (Hi : arrays_inv (passes set_tunfd_in (enqueue_tun_pass ptr) pre
                             (r :: post) w)).
  { apply inv_passes; [| |exact Ha].
    - intros; apply arrays_ok_enqueue_tun_pass; assumption.
    - intros ? ? H; exact H. }
  destruct Hi as (_ & _ & Hl & _). eapply slot_in_range; eauto.
Qed.

Lemma enqueue_sock_stored_length (pre : list io_result) (r : io_result)
    (post : list io_result) (ptr : Z) (w : world) :
  0 <= ptr < QUEUE_SIZE -> arrays_ok (mem w) ->
  idx (length_sock
         (mem (passes set_sockfd_in (enqueue_sock_pass ptr) (pre ++ [r]) post
                 w))) ptr = io_ret r.
Proof.
  intros Hp Ha. rewrite passes_snoc.
  cbn [enqueue_sock_pass after_recvfrom after_read mem set_mem length_sock
       set_length_sock set_client_addr write_buf set_queue_sock log_events
       set_errno set_trace set_sockfd_in].
  apply idx_upd_eq.
  assert (Hi : arrays_inv (passes set_sockfd_in (enqueue_sock_pass ptr) pre
                             (r :: post) w)).
  { apply inv_passes; [| |exact Ha].
    - intros; apply arrays_ok_enqueue_sock_pass; assumption.
    - intros ? ? H; exact H. }
  destruct Hi as (_ & _ & _ & Hl & _). eapply slot_in_range; eauto.
Qed.

(** C8: in [drop_tun], [drop_sock], and in [enqueue_tun] and [enqueue_sock]
    on a queue that is not full, the read loop ends the process exactly when
    a read comes back with -1 and an [errno] other than [EAGAIN] and
    [EINTR] (the results before it being zero or transient errors); it then
    exits with [EXIT_FAILURE] after logging one message, which is the last
    event. Zero and transient results are answered by the same read again,
    and the call returns exactly when one comes back with a positive
    length; the length that [enqueue_tun] and [enqueue_sock] leave in the
    slot is then positive. *)
Theorem C8_read_loops (w : world)
    (Hc : cursors_ok (mem w)) (Ha : arrays_ok (mem w)) :
  read_loop_contract drop_tun tunfd_in tunfd DummyTun "Read error" [] [] w /\
  read_loop_contract drop_sock sockfd_in sockfd DummySock "Read error" [] []
    w /\
  (freeptr_tun (mem w) <> curptr_tun (mem w) ->
   read_loop_contract enqueue_tun tunfd_in tunfd
     (SlotTun (freeptr_tun (mem w))) "Read error"
     [EvLock lock_tunqueue; EvUnlock lock_tunqueue] [EvSignal cond_tunqueue]
     w /\
   forall w', enqueue_tun w = Returns tt w' ->
     0 < idx (length_tun (mem w')) (freeptr_tun (mem w))) /\
  (freeptr_sock (mem w) <> curptr_sock (mem w) ->
   read_loop_contract enqueue_sock sockfd_in sockfd
     (SlotSock (freeptr_sock (mem w))) "Recvfrom error"
     [EvLock lock_sockqueue; EvUnlock lock_sockqueue]
     [EvSignal cond_sockqueue] w /\
   forall w', enqueue_sock w = Returns tt w' ->
     0 < idx (length_sock (mem w')) (freeptr_sock (mem w))).
Proof.
  split; [apply drop_tun_contract |].
  split; [apply drop_sock_contract |].
  split.
  - intros Hn.
    pose proof (enqueue_tun_contract w Hc Ha Hn) as K.
    split; [exact K |].
    intros w' H.
    destruct K as (_ & _ & _ & K & _).
    destruct (K w' H) as (pre & r & post & Hs & Hpre & Hr & _).
    rewrite (enqueue_tun_returns pre r post) in H by assumption.
    injection H as <-.
    cbn [log_events set_trace mem].
    rewrite enqueue_tun_stored_length; [exact Hr | apply Hc |].
    exact Ha.
  - intros Hn.
    pose proof (enqueue_sock_contract w Hc Ha Hn) as K.
    split; [exact K |].
    intros w' H.
    destruct K as (_ & _ & _ & K & _).
    destruct (K w' H) as (pre & r & post & Hs & Hpre & Hr & _).
    rewrite (enqueue_sock_returns pre r post) in H by assumption.
    injection H as <-.
    cbn [log_events set_trace mem].
    rewrite enqueue_sock_stored_length; [exact Hr | apply Hc |].
    exact Ha.
Qed.

(** ** The overflow drain *)

Lemma drop_tun_loop_queues (rs : list io_result) (w : world) :
  queues (mem (outcome_world (drop_tun_loop rs w))) = queues (mem w).
Proof.
  unfold drop_tun_loop. revert w.
  induction rs as [|r rs IH]; intros w; [reflexivity |].
  rewrite (do_while_read_cons _ _ drop_tun_pass "Read error" no_inv);
    try exact I; try (intros; exact I);
    try (intros; apply drop_tun_body_eq).
  destruct (is_fatal r); [reflexivity |].
  destruct (io_ret r <=? 0); [|reflexivity].
  rewrite IH. reflexivity.
Qed.

Lemma drop_sock_loop_queues (rs : list io_result) (w : world) :
  queues (mem (outcome_world (drop_sock_loop rs w))) = queues (mem w).
Proof.
  unfold drop_sock_loop. revert w.
  induction rs as [|r rs IH]; intros w; [reflexivity |].
  rewrite (do_while_read_cons _ _ drop_sock_pass "Read error" no_inv);
    try exact I; try (intros; exact I);
    try (intros; apply drop_sock_body_eq).
  destruct (is_fatal r); [reflexivity |].
  destruct (io_ret r <=? 0); [|reflexivity].
  rewrite IH. reflexivity.
Qed.

(** C9: when [drop_tun] or [drop_sock] returns, the four cursors and every
    slot, recorded length and sender address of both queues are what they
    were before the call. *)
Theorem C9_drop_leaves_queues (w w' : world)
    (H : drop_tun w = Returns tt w' \/ drop_sock w = Returns tt w') :
  queues (mem w') = queues (mem w).
Proof.
  destruct H as [H | H].
  - pose proof (drop_tun_loop_queues (tunfd_in w) w) as K.
    unfold drop_tun in H. rewrite H in K. exact K.
  - pose proof (drop_sock_loop_queues (sockfd_in w) w) as K.
    unfold drop_sock in H. rewrite H in K. exact K.
Qed.

(** C10: on a full queue, [enqueue_tun] and [enqueue_sock] lock, unlock and
    return: nothing is read from the descriptor, the globals are untouched
    and the condition is not signalled. A unit of input is thrown away by
    [drop_tun] and [drop_sock] only, which when they return have taken the
    results up to the first positive one off the descriptor and have put
    nothing in the queues. *)
Theorem C10_enqueue_on_full_queue (w : world) :
  (freeptr_tun (mem w) = curptr_tun (mem w) ->
   enqueue_tun w =
     Returns tt
       (log_events [EvLock lock_tunqueue; EvUnlock lock_tunqueue] w)) /\
  (freeptr_sock (mem w) = curptr_sock (mem w) ->
   enqueue_sock w =
     Returns tt
       (log_events [EvLock lock_sockqueue; EvUnlock lock_sockqueue] w)) /\
  (forall w', drop_tun w = Returns tt w' ->
     queues (mem w') = queues (mem w) /\
     exists pre r,
       tunfd_in w = pre ++ r :: tunfd_in w' /\
       Forall transient pre /\ positive r) /\
  (forall w', drop_sock w = Returns tt w' ->
     queues (mem w') = queues (mem w) /\
     exists pre r,
       sockfd_in w = pre ++ r :: sockfd_in w' /\
       Forall transient pre /\ positive r).
Proof.
  split; [apply enqueue_tun_full |].
  split; [apply enqueue_sock_full |].
  split.
  - intros w' H. split.
    + pose proof (drop_tun_loop_queues (tunfd_in w) w) as K.
      unfold drop_tun in H. rewrite H in K. exact K.
    + destruct (drop_tun_contract w) as (_ & _ & _ & K & _).
      destruct (K w' H) as (pre & r & post & Hs & Hpre & Hr & Hp & _).
      exists pre, r. rewrite Hp. auto.
  - intros w' H. split.
    + pose proof (drop_sock_loop_queues (sockfd_in w) w) as K.
      unfold drop_sock in H. rewrite H in K. exact K.
    + destruct (drop_sock_contract w) as (_ & _ & _ & K & _).
      destruct (K w' H) as (pre & r & post & Hs & Hpre & Hr & Hp & _).
      exists pre, r. rewrite Hp. auto.
Qed.

(** ** Waiting for a queue to fill *)

Lemma while_empty_wait_eq (isempty : globals -> bool) (c : condvar)
    (m : mutex) (ws : list wait_result) (w : world) :
  while_empty_wait isempty c m ws w =
  if isempty (mem w) then
    match ws with
    | [] => Blocks w
    | r :: ws' =>
        if negb (wr_rc r =? 0) && negb (wr_rc r =? ETIMEDOUT) then
          Exits 1
            (log_events [EvLog "Conditional wait error"]
               (after_wait c m r ws' w))
        else while_empty_wait isempty c m ws' (after_wait c m r ws' w)
    end
  else Returns tt w.
Proof.
  destruct ws as [|r ws']; cbn [while_empty_wait];
    destruct (isempty (mem w)); try reflexivity.
  run_m.
  destruct (negb (wr_rc r =? 0) && negb (wr_rc r =? ETIMEDOUT));
    reflexivity.
Qed.

Lemma rc_ok_bools (r : wait_result) :
  negb (wr_rc r =? 0) && negb (wr_rc r =? ETIMEDOUT) = false <-> rc_ok r.
Proof.
  unfold rc_ok.
  rewrite andb_false_iff, !negb_false_iff, !Z.eqb_eq. reflexivity.
Qed.

Lemma woken_nonempty_after (isempty : globals -> bool)
    (waited : list wait_result) (s : globals) :
  woken_nonempty isempty waited s -> isempty (after_waits waited s) = false.
Proof.
  revert s. induction waited as [|r waited IH]; intros s H; [exact H |].
  destruct H as (_ & _ & H). apply IH, H.
Qed.

Lemma while_empty_wait_returns (isempty : globals -> bool) (c : condvar)
    (m : mutex) (waited rest : list wait_result) (w : world) :
  wait_in w = waited ++ rest ->
  woken_nonempty isempty waited (mem w) ->
  while_empty_wait isempty c m (waited ++ rest) w =
  Returns tt
    (mk_world (after_waits waited (mem w)) (errno w) (tunfd_in w)
       (sockfd_in w) rest (trace w ++ timed_waits c m waited)).
Proof.
  revert w. induction waited as [|r waited IH]; intros w Hw H.
  - cbn in H. rewrite while_empty_wait_eq, H.
    destruct w as [g e ti si wi tr]. cbn in *. subst wi.
    rewrite app_nil_r. reflexivity.
  - destruct H as (He & Hr & H).
    rewrite while_empty_wait_eq, He. cbn [app].
    apply rc_ok_bools in Hr. rewrite Hr.
    rewrite IH; [|reflexivity | exact H].
    cbn. rewrite <- app_assoc. reflexivity.
Qed.

Lemma while_empty_wait_returned (isempty : globals -> bool) (c : condvar)
    (m : mutex) (ws : list wait_result) (w w' : world) :
  wait_in w = ws ->
  while_empty_wait isempty c m ws w = Returns tt w' ->
  exists waited rest,
    ws = waited ++ rest /\
    woken_nonempty isempty waited (mem w) /\
    w' = mk_world (after_waits waited (mem w)) (errno w) (tunfd_in w)
           (sockfd_in w) rest (trace w ++ timed_waits c m waited).
Proof.
  revert w. induction ws as [|r ws IH]; intros w Hw H;
    rewrite while_empty_wait_eq in H;
    destruct (isempty (mem w)) eqn:He; try discriminate.
  - injection H as <-. exists [], [].
    split; [reflexivity | split; [exact He |]].
    destruct w as [g e ti si wi tr]. cbn in *. subst wi.
    rewrite app_nil_r. reflexivity.
  - destruct (negb (wr_rc r =? 0) && negb (wr_rc r =? ETIMEDOUT)) eqn:Hr;
      [discriminate |].
    apply IH in H; [|reflexivity].
    destruct H as (waited & rest & -> & Hwk & ->).
    exists (r :: waited), rest.
    split; [reflexivity |].
    split; [cbn; split; [exact He | split; [apply rc_ok_bools, Hr | exact Hwk]] |].
    cbn. rewrite <- app_assoc. reflexivity.
  - injection H as <-. exists [], (r :: ws).
    split; [reflexivity | split; [exact He |]].
    destruct w as [g e ti si wi tr]. cbn in *. subst wi.
    rewrite app_nil_r. reflexivity.
Qed.

Lemma block_on_tun_empty_eq (w : world) :
  block_on_tun_empty w =
  match
    while_empty_wait _queue_tun_isempty cond_tunqueue lock_tunqueue
      (wait_in w) (log_events [EvLock lock_tunqueue] w)
  with
  | Returns _ w' => Returns tt (log_events [EvUnlock lock_tunqueue] w')
  | Exits st w' => Exits st w'
  | Blocks w' => Blocks w'
  end.
Proof. reflexivity. Qed.

Lemma block_on_sock_empty_eq (w : world) :
  block_on_sock_empty w =
  match
    while_empty_wait _queue_sock_isempty cond_sockqueue lock_sockqueue
      (wait_in w) (log_events [EvLock lock_sockqueue] w)
  with
  | Returns _ w' => Returns tt (log_events [EvUnlock lock_sockqueue] w')
  | Exits st w' => Exits st w'
  | Blocks w' => Blocks w'
  end.
Proof. reflexivity. Qed.

(** What a block_on function does, from its loop. *)
Lemma block_on_returns_iff (isempty : globals -> bool) (c : condvar)
    (m : mutex) (call : M unit) (w w' : world) :
  call w =
    match while_empty_wait isempty c m (wait_in w) (log_events [EvLock m] w)
    with
    | Returns _ w1 => Returns tt (log_events [EvUnlock m] w1)
    | Exits st w1 => Exits st w1
    | Blocks w1 => Blocks w1
    end ->
  call w = Returns tt w' <->
  exists waited rest,
    wait_in w = waited ++ rest /\
    woken_nonempty isempty waited (mem w) /\
    w' = mk_world (after_waits waited (mem w)) (errno w) (tunfd_in w)
           (sockfd_in w) rest
           (trace w ++ [EvLock m] ++ timed_waits c m waited ++ [EvUnlock m]).
Proof.
  intros ->. split.
  - destruct (while_empty_wait isempty c m (wait_in w)
                (log_events [EvLock m] w)) as [[] w1| |] eqn:E;
      try discriminate.
    intros H. injection H as <-.
    apply while_empty_wait_returned in E; [|reflexivity].
    destruct E as (waited & rest & Hs & Hwk & ->).
    exists waited, rest. split; [exact Hs | split; [exact Hwk |]].
    unfold log_events. cbn. rewrite <- ?app_assoc. reflexivity.
  - intros (waited & rest & Hs & Hwk & ->).
    rewrite Hs.
    rewrite while_empty_wait_returns; [|exact Hs | exact Hwk].
    unfold log_events. cbn. rewrite <- ?app_assoc. reflexivity.
Qed.

(** C2, amended: [block_on_tun_empty] and [block_on_sock_empty] return
    exactly when, after some number of timed waits that each came back with
    0 or [ETIMEDOUT] and each found the queue empty before it, the test made
    with the mutex held finds the queue not empty; the deadline of every
    wait is one second after the clock reading taken before it. So the
    queue is not empty when they return, and the expiry of a timeout only
    leads to the test being made again. *)
Theorem C2_block_until_nonempty (w w' : world) :
  (block_on_tun_empty w = Returns tt w' <->
   exists waited rest,
     wait_in w = waited ++ rest /\
     woken_nonempty _queue_tun_isempty waited (mem w) /\
     w' = mk_world (after_waits waited (mem w)) (errno w) (tunfd_in w)
            (sockfd_in w) rest
            (trace w ++ [EvLock lock_tunqueue] ++
             timed_waits cond_tunqueue lock_tunqueue waited ++
             [EvUnlock lock_tunqueue])) /\
  (block_on_sock_empty w = Returns tt w' <->
   exists waited rest,
     wait_in w = waited ++ rest /\
     woken_nonempty _queue_sock_isempty waited (mem w) /\
     w' = mk_world (after_waits waited (mem w)) (errno w) (tunfd_in w)
            (sockfd_in w) rest
            (trace w ++ [EvLock lock_sockqueue] ++
             timed_waits cond_sockqueue lock_sockqueue waited ++
             [EvUnlock lock_sockqueue])) /\
  (block_on_tun_empty w = Returns tt w' ->
   _queue_tun_isempty (mem w') = false) /\
  (block_on_sock_empty w = Returns tt w' ->
   _queue_sock_isempty (mem w') = false).
Proof.
  pose proof (block_on_returns_iff _queue_tun_isempty cond_tunqueue
                lock_tunqueue block_on_tun_empty w w'
                (block_on_tun_empty_eq w)) as Kt.
  pose proof (block_on_returns_iff _queue_sock_isempty cond_sockqueue
                lock_sockqueue block_on_sock_empty w w'
                (block_on_sock_empty_eq w)) as Ks.
  split; [exact Kt |]. split; [exact Ks |]. split.
  - intros H. apply Kt in H. destruct H as (waited & rest & _ & Hwk & ->).
    cbn [mem]. apply woken_nonempty_after, Hwk.
  - intros H. apply Ks in H. destruct H as (waited & rest & _ & Hwk & ->).
    cbn [mem]. apply woken_nonempty_after, Hwk.
Qed.

(** * Further properties of queue.c *)

Ltac mod_lia :=
  unfold QUEUE_SIZE in *; Z.to_euclidean_division_equations; lia.

(** ** The cursors stay in range and the arrays keep their size *)

Lemma keeps_ok_same_mem {A : Type} (c : M A) :
  (forall w, mem (outcome_world (c w)) = mem w) -> keeps_ok c.
Proof. intros H w Hw. rewrite H. exact Hw. Qed.

Lemma globals_ok_set_freeptr_tun (v : Z) (s : globals) :
  0 <= v < QUEUE_SIZE -> globals_ok s -> globals_ok (set_freeptr_tun v s).
Proof.
  intros Hv [[[_ Hc] Hs] Ha]. split; [|exact Ha].
  split; [split; [exact Hv | exact Hc] | exact Hs].
Qed.

Lemma globals_ok_set_freeptr_sock (v : Z) (s : globals) :
  0 <= v < QUEUE_SIZE -> globals_ok s -> globals_ok (set_freeptr_sock v s).
Proof.
  intros Hv [[Ht [_ Hc]] Ha]. split; [|exact Ha].
  split; [exact Ht | split; [exact Hv | exact Hc]].
Qed.

Lemma globals_ok_set_curptr_tun (v : Z) (s : globals) :
  -1 <= v < QUEUE_SIZE -> globals_ok s -> globals_ok (set_curptr_tun v s).
Proof.
  intros Hv [[[Hf _] Hs] Ha]. split; [|exact Ha].
  split; [split; [exact Hf | exact Hv] | exact Hs].
Qed.

Lemma globals_ok_set_curptr_sock (v : Z) (s : globals) :
  -1 <= v < QUEUE_SIZE -> globals_ok s -> globals_ok (set_curptr_sock v s).
Proof.
  intros Hv [[Ht [Hf _]] Ha]. split; [|exact Ha].
  split; [exact Ht | split; [exact Hf | exact Hv]].
Qed.

Lemma globals_ok_enqueue_tun_pass (ptr : Z) (r : io_result) (w : world) :
  globals_ok (mem w) -> globals_ok (mem (enqueue_tun_pass ptr r w)).
Proof.
  intros [Hc Ha]. split; [exact Hc |].
  apply arrays_ok_enqueue_tun_pass, Ha.
Qed.

Lemma globals_ok_enqueue_sock_pass (ptr : Z) (r : io_result) (w : world) :
  globals_ok (mem w) -> globals_ok (mem (enqueue_sock_pass ptr r w)).
Proof.
  intros [Hc Ha]. split; [exact Hc |].
  apply arrays_ok_enqueue_sock_pass, Ha.
Qed.

Lemma globals_ok_passes_tun (ptr : Z) (pre rest : list io_result)
    (w : world) :
  globals_ok (mem w) ->
  globals_ok (mem (passes set_tunfd_in (enqueue_tun_pass ptr) pre rest w)).
Proof.
  apply (inv_passes set_tunfd_in (enqueue_tun_pass ptr)
           (fun w => globals_ok (mem w))).
  - intros; apply globals_ok_enqueue_tun_pass; assumption.
  - intros ? ? H; exact H.
Qed.

Lemma globals_ok_passes_sock (ptr : Z) (pre rest : list io_result)
    (w : world) :
  globals_ok (mem w) ->
  globals_ok (mem (passes set_sockfd_in (enqueue_sock_pass ptr) pre rest w)).
Proof.
  apply (inv_passes set_sockfd_in (enqueue_sock_pass ptr)
           (fun w => globals_ok (mem w))).
  - intros; apply globals_ok_enqueue_sock_pass; assumption.
  - intros ? ? H; exact H.
Qed.

Lemma globals_ok_after_reserve_tun (w : world) :
  globals_ok (mem w) -> globals_ok (mem (after_reserve_tun w)).
Proof.
  intros H. apply globals_ok_set_freeptr_tun; [mod_lia | exact H].
Qed.

Lemma globals_ok_after_reserve_sock (w : world) :
  globals_ok (mem w) -> globals_ok (mem (after_reserve_sock w)).
Proof.
  intros H. apply globals_ok_set_freeptr_sock; [mod_lia | exact H].
Qed.

Lemma keeps_ok_enqueue_tun : keeps_ok enqueue_tun.
Proof.
  intros w Hw. pose proof Hw as [Hc Ha].
  destruct (Z.eq_dec (freeptr_tun (mem w)) (curptr_tun (mem w))) as [E | N].
  { rewrite enqueue_tun_full by exact E. exact Hw. }
  pose proof (globals_ok_after_reserve_tun w Hw) as Hr.
  destruct (script_cases (tunfd_in w))
    as [All | (pre & r & post & Hs & Hpre & [Hf | Hp])].
  - rewrite enqueue_tun_blocks by assumption.
    apply globals_ok_passes_tun, Hr.
  - rewrite (enqueue_tun_exits pre r post) by assumption.
    apply globals_ok_passes_tun, Hr.
  - rewrite (enqueue_tun_returns pre r post) by assumption.
    apply globals_ok_passes_tun, Hr.
Qed.

Lemma keeps_ok_enqueue_sock : keeps_ok enqueue_sock.
Proof.
  intros w Hw. pose proof Hw as [Hc Ha].
  destruct (Z.eq_dec (freeptr_sock (mem w)) (curptr_sock (mem w)))
    as [E | N].
  { rewrite enqueue_sock_full by exact E. exact Hw. }
  pose proof (globals_ok_after_reserve_sock w Hw) as Hr.
  destruct (script_cases (sockfd_in w))
    as [All | (pre & r & post & Hs & Hpre & [Hf | Hp])].
  - rewrite enqueue_sock_blocks by assumption.
    apply globals_ok_passes_sock, Hr.
  - rewrite (enqueue_sock_exits pre r post) by assumption.
    apply globals_ok_passes_sock, Hr.
  - rewrite (enqueue_sock_returns pre r post) by assumption.
    apply globals_ok_passes_sock, Hr.
Qed.

Lemma globals_ok_queues (s s' : globals) :
  queues s' = queues s -> globals_ok s -> globals_ok s'.
Proof.
  unfold queues, globals_ok, cursors_ok, arrays_ok.
  intros H. injection H as -> -> -> -> -> -> -> -> ->. auto.
Qed.

Lemma keeps_ok_drop_tun : keeps_ok drop_tun.
Proof.
  intros w Hw. eapply globals_ok_queues; [|exact Hw].
  apply drop_tun_loop_queues.
Qed.

Lemma keeps_ok_drop_sock : keeps_ok drop_sock.
Proof.
  intros w Hw. eapply globals_ok_queues; [|exact Hw].
  apply drop_sock_loop_queues.
Qed.

Lemma dequeue_tun_eq (w : world) :
  dequeue_tun w =
  if _queue_tun_isempty (mem w) then
    Returns tt (log_events [EvLock lock_tunqueue; EvUnlock lock_tunqueue] w)
  else
    Returns tt
      (log_events
         [EvLock lock_tunqueue; EvUnlock lock_tunqueue;
          EvProcessTun
            (idx (queue_tun (mem w))
               (Z.rem (curptr_tun (mem w) + 1) QUEUE_SIZE))
            (idx (length_tun (mem w))
               (Z.rem (curptr_tun (mem w) + 1) QUEUE_SIZE))]
         (set_mem
            (set_curptr_tun (Z.rem (curptr_tun (mem w) + 1) QUEUE_SIZE)
               (mem w)) w)).
Proof.
  unfold dequeue_tun. rewrite bind_eq, dequeue_tun_claim_eq.
  destruct (_queue_tun_isempty (mem w)); [reflexivity |].
  unfold dequeue_tun_process. run_m. same_world.
Qed.

Lemma dequeue_sock_eq (w : world) :
  dequeue_sock w =
  if _queue_sock_isempty (mem w) then
    Returns tt (log_events [EvLock lock_sockqueue; EvUnlock lock_sockqueue] w)
  else
    Returns tt
      (log_events
         [EvLock lock_sockqueue; EvUnlock lock_sockqueue;
          EvProcessSock
            (idx (client_addr (mem w))
               (Z.rem (curptr_sock (mem w) + 1) QUEUE_SIZE))
            (idx (queue_sock (mem w))
               (Z.rem (curptr_sock (mem w) + 1) QUEUE_SIZE))
            (idx (length_sock (mem w))
               (Z.rem (curptr_sock (mem w) + 1) QUEUE_SIZE))]
         (set_mem
            (set_curptr_sock (Z.rem (curptr_sock (mem w) + 1) QUEUE_SIZE)
               (mem w)) w)).
Proof.
  unfold dequeue_sock. rewrite bind_eq, dequeue_sock_claim_eq.
  destruct (_queue_sock_isempty (mem w)); [reflexivity |].
  unfold dequeue_sock_process. run_m. same_world.
Qed.

Lemma next_cursor_in_range (c : Z) :
  -1 <= c < QUEUE_SIZE -> -1 <= Z.rem (c + 1) QUEUE_SIZE < QUEUE_SIZE.
Proof. intros H. rewrite rem_is_mod by lia. mod_lia. Qed.

Lemma keeps_ok_dequeue_tun : keeps_ok dequeue_tun.
Proof.
  intros w Hw. rewrite dequeue_tun_eq.
  destruct (_queue_tun_isempty (mem w)); [exact Hw |].
  apply globals_ok_set_curptr_tun; [|exact Hw].
  apply next_cursor_in_range, Hw.
Qed.

Lemma keeps_ok_dequeue_sock : keeps_ok dequeue_sock.
Proof.
  intros w Hw. rewrite dequeue_sock_eq.
  destruct (_queue_sock_isempty (mem w)); [exact Hw |].
  apply globals_ok_set_curptr_sock; [|exact Hw].
  apply next_cursor_in_range, Hw.
Qed.

Lemma while_empty_wait_keeps_ok (isempty : globals -> bool) (c : condvar)
    (m : mutex) (ws : list wait_result) (w : world) :
  waits_keep_ok ws -> globals_ok (mem w) ->
  globals_ok (mem (outcome_world (while_empty_wait isempty c m ws w))).
Proof.
  revert w. induction ws as [|r ws IH]; intros w Hws Hw;
    rewrite while_empty_wait_eq; destruct (isempty (mem w)); try exact Hw.
  inversion Hws as [|? ? Hr Hws']; subst.
  destruct (negb (wr_rc r =? 0) && negb (wr_rc r =? ETIMEDOUT)).
  - apply Hr, Hw.
  - apply IH; [exact Hws' | apply Hr, Hw].
Qed.

Lemma outcome_world_block_on (m : mutex) (o : outcome unit) :
  mem (outcome_world
         (match o with
          | Returns _ w' => Returns tt (log_events [EvUnlock m] w')
          | Exits st w' => Exits st w'
          | Blocks w' => Blocks w'
          end)) = mem (outcome_world o).
Proof. destruct o; reflexivity. Qed.

(** X1: the cursors stay in range (write cursors in 0..31, read cursors in
    -1..31) and the five arrays keep their 32 entries: this holds at program
    start and, if it holds before a call of any function of queue.c, it
    holds after it, whether the call returns, ends the process or stays in
    a blocking call; for the two block_on functions, provided the other
    threads keep it during the waits. *)
Theorem X1_invariant_kept :
  globals_ok init_globals /\
  keeps_ok queue_tun_isfull /\ keeps_ok queue_sock_isfull /\
  keeps_ok queue_tun_isempty /\ keeps_ok queue_sock_isempty /\
  keeps_ok enqueue_tun /\ keeps_ok enqueue_sock /\
  keeps_ok drop_tun /\ keeps_ok drop_sock /\
  keeps_ok dequeue_tun /\ keeps_ok dequeue_sock /\
  (forall w, waits_keep_ok (wait_in w) -> globals_ok (mem w) ->
     globals_ok (mem (outcome_world (block_on_tun_empty w))) /\
     globals_ok (mem (outcome_world (block_on_sock_empty w)))).
Proof.
  split.
  { split.
    - unfold init_globals, cursors_ok, QUEUE_SIZE. cbn. lia.
    - unfold init_globals, arrays_ok. cbn [queue_tun queue_sock length_tun
        length_sock client_addr]. rewrite !length_replicate. tauto. }
  split; [apply keeps_ok_same_mem; intros; rewrite queue_tun_isfull_eq;
          reflexivity |].
  split; [apply keeps_ok_same_mem; intros; rewrite queue_sock_isfull_eq;
          reflexivity |].
  split; [apply keeps_ok_same_mem; intros; rewrite queue_tun_isempty_eq;
          reflexivity |].
  split; [apply keeps_ok_same_mem; intros; rewrite queue_sock_isempty_eq;
          reflexivity |].
  split; [exact keeps_ok_enqueue_tun |].
  split; [exact keeps_ok_enqueue_sock |].
  split; [exact keeps_ok_drop_tun |].
  split; [exact keeps_ok_drop_sock |].
  split; [exact keeps_ok_dequeue_tun |].
  split; [exact keeps_ok_dequeue_sock |].
  intros w Hws Hw. split.
  - rewrite block_on_tun_empty_eq, outcome_world_block_on.
    apply while_empty_wait_keeps_ok; assumption.
  - rewrite block_on_sock_empty_eq, outcome_world_block_on.
    apply while_empty_wait_keeps_ok; assumption.
Qed.

(** ** The interleaved system, step by step *)

Lemma producer_step_call_eq (w : world) :
  producer_step PCall w =
  if freeptr_tun (mem w) =? curptr_tun (mem w) then
    Returns PCall
      (log_events [EvLock lock_tunqueue; EvUnlock lock_tunqueue] w)
  else
    Returns (PRead (Z.rem (freeptr_tun (mem w)) QUEUE_SIZE))
      (log_events [EvLock lock_tunqueue; EvUnlock lock_tunqueue]
         (set_mem
            (set_freeptr_tun (Z.rem (freeptr_tun (mem w) + 1) QUEUE_SIZE)
               (mem w)) w)).
Proof.
  cbn [producer_step]. rewrite bind_eq, enqueue_tun_reserve_eq.
  destruct (freeptr_tun (mem w) =? curptr_tun (mem w)); reflexivity.
Qed.

Lemma producer_step_read_eq (ptr : Z) (r : io_result) (rs : list io_result)
    (w : world) :
  0 <= ptr < QUEUE_SIZE -> arrays_ok (mem w) -> tunfd_in w = r :: rs ->
  producer_step (PRead ptr) w =
  if is_fatal r then
    Exits EXIT_FAILURE
      (log_events [EvLog "Read error"]
         (enqueue_tun_pass ptr r (set_tunfd_in rs w)))
  else
    Returns (if io_ret r <=? 0 then PRead ptr else PSignal)
      (enqueue_tun_pass ptr r (set_tunfd_in rs w)).
Proof.
  intros Hp Ha Hs. cbn [producer_step]. rewrite Hs, bind_eq.
  rewrite enqueue_tun_body_eq by assumption.
  destruct (is_fatal r); reflexivity.
Qed.

Lemma consumer_step_block_eq (w : world) :
  consumer_step CBlock w =
  if _queue_tun_isempty (mem w) then
    Returns CWaiting (log_events [EvLock lock_tunqueue] w)
  else
    Returns CCall
      (log_events [EvLock lock_tunqueue; EvUnlock lock_tunqueue] w).
Proof.
  cbn [consumer_step]. unfold block_on_tun_empty_test. run_m.
  destruct (_queue_tun_isempty (mem w)); same_world.
Qed.

Lemma consumer_step_waiting_eq (r : wait_result) (ws : list wait_result)
    (w : world) :
  wait_in w = r :: ws ->
  consumer_step CWaiting w =
  if negb (wr_rc r =? 0) && negb (wr_rc r =? ETIMEDOUT) then
    Exits 1
      (log_events [EvLog "Conditional wait error"]
         (after_wait cond_tunqueue lock_tunqueue r ws w))
  else if _queue_tun_isempty (wr_others r (mem w)) then
    Returns CWaiting (after_wait cond_tunqueue lock_tunqueue r ws w)
  else
    Returns CCall
      (log_events [EvUnlock lock_tunqueue]
         (after_wait cond_tunqueue lock_tunqueue r ws w)).
Proof.
  intros Hs. cbn [consumer_step]. rewrite Hs.
  unfold block_on_tun_empty_test. run_m.
  destruct (negb (wr_rc r =? 0) && negb (wr_rc r =? ETIMEDOUT));
    [reflexivity |].
  cbv beta. cbn [mem set_mem].
  destruct (_queue_tun_isempty (wr_others r (mem w))); reflexivity.
Qed.

Lemma consumer_step_call_eq (w : world) :
  consumer_step CCall w =
  if _queue_tun_isempty (mem w) then
    Returns CBlock
      (log_events [EvLock lock_tunqueue; EvUnlock lock_tunqueue] w)
  else
    Returns (CProcess (Z.rem (curptr_tun (mem w) + 1) QUEUE_SIZE))
      (log_events [EvLock lock_tunqueue; EvUnlock lock_tunqueue]
         (set_mem
            (set_curptr_tun (Z.rem (curptr_tun (mem w) + 1) QUEUE_SIZE)
               (mem w)) w)).
Proof.
  cbn [consumer_step]. rewrite bind_eq, dequeue_tun_claim_eq.
  destruct (_queue_tun_isempty (mem w)); reflexivity.
Qed.

Lemma consumer_step_process_eq (ptr : Z) (w : world) :
  consumer_step (CProcess ptr) w =
  Returns CBlock
    (log_events
       [EvProcessTun (idx (queue_tun (mem w)) ptr)
          (idx (length_tun (mem w)) ptr)] w).
Proof. reflexivity. Qed.

Lemma step_keeps_ok (t : thread) (c c' : system) :
  system_ok c -> step t c = Running c' -> system_ok c'.
Proof.
  destruct c as [w pp cp]. intros (Hg & Hw & Hp & Hc) H.
  cbn [sys_world producer consumer] in *.
  destruct t; cbn [step sys_world producer consumer] in H.
  - destruct pp as [|ptr|].
    + rewrite producer_step_call_eq in H.
      destruct (freeptr_tun (mem w) =? curptr_tun (mem w));
        injection H as <-; cbn [sys_world producer consumer].
      * split; [exact Hg | split; [exact Hw | split; [|exact Hc]]].
        intros ? [=].
      * split.
        { apply globals_ok_set_freeptr_tun; [|exact Hg].
          destruct Hg as [[[Hf _] _] _]. rewrite rem_is_mod by lia.
          mod_lia. }
        split; [exact Hw | split; [|exact Hc]].
        intros ? [= <-]. destruct Hg as [[[Hf _] _] _].
        rewrite rem_small by exact Hf. exact Hf.
    + destruct (tunfd_in w) as [|r rs] eqn:Hs.
      * cbn [producer_step] in H. rewrite Hs in H. injection H as <-.
        split; [exact Hg | split; [exact Hw | split; [exact Hp | exact Hc]]].
      * rewrite (producer_step_read_eq ptr r rs) in H;
          [|apply Hp; reflexivity | apply Hg | exact Hs].
        destruct (is_fatal r); [discriminate |]. injection H as <-.
        cbn [sys_world producer consumer].
        split; [apply globals_ok_enqueue_tun_pass; exact Hg |].
        split; [exact Hw | split; [|exact Hc]].
        intros p Hp'. apply Hp.
        destruct (io_ret r <=? 0); [exact Hp' | discriminate].
    + cbn in H. injection H as <-. cbn [sys_world producer consumer].
      split; [exact Hg | split; [exact Hw | split; [|exact Hc]]].
      intros ? [=].
  - destruct cp as [| | |ptr].
    + rewrite consumer_step_block_eq in H.
      destruct (_queue_tun_isempty (mem w)); injection H as <-;
        cbn [sys_world producer consumer];
        (split; [exact Hg | split; [exact Hw | split; [exact Hp |]]]);
        intros ? [=].
    + destruct (wait_in w) as [|r ws] eqn:Hs.
      * cbn [consumer_step] in H. rewrite Hs in H. injection H as <-.
        split; [exact Hg | split; [|split; [exact Hp | exact Hc]]].
        cbn [sys_world]. rewrite Hs. exact Hw.
      * rewrite (consumer_step_waiting_eq r ws) in H by exact Hs.
        inversion Hw as [|? ? Hr Hws]; subst.
        destruct (negb (wr_rc r =? 0) && negb (wr_rc r =? ETIMEDOUT));
          [discriminate |].
        destruct (_queue_tun_isempty (wr_others r (mem w)));
          injection H as <-; cbn [sys_world producer consumer];
          (split; [apply Hr, Hg | split; [exact Hws | split; [exact Hp |]]]);
          intros ? [=].
    + rewrite consumer_step_call_eq in H.
      destruct (_queue_tun_isempty (mem w)); injection H as <-;
        cbn [sys_world producer consumer].
      * split; [exact Hg | split; [exact Hw | split; [exact Hp |]]].
        intros ? [=].
      * split.
        { apply globals_ok_set_curptr_tun; [|exact Hg].
          apply next_cursor_in_range, Hg. }
        split; [exact Hw | split; [exact Hp |]].
        intros ? [= <-]. destruct Hg as [[[_ Hcur] _] _].
        rewrite rem_is_mod by lia. mod_lia.
    + rewrite consumer_step_process_eq in H. injection H as <-.
      cbn [sys_world producer consumer].
      split; [exact Hg | split; [exact Hw | split; [exact Hp |]]].
      intros ? [=].
Qed.

(** X2: under every interleaving of the producer and the consumer of the
    tunnel queue, from a state in which the cursors are in range and the
    arrays have their 32 entries (the state at program start is one), the
    same holds after every step, and the slot index that the producer reads
    into and the one that the consumer hands to the callback are always in
    0..31. *)
Theorem X2_interleavings_stay_in_bounds (sched : list thread)
    (c c' : system) (Hc : system_ok c) (Hrun : run sched c = Running c') :
  system_ok c'.
Proof.
  revert c Hc Hrun. induction sched as [|t sched IH]; intros c Hc Hrun.
  - injection Hrun as <-. exact Hc.
  - cbn [run] in Hrun. destruct (step t c) as [c1|] eqn:E; [|discriminate].
    apply (IH c1); [|exact Hrun].
    apply (step_keeps_ok t c); assumption.
Qed.

(** ** The two pipelines do not touch each other *)

Lemma do_while_read_frame {X : Type} (proj : world -> X)
    (consume : list io_result -> world -> world)
    (body : io_result -> M bool) :
  (forall r w, proj (outcome_world (body r w)) = proj w) ->
  (forall rs w, proj (consume rs w) = proj w) ->
  forall rs w,
    proj (outcome_world (do_while_read consume body rs w)) = proj w.
Proof.
  intros Hb Hc rs. induction rs as [|r rs IH]; intros w; [reflexivity |].
  cbn [do_while_read]. rewrite bind_eq.
  pose proof (Hb r (consume rs w)) as K. rewrite Hc in K.
  destruct (body r (consume rs w)) as [again w1 | st w1 | w1];
    cbn [outcome_world] in K; [|exact K | exact K].
  destruct again; [rewrite IH; exact K | exact K].
Qed.

Lemma enqueue_tun_body_sock_side (ptr : Z) (r : io_result) (w : world) :
  sock_side (outcome_world (enqueue_tun_body ptr r w)) = sock_side w.
Proof.
  unfold enqueue_tun_body. run_m.
  match goal with |- context [if ?b then _ else _] => destruct b end;
    reflexivity.
Qed.

Lemma drop_tun_body_sock_side (r : io_result) (w : world) :
  sock_side (outcome_world (drop_tun_body r w)) = sock_side w.
Proof.
  unfold drop_tun_body. run_m.
  match goal with |- context [if ?b then _ else _] => destruct b end;
    reflexivity.
Qed.

Lemma enqueue_sock_body_tun_side (ptr : Z) (r : io_result) (w : world) :
  tun_side (outcome_world (enqueue_sock_body ptr r w)) = tun_side w.
Proof.
  unfold enqueue_sock_body. run_m.
  match goal with |- context [if ?b then _ else _] => destruct b end;
    reflexivity.
Qed.

Lemma drop_sock_body_tun_side (r : io_result) (w : world) :
  tun_side (outcome_world (drop_sock_body r w)) = tun_side w.
Proof.
  unfold drop_sock_body. run_m.
  match goal with |- context [if ?b then _ else _] => destruct b end;
    reflexivity.
Qed.

Lemma enqueue_tun_sock_side (w : world) :
  sock_side (outcome_world (enqueue_tun w)) = sock_side w.
Proof.
  unfold enqueue_tun. rewrite bind_eq, enqueue_tun_reserve_eq.
  destruct (freeptr_tun (mem w) =? curptr_tun (mem w)); [reflexivity |].
  rewrite bind_eq.
  match goal with
  | |- context [enqueue_tun_loop ?p ?rs ?w1] =>
      pose proof (do_while_read_frame sock_side set_tunfd_in
                    (enqueue_tun_body p) (enqueue_tun_body_sock_side p)
                    (fun _ _ => eq_refl) rs w1) as K;
      change (do_while_read set_tunfd_in (enqueue_tun_body p))
        with (enqueue_tun_loop p) in K;
      destruct (enqueue_tun_loop p rs w1)
  end; exact K.
Qed.

Lemma enqueue_sock_tun_side (w : world) :
  tun_side (outcome_world (enqueue_sock w)) = tun_side w.
Proof.
  unfold enqueue_sock. rewrite bind_eq, enqueue_sock_reserve_eq.
  destruct (freeptr_sock (mem w) =? curptr_sock (mem w)); [reflexivity |].
  rewrite bind_eq.
  match goal with
  | |- context [enqueue_sock_loop ?p ?rs ?w1] =>
      pose proof (do_while_read_frame tun_side set_sockfd_in
                    (enqueue_sock_body p) (enqueue_sock_body_tun_side p)
                    (fun _ _ => eq_refl) rs w1) as K;
      change (do_while_read set_sockfd_in (enqueue_sock_body p))
        with (enqueue_sock_loop p) in K;
      destruct (enqueue_sock_loop p rs w1)
  end; exact K.
Qed.

(** X3: no function of the tunnel pipeline changes anything of the socket
    pipeline (its slots, lengths, addresses, cursors, scratch buffer, or the
    input pending on the socket), and conversely, whatever the outcome of
    the call. *)
Theorem X3_pipelines_independent (w : world) :
  (sock_side (outcome_world (queue_tun_isfull w)) = sock_side w /\
   sock_side (outcome_world (queue_tun_isempty w)) = sock_side w /\
   sock_side (outcome_world (enqueue_tun w)) = sock_side w /\
   sock_side (outcome_world (drop_tun w)) = sock_side w /\
   sock_side (outcome_world (dequeue_tun w)) = sock_side w) /\
  (tun_side (outcome_world (queue_sock_isfull w)) = tun_side w /\
   tun_side (outcome_world (queue_sock_isempty w)) = tun_side w /\
   tun_side (outcome_world (enqueue_sock w)) = tun_side w /\
   tun_side (outcome_world (drop_sock w)) = tun_side w /\
   tun_side (outcome_world (dequeue_sock w)) = tun_side w).
Proof.
  split.
  - split; [rewrite queue_tun_isfull_eq; reflexivity |].
    split; [rewrite queue_tun_isempty_eq; reflexivity |].
    split; [apply enqueue_tun_sock_side |].
    split.
    + apply (do_while_read_frame sock_side set_tunfd_in drop_tun_body
               drop_tun_body_sock_side (fun _ _ => eq_refl)).
    + rewrite dequeue_tun_eq.
      destruct (_queue_tun_isempty (mem w)); reflexivity.
  - split; [rewrite queue_sock_isfull_eq; reflexivity |].
    split; [rewrite queue_sock_isempty_eq; reflexivity |].
    split; [apply enqueue_sock_tun_side |].
    split.
    + apply (do_while_read_frame tun_side set_sockfd_in drop_sock_body
               drop_sock_body_tun_side (fun _ _ => eq_refl)).
    + rewrite dequeue_sock_eq.
      destruct (_queue_sock_isempty (mem w)); reflexivity.
Qed.

(** ** How many units a queue holds *)

Lemma enqueue_tun_body_cursors (ptr : Z) (r : io_result) (w : world) :
  cursors_tun (outcome_world (enqueue_tun_body ptr r w)) = cursors_tun w.
Proof.
  unfold enqueue_tun_body. run_m.
  match goal with |- context [if ?b then _ else _] => destruct b end;
    reflexivity.
Qed.

Lemma enqueue_sock_body_cursors (ptr : Z) (r : io_result) (w : world) :
  cursors_sock (outcome_world (enqueue_sock_body ptr r w)) = cursors_sock w.
Proof.
  unfold enqueue_sock_body. run_m.
  match goal with |- context [if ?b then _ else _] => destruct b end;
    reflexivity.
Qed.

Lemma enqueue_tun_cursors (w : world) :
  cursors_tun (outcome_world (enqueue_tun w)) =
  if freeptr_tun (mem w) =? curptr_tun (mem w) then cursors_tun w
  else (Z.rem (freeptr_tun (mem w) + 1) QUEUE_SIZE, curptr_tun (mem w)).
Proof.
  unfold enqueue_tun. rewrite bind_eq, enqueue_tun_reserve_eq.
  destruct (freeptr_tun (mem w) =? curptr_tun (mem w)); [reflexivity |].
  rewrite bind_eq.
  match goal with
  | |- context [enqueue_tun_loop ?p ?rs ?w1] =>
      pose proof (do_while_read_frame cursors_tun set_tunfd_in
                    (enqueue_tun_body p) (enqueue_tun_body_cursors p)
                    (fun _ _ => eq_refl) rs w1) as K;
      change (do_while_read set_tunfd_in (enqueue_tun_body p))
        with (enqueue_tun_loop p) in K;
      destruct (enqueue_tun_loop p rs w1)
  end; exact K.
Qed.

Lemma enqueue_sock_cursors (w : world) :
  cursors_sock (outcome_world (enqueue_sock w)) =
  if freeptr_sock (mem w) =? curptr_sock (mem w) then cursors_sock w
  else (Z.rem (freeptr_sock (mem w) + 1) QUEUE_SIZE, curptr_sock (mem w)).
Proof.
  unfold enqueue_sock. rewrite bind_eq, enqueue_sock_reserve_eq.
  destruct (freeptr_sock (mem w) =? curptr_sock (mem w)); [reflexivity |].
  rewrite bind_eq.
  match goal with
  | |- context [enqueue_sock_loop ?p ?rs ?w1] =>
      pose proof (do_while_read_frame cursors_sock set_sockfd_in
                    (enqueue_sock_body p) (enqueue_sock_body_cursors p)
                    (fun _ _ => eq_refl) rs w1) as K;
      change (do_while_read set_sockfd_in (enqueue_sock_body p))
        with (enqueue_sock_loop p) in K;
      destruct (enqueue_sock_loop p rs w1)
  end; exact K.
Qed.

Lemma dequeue_tun_cursors (w : world) :
  cursors_tun (outcome_world (dequeue_tun w)) =
  if _queue_tun_isempty (mem w) then cursors_tun w
  else (freeptr_tun (mem w), Z.rem (curptr_tun (mem w) + 1) QUEUE_SIZE).
Proof.
  rewrite dequeue_tun_eq.
  destruct (_queue_tun_isempty (mem w)); reflexivity.
Qed.

Lemma dequeue_sock_cursors (w : world) :
  cursors_sock (outcome_world (dequeue_sock w)) =
  if _queue_sock_isempty (mem w) then cursors_sock w
  else (freeptr_sock (mem w), Z.rem (curptr_sock (mem w) + 1) QUEUE_SIZE).
Proof.
  rewrite dequeue_sock_eq.
  destruct (_queue_sock_isempty (mem w)); reflexivity.
Qed.

(** The arithmetic of the two cursors [f] and [c] once [c] is not -1. *)
Lemma occupancy_arith (f c : Z) :
  0 <= f < QUEUE_SIZE -> 0 <= c < QUEUE_SIZE ->
  let n := (f - c - 1) mod QUEUE_SIZE in
  0 <= n <= 31 /\
  (f = c <-> n = 31) /\
  ((c + 1) mod QUEUE_SIZE = f <-> n = 0) /\
  (f <> c -> ((f + 1) mod QUEUE_SIZE - c - 1) mod QUEUE_SIZE = n + 1) /\
  ((c + 1) mod QUEUE_SIZE <> f ->
   (f - (c + 1) mod QUEUE_SIZE - 1) mod QUEUE_SIZE = n - 1) /\
  0 <= (c + 1) mod QUEUE_SIZE.
Proof. intros Hf Hc n. subst n. repeat split; mod_lia. Qed.

(** X4: once the consumer has claimed a first unit (the read cursor is no
    longer -1), the number of slots between the cursors is between 0 and
    31; the queue tests full exactly when it is 31 and empty exactly when it
    is 0; a call of enqueue adds one to it unless the queue is full, and a
    call of dequeue takes one off it unless the queue is empty; and the read
    cursor never becomes -1 again. *)
Theorem X4_occupancy (w : world) (Hc : cursors_ok (mem w)) :
  (0 <= curptr_tun (mem w) ->
   0 <= stored_tun (mem w) <= 31 /\
   (freeptr_tun (mem w) = curptr_tun (mem w) <-> stored_tun (mem w) = 31) /\
   (_queue_tun_isempty (mem w) = true <-> stored_tun (mem w) = 0) /\
   stored_tun (mem (outcome_world (enqueue_tun w))) =
     (if freeptr_tun (mem w) =? curptr_tun (mem w) then stored_tun (mem w)
      else stored_tun (mem w) + 1) /\
   stored_tun (mem (outcome_world (dequeue_tun w))) =
     (if _queue_tun_isempty (mem w) then stored_tun (mem w)
      else stored_tun (mem w) - 1) /\
   0 <= curptr_tun (mem (outcome_world (enqueue_tun w))) /\
   0 <= curptr_tun (mem (outcome_world (dequeue_tun w)))) /\
  (0 <= curptr_sock (mem w) ->
   0 <= stored_sock (mem w) <= 31 /\
   (freeptr_sock (mem w) = curptr_sock (mem w) <->
    stored_sock (mem w) = 31) /\
   (_queue_sock_isempty (mem w) = true <-> stored_sock (mem w) = 0) /\
   stored_sock (mem (outcome_world (enqueue_sock w))) =
     (if freeptr_sock (mem w) =? curptr_sock (mem w)
      then stored_sock (mem w) else stored_sock (mem w) + 1) /\
   stored_sock (mem (outcome_world (dequeue_sock w))) =
     (if _queue_sock_isempty (mem w) then stored_sock (mem w)
      else stored_sock (mem w) - 1) /\
   0 <= curptr_sock (mem (outcome_world (enqueue_sock w))) /\
   0 <= curptr_sock (mem (outcome_world (dequeue_sock w)))).
Proof.
  destruct Hc as [[Hft Hct] [Hfs Hcs]]. split.
  - intros Hpos.
    destruct (occupancy_arith (freeptr_tun (mem w)) (curptr_tun (mem w)))
      as (A1 & A2 & A3 & A4 & A5 & A6); [exact Hft | lia |].
    pose proof (enqueue_tun_cursors w) as E.
    pose proof (dequeue_tun_cursors w) as D.
    unfold cursors_tun in E, D.
    pose proof (_queue_tun_isempty_true (mem w) ltac:(lia)) as Em.
    split; [exact A1 |]. split; [exact A2 |].
    split; [rewrite Em; exact A3 |].
    destruct (freeptr_tun (mem w) =? curptr_tun (mem w)) eqn:F;
      destruct (_queue_tun_isempty (mem w)) eqn:G;
      injection E as E1 E2; injection D as D1 D2;
      unfold stored_tun; rewrite E1, E2, D1, D2;
      rewrite ?rem_is_mod by lia;
      try apply Z.eqb_neq in F;
      repeat split; try reflexivity; try lia;
      try (apply A4; exact F);
      try (apply A5; intros K; apply Em in K; discriminate).
  - intros Hpos.
    destruct (occupancy_arith (freeptr_sock (mem w)) (curptr_sock (mem w)))
      as (A1 & A2 & A3 & A4 & A5 & A6); [exact Hfs | lia |].
    pose proof (enqueue_sock_cursors w) as E.
    pose proof (dequeue_sock_cursors w) as D.
    unfold cursors_sock in E, D.
    pose proof (_queue_sock_isempty_true (mem w) ltac:(lia)) as Em.
    split; [exact A1 |]. split; [exact A2 |].
    split; [rewrite Em; exact A3 |].
    destruct (freeptr_sock (mem w) =? curptr_sock (mem w)) eqn:F;
      destruct (_queue_sock_isempty (mem w)) eqn:G;
      injection E as E1 E2; injection D as D1 D2;
      unfold stored_sock; rewrite E1, E2, D1, D2;
      rewrite ?rem_is_mod by lia;
      try apply Z.eqb_neq in F;
      repeat split; try reflexivity; try lia;
      try (apply A4; exact F);
      try (apply A5; intros K; apply Em in K; discriminate).
Qed.

(** ** First in, first out *)

Lemma idx_upd_ne {A : Type} `{Inhabited A} (a : list A) (i j : Z) (v : A) :
  0 <= i -> 0 <= j -> i <> j -> idx (upd a i v) j = idx a j.
Proof.
  intros Hi Hj Hij. unfold idx, upd.
  apply list_lookup_total_insert_ne. lia.
Qed.

Lemma published_app (tr1 tr2 : list event) :
  published (tr1 ++ tr2) = published tr1 ++ published tr2.
Proof. apply omap_app. Qed.

Lemma claimed_app (tr1 tr2 : list event) :
  claimed (tr1 ++ tr2) = claimed tr1 ++ claimed tr2.
Proof. apply omap_app. Qed.

Lemma published_transient (ptr : Z) (pre : list io_result) :
  Forall transient pre ->
  published (map (EvRead tunfd (SlotTun ptr)) pre) = [].
Proof.
  induction 1 as [|r pre [Hr _] _ IH]; [reflexivity |].
  cbn [map]. change (?e :: ?l) with ([e] ++ l).
  rewrite published_app, IH, app_nil_r.
  destruct r as [d a | e]; [|reflexivity].
  cbn in Hr |- *. destruct (take MTU d); [reflexivity |].
  cbn in Hr. lia.
Qed.

Lemma published_positive (ptr : Z) (d : list byte) (a : sockaddr_in) :
  positive (IoData d a) ->
  published [EvRead tunfd (SlotTun ptr) (IoData d a)] = [take MTU d].
Proof.
  unfold positive. cbn. destruct (take MTU d); [cbn; lia | reflexivity].
Qed.

Lemma published_dummy (rs : list io_result) :
  published (map (EvRead tunfd DummyTun) rs) = [].
Proof. induction rs as [|r rs IH]; [reflexivity | exact IH]. Qed.

Lemma claimed_reads (f : fd) (dst : bufref) (rs : list io_result) :
  claimed (map (EvRead f dst) rs) = [].
Proof. induction rs as [|r rs IH]; [reflexivity | exact IH]. Qed.

Lemma positive_is_data (r : io_result) :
  positive r -> exists d a, r = IoData d a.
Proof.
  destruct r as [d a | e]; [eauto |]. unfold positive. cbn. lia.
Qed.

Lemma slots_from_ext (s s' : globals) (i : Z) (n : nat) :
  queue_tun s' = queue_tun s -> length_tun s' = length_tun s ->
  slots_from s' i n = slots_from s i n.
Proof.
  intros Hq Hl. revert i. induction n as [|n IH]; intros i; [reflexivity |].
  cbn [slots_from]. rewrite IH. unfold slot_tun. rewrite Hq, Hl.
  reflexivity.
Qed.

Lemma slots_from_snoc (s s' : globals) (n : nat) (i : Z) :
  0 <= i < QUEUE_SIZE ->
  (forall k : nat, (k < n)%nat ->
     slot_tun s' ((i + Z.of_nat k) mod QUEUE_SIZE) =
     slot_tun s ((i + Z.of_nat k) mod QUEUE_SIZE)) ->
  slots_from s' i (S n) =
  slots_from s i n ++ [slot_tun s' ((i + Z.of_nat n) mod QUEUE_SIZE)].
Proof.
  revert i. induction n as [|n IH]; intros i Hi Hk.
  - cbn [slots_from app].
    replace ((i + Z.of_nat 0) mod QUEUE_SIZE) with i by mod_lia. reflexivity.
  - change (slots_from s' i (S (S n)))
      with (slot_tun s' i :: slots_from s' ((i + 1) mod QUEUE_SIZE) (S n)).
    rewrite IH.
    + cbn [slots_from app].
      pose proof (Hk 0%nat ltac:(lia)) as H0.
      replace ((i + Z.of_nat 0) mod QUEUE_SIZE) with i in H0 by mod_lia.
      rewrite H0.
      replace (((i + 1) mod QUEUE_SIZE + Z.of_nat n) mod QUEUE_SIZE)
        with ((i + Z.of_nat (S n)) mod QUEUE_SIZE) by mod_lia.
      reflexivity.
    + mod_lia.
    + intros k Hlt.
      replace (((i + 1) mod QUEUE_SIZE + Z.of_nat k) mod QUEUE_SIZE)
        with ((i + Z.of_nat (S k)) mod QUEUE_SIZE) by mod_lia.
      apply Hk. lia.
Qed.

Lemma enqueue_tun_body_other_slot (ptr i : Z) (r : io_result) (w : world) :
  0 <= ptr -> 0 <= i -> i <> ptr ->
  slot_tun (mem (outcome_world (enqueue_tun_body ptr r w))) i =
  slot_tun (mem w) i.
Proof.
  intros Hp Hi Hn. unfold enqueue_tun_body. run_m.
  match goal with |- context [if ?b then _ else _] => destruct b end;
    cbn [outcome_world mem set_mem set_trace]; unfold slot_tun;
    cbn [write_buf queue_tun length_tun set_queue_tun set_length_tun];
    rewrite !idx_upd_ne by (assumption || congruence); reflexivity.
Qed.

Lemma enqueue_tun_other_slots (i : Z) (w : world) :
  cursors_ok (mem w) -> 0 <= i -> i <> freeptr_tun (mem w) ->
  slot_tun (mem (outcome_world (enqueue_tun w))) i = slot_tun (mem w) i.
Proof.
  intros [[Hf _] _] Hi Hn.
  unfold enqueue_tun. rewrite bind_eq, enqueue_tun_reserve_eq.
  destruct (freeptr_tun (mem w) =? curptr_tun (mem w)); [reflexivity |].
  rewrite rem_small by exact Hf. rewrite bind_eq.
  match goal with
  | |- context [enqueue_tun_loop ?p ?rs ?w1] =>
      pose proof (do_while_read_frame (fun W => slot_tun (mem W) i)
                    set_tunfd_in (enqueue_tun_body p)
                    (fun r W =>
                       enqueue_tun_body_other_slot p i r W
                         ltac:(lia) Hi Hn)
                    (fun _ _ => eq_refl) rs w1) as K;
      change (do_while_read set_tunfd_in (enqueue_tun_body p))
        with (enqueue_tun_loop p) in K;
      destruct (enqueue_tun_loop p rs w1)
  end; exact K.
Qed.

Lemma enqueue_tun_written_slot (w w' : world) :
  globals_ok (mem w) ->
  freeptr_tun (mem w) <> curptr_tun (mem w) ->
  enqueue_tun w = Returns tt w' ->
  exists pre d a,
    Forall transient pre /\ positive (IoData d a) /\
    unit_bytes (slot_tun (mem w') (freeptr_tun (mem w))) = take MTU d /\
    trace w' =
      trace w ++ [EvLock lock_tunqueue; EvUnlock lock_tunqueue] ++
      map (EvRead tunfd (SlotTun (freeptr_tun (mem w))))
        (pre ++ [IoData d a]) ++
      [EvSignal cond_tunqueue].
Proof.
  intros [Hc Ha] Hn H.
  destruct (enqueue_tun_contract w Hc Ha Hn) as (_ & _ & _ & K & _).
  destruct (K w' H) as (pre & r & post & Hs & Hpre & Hr & _ & Ht & _).
  destruct (positive_is_data r Hr) as (d & a & ->).
  exists pre, d, a.
  split; [exact Hpre |]. split; [exact Hr |]. split; [|exact Ht].
  rewrite (enqueue_tun_returns pre (IoData d a) post) in H by assumption.
  injection H as <-.
  cbn [log_events set_trace mem]. rewrite passes_snoc.
  assert (Hi : arrays_ok
                 (mem (passes set_tunfd_in
                         (enqueue_tun_pass (freeptr_tun (mem w))) pre
                         (IoData d a :: post) (after_reserve_tun w)))).
  { apply globals_ok_passes_tun, globals_ok_after_reserve_tun.
    split; assumption. }
  destruct Hi as (Hq & _ & Hl & _).
  unfold unit_bytes, slot_tun.
  cbn [enqueue_tun_pass after_read mem set_mem length_tun queue_tun
       set_length_tun write_buf set_queue_tun log_events set_errno set_trace
       set_tunfd_in fst snd].
  rewrite !idx_upd_eq
    by (eapply slot_in_range; [apply Hc | eassumption]).
  cbn [io_ret io_fill]. rewrite Nat2Z.id. apply take_app_length.
Qed.

Lemma enqueue_tun_fifo_step (w w' : world) :
  globals_ok (mem w) -> 0 <= curptr_tun (mem w) ->
  enqueue_tun w = Returns tt w' ->
  exists tr,
    trace w' = trace w ++ tr /\ claimed tr = [] /\
    units_in (mem w') = units_in (mem w) ++ published tr.
Proof.
  intros Hg Hpos H. pose proof Hg as [Hc Ha].
  pose proof Hc as [[Hf Hcur] _].
  destruct (Z.eq_dec (freeptr_tun (mem w)) (curptr_tun (mem w))) as [E | N].
  { rewrite enqueue_tun_full in H by exact E. injection H as <-.
    exists [EvLock lock_tunqueue; EvUnlock lock_tunqueue].
    split; [reflexivity | split; [reflexivity |]].
    change (units_in (mem w) = units_in (mem w) ++ []).
    symmetry. apply app_nil_r. }
  destruct (enqueue_tun_written_slot w w' Hg N H)
    as (pre & d & a & Hpre & Hr & Hb & Ht).
  eexists. split; [exact Ht |].
  split.
  { rewrite !claimed_app, claimed_reads. reflexivity. }
  rewrite !published_app, map_app, published_app.
  rewrite published_transient by exact Hpre.
  cbn [map]. rewrite published_positive by exact Hr.
  change (published [EvLock lock_tunqueue; EvUnlock lock_tunqueue])
    with (@nil (list byte)).
  change (published [EvSignal cond_tunqueue]) with (@nil (list byte)).
  cbn [app].
  pose proof (enqueue_tun_cursors w) as Cu. rewrite H in Cu.
  apply Z.eqb_neq in N. rewrite N in Cu. apply Z.eqb_neq in N.
  unfold cursors_tun in Cu. cbn [outcome_world] in Cu.
  injection Cu as Cf Cc. rewrite rem_is_mod in Cf by lia.
  destruct (occupancy_arith (freeptr_tun (mem w)) (curptr_tun (mem w)))
    as (A1 & _ & _ & A4 & _); [exact Hf | lia |].
  unfold units_in, contents_tun, stored_tun. rewrite Cf, Cc.
  rewrite (A4 N).
  replace (Z.to_nat ((freeptr_tun (mem w) - curptr_tun (mem w) - 1)
                       mod QUEUE_SIZE + 1))
    with (S (Z.to_nat ((freeptr_tun (mem w) - curptr_tun (mem w) - 1)
                         mod QUEUE_SIZE))) by lia.
  rewrite (slots_from_snoc (mem w) (mem w')).
  - rewrite map_app. cbn [map]. f_equal. f_equal.
    rewrite <- Hb. f_equal. f_equal. mod_lia.
  - mod_lia.
  - intros k Hk.
    pose proof (enqueue_tun_other_slots
                  ((((curptr_tun (mem w) + 1) mod QUEUE_SIZE)
                    + Z.of_nat k) mod QUEUE_SIZE) w Hc) as K.
    rewrite H in K. apply K; mod_lia.
Qed.

Lemma dequeue_tun_fifo_step (w w' : world) :
  globals_ok (mem w) -> 0 <= curptr_tun (mem w) ->
  dequeue_tun w = Returns tt w' ->
  exists tr,
    trace w' = trace w ++ tr /\ published tr = [] /\
    units_in (mem w) = claimed tr ++ units_in (mem w').
Proof.
  intros [Hc Ha] Hpos H. pose proof Hc as [[Hf Hcur] _].
  rewrite dequeue_tun_eq in H.
  destruct (_queue_tun_isempty (mem w)) eqn:E; injection H as <-.
  { exists [EvLock lock_tunqueue; EvUnlock lock_tunqueue].
    split; [reflexivity | split; reflexivity]. }
  eexists. split; [reflexivity |]. split; [reflexivity |].
  assert (NE : (curptr_tun (mem w) + 1) mod QUEUE_SIZE <> freeptr_tun (mem w)).
  { intros K. apply _queue_tun_isempty_true in K; [congruence | lia]. }
  destruct (occupancy_arith (freeptr_tun (mem w)) (curptr_tun (mem w)))
    as (A1 & _ & A3 & _ & A5 & _); [exact Hf | lia |].
  rewrite rem_is_mod by lia.
  unfold units_in, contents_tun, stored_tun.
  cbn [claimed omap log_events set_trace set_mem mem curptr_tun freeptr_tun
       set_curptr_tun app].
  rewrite (A5 NE).
  replace (Z.to_nat ((freeptr_tun (mem w) - curptr_tun (mem w) - 1)
                       mod QUEUE_SIZE))
    with (S (Z.to_nat ((freeptr_tun (mem w) - curptr_tun (mem w) - 1)
                         mod QUEUE_SIZE - 1)))
    by (assert ((freeptr_tun (mem w) - curptr_tun (mem w) - 1)
                  mod QUEUE_SIZE <> 0) by (intros K; apply A3 in K; auto);
        lia).
  cbn [slots_from map].
  rewrite (slots_from_ext (mem w)
             (set_curptr_tun ((curptr_tun (mem w) + 1) mod QUEUE_SIZE)
                (mem w))) by reflexivity.
  reflexivity.
Qed.

Lemma drop_tun_fifo_step (w w' : world) :
  drop_tun w = Returns tt w' ->
  exists tr,
    trace w' = trace w ++ tr /\ published tr = [] /\ claimed tr = [] /\
    units_in (mem w') = units_in (mem w) /\
    cursors_tun w' = cursors_tun w.
Proof.
  intros H.
  destruct (drop_tun_contract w) as (_ & _ & _ & K & _).
  destruct (K w' H) as (pre & r & post & _ & _ & _ & _ & Ht & _).
  pose proof (drop_tun_loop_queues (tunfd_in w) w) as Q.
  unfold drop_tun in H. rewrite H in Q. cbn [outcome_world] in Q.
  unfold queues in Q. injection Q as Q1 Q2 Q3 Q4 Q5 Q6 Q7 Q8 Q9.
  eexists. split; [exact Ht |].
  split; [cbn [app]; rewrite app_nil_r; apply published_dummy |].
  split; [cbn [app]; rewrite app_nil_r; apply claimed_reads |].
  split.
  - unfold units_in, contents_tun, stored_tun. rewrite Q6, Q7.
    rewrite (slots_from_ext (mem w) (mem w')) by assumption. reflexivity.
  - unfold cursors_tun. rewrite Q6, Q7. reflexivity.
Qed.

Lemma do_call_keeps (c : call) (w w1 : world) :
  globals_ok (mem w) -> 0 <= curptr_tun (mem w) ->
  do_call c w = Returns tt w1 ->
  globals_ok (mem w1) /\ 0 <= curptr_tun (mem w1).
Proof.
  intros Hg Hpos H. destruct c; cbn [do_call] in H.
  - split.
    + pose proof (keeps_ok_enqueue_tun w Hg) as K. rewrite H in K. exact K.
    + pose proof (enqueue_tun_cursors w) as K. rewrite H in K.
      unfold cursors_tun in K. cbn [outcome_world] in K.
      destruct (freeptr_tun (mem w) =? curptr_tun (mem w));
        injection K as _ ->; exact Hpos.
  - split.
    + pose proof (keeps_ok_drop_tun w Hg) as K. rewrite H in K. exact K.
    + destruct (drop_tun_fifo_step w w1 H) as (_ & _ & _ & _ & _ & K).
      unfold cursors_tun in K. injection K as _ ->. exact Hpos.
  - split.
    + pose proof (keeps_ok_dequeue_tun w Hg) as K. rewrite H in K. exact K.
    + pose proof (dequeue_tun_cursors w) as K. rewrite H in K.
      unfold cursors_tun in K. cbn [outcome_world] in K.
      destruct (_queue_tun_isempty (mem w)); injection K as _ ->;
        [exact Hpos |].
      rewrite rem_is_mod by lia. mod_lia.
Qed.

Lemma do_call_fifo_step (c : call) (w w1 : world) :
  globals_ok (mem w) -> 0 <= curptr_tun (mem w) ->
  do_call c w = Returns tt w1 ->
  exists tr,
    trace w1 = trace w ++ tr /\
    units_in (mem w) ++ published tr = claimed tr ++ units_in (mem w1).
Proof.
  intros Hg Hpos H. destruct c; cbn [do_call] in H.
  - destruct (enqueue_tun_fifo_step w w1 Hg Hpos H) as (tr & Ht & Hcl & Hu).
    exists tr. split; [exact Ht |]. rewrite Hcl, Hu. reflexivity.
  - destruct (drop_tun_fifo_step w w1 H) as (tr & Ht & Hp & Hcl & Hu & _).
    exists tr. split; [exact Ht |]. rewrite Hp, Hcl, Hu.
    apply app_nil_r.
  - destruct (dequeue_tun_fifo_step w w1 Hg Hpos H) as (tr & Ht & Hp & Hu).
    exists tr. split; [exact Ht |]. rewrite Hp, Hu. apply app_nil_r.
Qed.

(** X5: first in, first out, for calls that are not interleaved. Once the
    consumer has claimed a first unit (the read cursor is no longer -1),
    whatever sequence of [enqueue_tun], [drop_tun] and [dequeue_tun] calls
    is run to completion one after the other, the units that were stored
    at the start followed by the units published during the run are the
    units handed to [process_tun_packet] during the run followed by the
    units stored at the end; so the units are handed over in the order in
    which they were published, none twice and none skipped. *)
Theorem X5_fifo_of_complete_calls (cs : list call) (w w' : world)
    (Hg : globals_ok (mem w)) (Hpos : 0 <= curptr_tun (mem w))
    (H : do_calls cs w = Returns tt w') :
  exists tr,
    trace w' = trace w ++ tr /\
    units_in (mem w) ++ published tr = claimed tr ++ units_in (mem w') /\
    claimed tr `prefix_of` units_in (mem w) ++ published tr.
Proof.
  enough (K : exists tr,
             trace w' = trace w ++ tr /\
             units_in (mem w) ++ published tr =
             claimed tr ++ units_in (mem w')).
  { destruct K as (tr & Ht & Hu). exists tr.
    split; [exact Ht | split; [exact Hu |]].
    rewrite Hu. apply prefix_app_r. reflexivity. }
  revert w Hg Hpos H. induction cs as [|c cs IH]; intros w Hg Hpos H.
  - injection H as <-. exists [].
    split; [symmetry; apply app_nil_r |].
    cbn. apply app_nil_r.
  - cbn [do_calls] in H. rewrite bind_eq in H.
    destruct (do_call c w) as [[] w1 | |] eqn:E; try discriminate.
    destruct (do_call_keeps c w w1 Hg Hpos E) as [Hg1 Hpos1].
    destruct (do_call_fifo_step c w w1 Hg Hpos E) as (tr1 & Ht1 & Hu1).
    destruct (IH w1 Hg1 Hpos1 H) as (tr2 & Ht2 & Hu2).
    exists (tr1 ++ tr2).
    split; [rewrite Ht2, Ht1, app_assoc; reflexivity |].
    rewrite published_app, claimed_app.
    rewrite app_assoc, Hu1, <- app_assoc, Hu2, app_assoc. reflexivity.
Qed.

(** ** A unit goes in and comes out *)

Lemma passes_written_slot_tun (pre : list io_result) (d : list byte)
    (a : sockaddr_in) (post : list io_result) (ptr : Z) (w : world) :
  0 <= ptr < QUEUE_SIZE -> arrays_ok (mem w) ->
  exists old,
    slot_tun
      (mem (passes set_tunfd_in (enqueue_tun_pass ptr)
              (pre ++ [IoData d a]) post w)) ptr =
    (take MTU d ++ old, Z.of_nat (length (take MTU d))).
Proof.
  intros Hp Ha. rewrite passes_snoc.
  assert (Hi : arrays_inv (passes set_tunfd_in (enqueue_tun_pass ptr) pre
                             (IoData d a :: post) w)).
  { apply inv_passes; [| |exact Ha].
    - intros; apply arrays_ok_enqueue_tun_pass; assumption.
    - intros ? ? H; exact H. }
  destruct Hi as (Hq & _ & Hl & _).
  eexists. unfold slot_tun.
  cbn [enqueue_tun_pass after_read mem set_mem length_tun queue_tun
       set_length_tun write_buf set_queue_tun log_events set_errno set_trace
       set_tunfd_in].
  rewrite !idx_upd_eq by (eapply slot_in_range; eassumption).
  reflexivity.
Qed.

Lemma passes_written_slot_sock (pre : list io_result) (d : list byte)
    (a : sockaddr_in) (post : list io_result) (ptr : Z) (w : world) :
  0 <= ptr < QUEUE_SIZE -> arrays_ok (mem w) ->
  exists old,
    let s := mem (passes set_sockfd_in (enqueue_sock_pass ptr)
                    (pre ++ [IoData d a]) post w) in
    idx (queue_sock s) ptr = take MTU d ++ old /\
    idx (length_sock s) ptr = Z.of_nat (length (take MTU d)) /\
    idx (client_addr s) ptr = a.
Proof.
  intros Hp Ha. rewrite passes_snoc.
  assert (Hi : arrays_inv (passes set_sockfd_in (enqueue_sock_pass ptr) pre
                             (IoData d a :: post) w)).
  { apply inv_passes; [| |exact Ha].
    - intros; apply arrays_ok_enqueue_sock_pass; assumption.
    - intros ? ? H; exact H. }
  destruct Hi as (_ & Hq & _ & Hl & Hca).
  eexists.
  cbn [enqueue_sock_pass after_recvfrom after_read mem set_mem length_sock
       queue_sock client_addr set_length_sock set_client_addr write_buf
       set_queue_sock log_events set_errno set_trace set_sockfd_in].
  rewrite !idx_upd_eq by (eapply slot_in_range; eassumption).
  split; [reflexivity | split; reflexivity].
Qed.

(** X6: a unit goes in and comes out. On an empty queue (the state at
    program start included), if the descriptor gives zero or more transient
    results and then a unit [d] (from sender [a]), then enqueue followed by
    dequeue returns, the callback is called once, on a buffer that starts
    with the first [MTU] bytes of [d], with their number as length (and,
    for the socket queue, with the address [a]); the queue is empty again
    and just these results have been taken off the descriptor. *)
Theorem X6_round_trip (w : world) (pre : list io_result) (d : list byte)
    (a : sockaddr_in) (post : list io_result)
    (Hg : globals_ok (mem w)) (Hpre : Forall transient pre)
    (Hr : positive (IoData d a)) :
  (_queue_tun_isempty (mem w) = true ->
   tunfd_in w = pre ++ IoData d a :: post ->
   exists w' old,
     (enqueue_tun;; dequeue_tun) w = Returns tt w' /\
     trace w' =
       trace w ++ [EvLock lock_tunqueue; EvUnlock lock_tunqueue] ++
       map (EvRead tunfd (SlotTun (freeptr_tun (mem w))))
         (pre ++ [IoData d a]) ++
       [EvSignal cond_tunqueue; EvLock lock_tunqueue; EvUnlock lock_tunqueue;
        EvProcessTun (take MTU d ++ old) (Z.of_nat (length (take MTU d)))] /\
     _queue_tun_isempty (mem w') = true /\ tunfd_in w' = post) /\
  (_queue_sock_isempty (mem w) = true ->
   sockfd_in w = pre ++ IoData d a :: post ->
   exists w' old,
     (enqueue_sock;; dequeue_sock) w = Returns tt w' /\
     trace w' =
       trace w ++ [EvLock lock_sockqueue; EvUnlock lock_sockqueue] ++
       map (EvRead sockfd (SlotSock (freeptr_sock (mem w))))
         (pre ++ [IoData d a]) ++
       [EvSignal cond_sockqueue; EvLock lock_sockqueue;
        EvUnlock lock_sockqueue;
        EvProcessSock a (take MTU d ++ old)
          (Z.of_nat (length (take MTU d)))] /\
     _queue_sock_isempty (mem w') = true /\ sockfd_in w' = post).
Proof.
  pose proof Hg as [Hc Ha]. pose proof Hc as [[Hft Hct] [Hfs Hcs]].
  split.
  - intros He Hs.
    assert (Hm : (curptr_tun (mem w) + 1) mod QUEUE_SIZE = freeptr_tun (mem w))
      by (apply _queue_tun_isempty_true; [lia | exact He]).
    assert (N : freeptr_tun (mem w) <> curptr_tun (mem w)) by mod_lia.
    rewrite bind_eq.
    rewrite (enqueue_tun_returns pre (IoData d a) post) by assumption.
    set (w0 := passes set_tunfd_in (enqueue_tun_pass (freeptr_tun (mem w)))
                 (pre ++ [IoData d a]) post (after_reserve_tun w)).
    assert (Cu : cursors_tun w0 = cursors_tun (after_reserve_tun w)).
    { pose proof (enqueue_tun_cursors w) as K.
      rewrite (enqueue_tun_returns pre (IoData d a) post) in K
        by assumption.
      apply Z.eqb_neq in N. rewrite N in K.
      rewrite rem_is_mod in K by lia. exact K. }
    unfold cursors_tun in Cu. cbn [after_reserve_tun log_events set_trace
      set_mem mem freeptr_tun curptr_tun set_freeptr_tun] in Cu.
    injection Cu as Cf Cc.
    destruct (passes_written_slot_tun pre d a post (freeptr_tun (mem w))
                (after_reserve_tun w) Hft) as (old & Hslot).
    { apply globals_ok_after_reserve_tun, Hg. }
    fold w0 in Hslot. unfold slot_tun in Hslot. injection Hslot as Hq Hl.
    rewrite dequeue_tun_eq.
    cbn [log_events set_trace mem].
    assert (Ne : _queue_tun_isempty (mem w0) = false).
    { unfold _queue_tun_isempty. rewrite Cf, Cc, rem_is_mod by lia.
      apply Z.eqb_neq. mod_lia. }
    rewrite Ne, Cc, rem_is_mod, Hm, Hq, Hl by lia.
    eexists. exists old. split; [reflexivity |].
    split.
    { cbn [log_events set_trace set_mem trace]. unfold w0.
      erewrite trace_passes by (intros; reflexivity).
      cbn [after_reserve_tun log_events set_trace set_mem trace].
      rewrite <- !app_assoc. reflexivity. }
    split.
    { unfold _queue_tun_isempty.
      cbn [log_events set_trace set_mem mem curptr_tun freeptr_tun
           set_curptr_tun].
      rewrite Cf, rem_is_mod by lia. apply Z.eqb_eq. mod_lia. }
    cbn [log_events set_trace set_mem tunfd_in]. unfold w0.
    apply (script_passes _ _ tunfd_in); intros; reflexivity.
  - intros He Hs.
    assert (Hm : (curptr_sock (mem w) + 1) mod QUEUE_SIZE
                 = freeptr_sock (mem w))
      by (apply _queue_sock_isempty_true; [lia | exact He]).
    assert (N : freeptr_sock (mem w) <> curptr_sock (mem w)) by mod_lia.
    rewrite bind_eq.
    rewrite (enqueue_sock_returns pre (IoData d a) post) by assumption.
    set (w0 := passes set_sockfd_in
                 (enqueue_sock_pass (freeptr_sock (mem w)))
                 (pre ++ [IoData d a]) post (after_reserve_sock w)).
    assert (Cu : cursors_sock w0 = cursors_sock (after_reserve_sock w)).
    { pose proof (enqueue_sock_cursors w) as K.
      rewrite (enqueue_sock_returns pre (IoData d a) post) in K
        by assumption.
      apply Z.eqb_neq in N. rewrite N in K.
      rewrite rem_is_mod in K by lia. exact K. }
    unfold cursors_sock in Cu. cbn [after_reserve_sock log_events set_trace
      set_mem mem freeptr_sock curptr_sock set_freeptr_sock] in Cu.
    injection Cu as Cf Cc.
    destruct (passes_written_slot_sock pre d a post (freeptr_sock (mem w))
                (after_reserve_sock w) Hfs) as (old & Hq & Hl & Hca).
    { apply globals_ok_after_reserve_sock, Hg. }
    fold w0 in Hq, Hl, Hca.
    rewrite dequeue_sock_eq.
    cbn [log_events set_trace mem].
    assert (Ne : _queue_sock_isempty (mem w0) = false).
    { unfold _queue_sock_isempty. rewrite Cf, Cc, rem_is_mod by lia.
      apply Z.eqb_neq. mod_lia. }
    rewrite Ne, Cc, rem_is_mod, Hm, Hq, Hl, Hca by lia.
    eexists. exists old. split; [reflexivity |].
    split.
    { cbn [log_events set_trace set_mem trace]. unfold w0.
      erewrite trace_passes by (intros; reflexivity).
      cbn [after_reserve_sock log_events set_trace set_mem trace].
      rewrite <- !app_assoc. reflexivity. }
    split.
    { unfold _queue_sock_isempty.
      cbn [log_events set_trace set_mem mem curptr_sock freeptr_sock
           set_curptr_sock].
      rewrite Cf, rem_is_mod by lia. apply Z.eqb_eq. mod_lia. }
    cbn [log_events set_trace set_mem sockfd_in]. unfold w0.
    apply (script_passes _ _ sockfd_in); intros; reflexivity.
Qed.

(** ** A wait that fails *)

Lemma after_waits_snoc (waited : list wait_result) (r : wait_result)
    (s : globals) :
  after_waits (waited ++ [r]) s = wr_others r (after_waits waited s).
Proof. unfold after_waits. rewrite fold_left_app. reflexivity. Qed.

Lemma while_empty_wait_exits (isempty : globals -> bool) (c : condvar)
    (m : mutex) (waited : list wait_result) (r : wait_result)
    (rest : list wait_result) (w : world) :
  still_empty isempty waited (mem w) -> ~ rc_ok r ->
  while_empty_wait isempty c m (waited ++ r :: rest) w =
  Exits 1
    (mk_world (after_waits (waited ++ [r]) (mem w)) (errno w) (tunfd_in w)
       (sockfd_in w) rest
       (trace w ++ timed_waits c m (waited ++ [r]) ++
        [EvLog "Conditional wait error"])).
Proof.
  revert w. induction waited as [|r0 waited IH]; intros w H Hr.
  - cbn in H. cbn [app]. rewrite while_empty_wait_eq, H.
    destruct (negb (wr_rc r =? 0) && negb (wr_rc r =? ETIMEDOUT)) eqn:B.
    + unfold log_events. cbn. rewrite <- app_assoc. reflexivity.
    + apply rc_ok_bools in B. contradiction.
  - destruct H as (He & Hr0 & H).
    cbn [app]. rewrite while_empty_wait_eq, He.
    apply rc_ok_bools in Hr0. rewrite Hr0.
    rewrite IH; [|exact H | exact Hr].
    cbn. rewrite <- app_assoc. reflexivity.
Qed.

Lemma while_empty_wait_exited (isempty : globals -> bool) (c : condvar)
    (m : mutex) (ws : list wait_result) (w w' : world) (st : Z) :
  while_empty_wait isempty c m ws w = Exits st w' ->
  exists waited r rest,
    ws = waited ++ r :: rest /\
    still_empty isempty waited (mem w) /\ ~ rc_ok r.
Proof.
  revert w. induction ws as [|r ws IH]; intros w H;
    rewrite while_empty_wait_eq in H;
    destruct (isempty (mem w)) eqn:He; try discriminate.
  destruct (negb (wr_rc r =? 0) && negb (wr_rc r =? ETIMEDOUT)) eqn:B.
  - exists [], r, ws. split; [reflexivity | split; [exact He |]].
    intros K. apply rc_ok_bools in K. congruence.
  - apply IH in H. destruct H as (waited & r' & rest & -> & Hs & Hr).
    exists (r :: waited), r', rest.
    split; [reflexivity | split; [|exact Hr]].
    cbn. split; [exact He | split; [apply rc_ok_bools, B | exact Hs]].
Qed.

Lemma while_empty_wait_blocks (isempty : globals -> bool) (c : condvar)
    (m : mutex) (ws : list wait_result) (w : world) :
  (exists w', while_empty_wait isempty c m ws w = Blocks w') <->
  still_empty isempty ws (mem w).
Proof.
  revert w. induction ws as [|r ws IH]; intros w;
    rewrite while_empty_wait_eq; cbn [still_empty];
    destruct (isempty (mem w)) eqn:He.
  - split; [reflexivity | eauto].
  - split; [intros (w' & H); discriminate | discriminate].
  - destruct (negb (wr_rc r =? 0) && negb (wr_rc r =? ETIMEDOUT)) eqn:B.
    + split; [intros (w' & H); discriminate |].
      intros (_ & Hr & _). apply rc_ok_bools in Hr. congruence.
    + rewrite IH. cbn [after_wait log_events set_trace set_mem mem].
      split; [intros H; split; [reflexivity |
                                split; [apply rc_ok_bools, B | exact H]] |].
      intros (_ & _ & H). exact H.
  - split; [intros (w' & H); discriminate |].
    intros (K & _). discriminate.
Qed.

Lemma block_on_exits_iff (isempty : globals -> bool) (c : condvar)
    (m : mutex) (call : M unit) (w w' : world) (st : Z) :
  call w =
    match while_empty_wait isempty c m (wait_in w) (log_events [EvLock m] w)
    with
    | Returns _ w1 => Returns tt (log_events [EvUnlock m] w1)
    | Exits st w1 => Exits st w1
    | Blocks w1 => Blocks w1
    end ->
  call w = Exits st w' <->
  exists waited r rest,
    wait_in w = waited ++ r :: rest /\
    still_empty isempty waited (mem w) /\ ~ rc_ok r /\ st = 1 /\
    w' = mk_world (after_waits (waited ++ [r]) (mem w)) (errno w)
           (tunfd_in w) (sockfd_in w) rest
           (trace w ++ [EvLock m] ++ timed_waits c m (waited ++ [r]) ++
            [EvLog "Conditional wait error"]).
Proof.
  intros ->. split.
  - destruct (while_empty_wait isempty c m (wait_in w)
                (log_events [EvLock m] w)) as [[] w1| st1 w1 |] eqn:E;
      try discriminate.
    intros H. injection H as <- <-.
    pose proof E as E'.
    apply while_empty_wait_exited in E'.
    destruct E' as (waited & r & rest & Hs & Hst & Hr).
    exists waited, r, rest. split; [exact Hs |].
    split; [exact Hst | split; [exact Hr |]].
    rewrite Hs in E.
    rewrite while_empty_wait_exits in E by assumption.
    injection E as <- <-. split; [reflexivity |].
    unfold log_events. cbn. rewrite <- !app_assoc. reflexivity.
  - intros (waited & r & rest & Hs & Hst & Hr & -> & ->).
    rewrite Hs.
    rewrite while_empty_wait_exits by assumption.
    unfold log_events. cbn. rewrite <- !app_assoc. reflexivity.
Qed.

(** X7: [block_on_tun_empty] and [block_on_sock_empty] end the process
    exactly when, the queue having been empty at every test so far, a timed
    wait comes back with a code other than 0 and [ETIMEDOUT]; the exit
    status is then 1, the message "Conditional wait error" is the last
    event, and the mutex has not been unlocked. They stay in a wait exactly
    when the queue is empty at every test and no wait fails. *)
Theorem X7_wait_failure (w w' : world) (st : Z) :
  (block_on_tun_empty w = Exits st w' <->
   exists waited r rest,
     wait_in w = waited ++ r :: rest /\
     still_empty _queue_tun_isempty waited (mem w) /\ ~ rc_ok r /\
     st = 1 /\
     w' = mk_world (after_waits (waited ++ [r]) (mem w)) (errno w)
            (tunfd_in w) (sockfd_in w) rest
            (trace w ++ [EvLock lock_tunqueue] ++
             timed_waits cond_tunqueue lock_tunqueue (waited ++ [r]) ++
             [EvLog "Conditional wait error"])) /\
  (block_on_sock_empty w = Exits st w' <->
   exists waited r rest,
     wait_in w = waited ++ r :: rest /\
     still_empty _queue_sock_isempty waited (mem w) /\ ~ rc_ok r /\
     st = 1 /\
     w' = mk_world (after_waits (waited ++ [r]) (mem w)) (errno w)
            (tunfd_in w) (sockfd_in w) rest
            (trace w ++ [EvLock lock_sockqueue] ++
             timed_waits cond_sockqueue lock_sockqueue (waited ++ [r]) ++
             [EvLog "Conditional wait error"])) /\
  ((exists w1, block_on_tun_empty w = Blocks w1) <->
   still_empty _queue_tun_isempty (wait_in w) (mem w)) /\
  ((exists w1, block_on_sock_empty w = Blocks w1) <->
   still_empty _queue_sock_isempty (wait_in w) (mem w)).
Proof.
  split; [apply (block_on_exits_iff _ _ _ _ _ _ _ (block_on_tun_empty_eq w)) |].
  split; [apply (block_on_exits_iff _ _ _ _ _ _ _ (block_on_sock_empty_eq w))
         |].
  split.
  - rewrite block_on_tun_empty_eq.
    rewrite <- (while_empty_wait_blocks _queue_tun_isempty cond_tunqueue
                  lock_tunqueue (wait_in w)
                  (log_events [EvLock lock_tunqueue] w)).
    destruct (while_empty_wait _queue_tun_isempty cond_tunqueue
                lock_tunqueue (wait_in w)
                (log_events [EvLock lock_tunqueue] w));
      split; intros (w1 & H); try discriminate; eauto.
  - rewrite block_on_sock_empty_eq.
    rewrite <- (while_empty_wait_blocks _queue_sock_isempty cond_sockqueue
                  lock_sockqueue (wait_in w)
                  (log_events [EvLock lock_sockqueue] w)).
    destruct (while_empty_wait _queue_sock_isempty cond_sockqueue
                lock_sockqueue (wait_in w)
                (log_events [EvLock lock_sockqueue] w));
      split; intros (w1 & H); try discriminate; eauto.
Qed.

(** ** Each cursor has one writer *)

(** X8: in the interleaved system, a step of the producer never changes the
    read cursor, and changes no slot other than the one it has reserved and
    is reading into; a step of the consumer never changes the write cursor,
    any slot or any recorded length, and takes nothing off the
    descriptor. *)
Theorem X8_single_writer (t : thread) (c c' : system)
    (Hc : system_ok c) (Hq : waits_quiet (wait_in (sys_world c)))
    (Hstep : step t c = Running c') :
  match t with
  | Producer =>
      curptr_tun (mem (sys_world c')) = curptr_tun (mem (sys_world c)) /\
      forall i, 0 <= i -> producer c <> PRead i ->
        slot_tun (mem (sys_world c')) i = slot_tun (mem (sys_world c)) i
  | Consumer =>
      freeptr_tun (mem (sys_world c')) = freeptr_tun (mem (sys_world c)) /\
      (forall i, slot_tun (mem (sys_world c')) i =
                 slot_tun (mem (sys_world c)) i) /\
      tunfd_in (sys_world c') = tunfd_in (sys_world c)
  end.
Proof.
  destruct c as [w pp cp]. destruct Hc as (Hg & _ & Hp & _).
  cbn [sys_world producer consumer] in *.
  destruct t; cbn [step sys_world producer consumer] in Hstep.
  - destruct pp as [|ptr|].
    + rewrite producer_step_call_eq in Hstep.
      destruct (freeptr_tun (mem w) =? curptr_tun (mem w));
        injection Hstep as <-; split; reflexivity.
    + destruct (tunfd_in w) as [|r rs] eqn:Hs.
      * cbn [producer_step] in Hstep. rewrite Hs in Hstep.
        injection Hstep as <-. split; reflexivity.
      * pose proof (Hp ptr eq_refl) as Hptr.
        pose proof (enqueue_tun_body_cursors ptr r (set_tunfd_in rs w)) as K.
        pose proof (fun i Hi Hn =>
                      enqueue_tun_body_other_slot ptr i r (set_tunfd_in rs w)
                        (proj1 Hptr) Hi Hn) as S.
        cbn [producer_step] in Hstep. rewrite Hs, bind_eq in Hstep.
        destruct (enqueue_tun_body ptr r (set_tunfd_in rs w))
          as [again w1 | | w1]; try discriminate;
          injection Hstep as <-; cbn [sys_world outcome_world] in *;
          unfold cursors_tun in K; injection K as _ K;
          (split; [exact K |]);
          intros i Hi Hn; apply S; [exact Hi | congruence | exact Hi |
                                    congruence].
    + cbn in Hstep. injection Hstep as <-. split; reflexivity.
  - destruct cp as [| | |ptr].
    + rewrite consumer_step_block_eq in Hstep.
      destruct (_queue_tun_isempty (mem w)); injection Hstep as <-;
        split; [reflexivity | split; reflexivity | reflexivity |
                split; reflexivity].
    + destruct (wait_in w) as [|r ws] eqn:Hs.
      * cbn [consumer_step] in Hstep. rewrite Hs in Hstep.
        injection Hstep as <-. split; [reflexivity | split; reflexivity].
      * rewrite (consumer_step_waiting_eq r ws) in Hstep by exact Hs.
        inversion Hq as [|? ? Hr _]; subst.
        destruct (negb (wr_rc r =? 0) && negb (wr_rc r =? ETIMEDOUT));
          [discriminate |].
        destruct (_queue_tun_isempty (wr_others r (mem w)));
          injection Hstep as <-;
          cbn [sys_world after_wait log_events set_trace set_mem mem
               set_wait_in tunfd_in];
          rewrite Hr; split; [reflexivity | split; reflexivity | reflexivity |
                              split; reflexivity].
    + rewrite consumer_step_call_eq in Hstep.
      destruct (_queue_tun_isempty (mem w)); injection Hstep as <-;
        split; [reflexivity | split; reflexivity | reflexivity |
                split; reflexivity].
    + rewrite consumer_step_process_eq in Hstep. injection Hstep as <-.
      split; [reflexivity | split; reflexivity].
Qed.

(** ** No blocking call with a mutex held *)

Lemma lock_discipline_app (held : option mutex) (tr1 tr2 : list event) :
  lock_discipline held (tr1 ++ tr2) =
  match lock_discipline held tr1 with
  | Some held' => lock_discipline held' tr2
  | None => None
  end.
Proof.
  revert held. induction tr1 as [|e tr1 IH]; intros held; [reflexivity |].
  cbn [app lock_discipline].
  destruct e, held; try reflexivity; try apply IH;
    destruct (mutex_eqb _ _); try reflexivity; apply IH.
Qed.

Lemma do_while_read_discipline (consume : list io_result -> world -> world)
    (body : io_result -> M bool) :
  (forall r w, exists tr,
      trace (outcome_world (body r w)) = trace w ++ tr /\
      lock_discipline None tr = Some None) ->
  (forall rs w, trace (consume rs w) = trace w) ->
  forall rs w, exists tr,
    trace (outcome_world (do_while_read consume body rs w)) = trace w ++ tr /\
    lock_discipline None tr = Some None.
Proof.
  intros Hb Hc rs. induction rs as [|r rs IH]; intros w.
  - exists []. split; [symmetry; apply app_nil_r | reflexivity].
  - cbn [do_while_read]. rewrite bind_eq.
    destruct (Hb r (consume rs w)) as (tr1 & Ht1 & Hd1). rewrite Hc in Ht1.
    destruct (body r (consume rs w)) as [again w1 | st w1 | w1];
      cbn [outcome_world] in Ht1; try (exists tr1; split; assumption).
    destruct again; [|exists tr1; split; assumption].
    destruct (IH w1) as (tr2 & Ht2 & Hd2).
    exists (tr1 ++ tr2). split.
    + rewrite Ht2, Ht1, app_assoc. reflexivity.
    + rewrite lock_discipline_app, Hd1. exact Hd2.
Qed.

Ltac body_discipline :=
  intros; run_m;
  match goal with |- context [if ?b then _ else _] => destruct b end;
  eexists; (split; [cbn [outcome_world trace set_trace set_mem set_errno];
                    rewrite <- ?app_assoc; reflexivity | reflexivity]).

Lemma enqueue_tun_body_discipline (ptr : Z) (r : io_result) (w : world) :
  exists tr,
    trace (outcome_world (enqueue_tun_body ptr r w)) = trace w ++ tr /\
    lock_discipline None tr = Some None.
Proof. unfold enqueue_tun_body. body_discipline. Qed.

Lemma enqueue_sock_body_discipline (ptr : Z) (r : io_result) (w : world) :
  exists tr,
    trace (outcome_world (enqueue_sock_body ptr r w)) = trace w ++ tr /\
    lock_discipline None tr = Some None.
Proof. unfold enqueue_sock_body. body_discipline. Qed.

Lemma drop_tun_body_discipline (r : io_result) (w : world) :
  exists tr,
    trace (outcome_world (drop_tun_body r w)) = trace w ++ tr /\
    lock_discipline None tr = Some None.
Proof. unfold drop_tun_body. body_discipline. Qed.

Lemma drop_sock_body_discipline (r : io_result) (w : world) :
  exists tr,
    trace (outcome_world (drop_sock_body r w)) = trace w ++ tr /\
    lock_discipline None tr = Some None.
Proof. unfold drop_sock_body. body_discipline. Qed.

Lemma enqueue_tun_disciplined (w : world) : disciplined enqueue_tun w None.
Proof.
  unfold disciplined, enqueue_tun.
  rewrite bind_eq, enqueue_tun_reserve_eq.
  destruct (freeptr_tun (mem w) =? curptr_tun (mem w)).
  { eexists. split; reflexivity. }
  rewrite bind_eq.
  match goal with
  | |- context [enqueue_tun_loop ?p ?rs ?w1] =>
      destruct (do_while_read_discipline set_tunfd_in (enqueue_tun_body p)
                  (enqueue_tun_body_discipline p) (fun _ _ => eq_refl)
                  rs w1) as (tr & Ht & Hd);
      change (do_while_read set_tunfd_in (enqueue_tun_body p))
        with (enqueue_tun_loop p) in Ht;
      destruct (enqueue_tun_loop p rs w1) as [[] w2 | st w2 | w2]
  end; cbn [outcome_world] in Ht.
  - exists ([EvLock lock_tunqueue; EvUnlock lock_tunqueue] ++ tr ++
            [EvSignal cond_tunqueue]).
    split.
    + cbn [pthread_cond_signal emit outcome_world trace set_trace].
      rewrite Ht. cbn [log_events set_trace set_mem trace].
      rewrite <- !app_assoc. reflexivity.
    + cbn [app lock_discipline mutex_eqb].
      rewrite lock_discipline_app, Hd. reflexivity.
  - exists ([EvLock lock_tunqueue; EvUnlock lock_tunqueue] ++ tr).
    split.
    + cbn [outcome_world]. rewrite Ht.
      cbn [log_events set_trace set_mem trace].
      rewrite <- !app_assoc. reflexivity.
    + cbn [app lock_discipline mutex_eqb]. exact Hd.
  - exists ([EvLock lock_tunqueue; EvUnlock lock_tunqueue] ++ tr).
    split.
    + cbn [outcome_world]. rewrite Ht.
      cbn [log_events set_trace set_mem trace].
      rewrite <- !app_assoc. reflexivity.
    + cbn [app lock_discipline mutex_eqb]. exact Hd.
Qed.

Lemma enqueue_sock_disciplined (w : world) : disciplined enqueue_sock w None.
Proof.
  unfold disciplined, enqueue_sock.
  rewrite bind_eq, enqueue_sock_reserve_eq.
  destruct (freeptr_sock (mem w) =? curptr_sock (mem w)).
  { eexists. split; reflexivity. }
  rewrite bind_eq.
  match goal with
  | |- context [enqueue_sock_loop ?p ?rs ?w1] =>
      destruct (do_while_read_discipline set_sockfd_in (enqueue_sock_body p)
                  (enqueue_sock_body_discipline p) (fun _ _ => eq_refl)
                  rs w1) as (tr & Ht & Hd);
      change (do_while_read set_sockfd_in (enqueue_sock_body p))
        with (enqueue_sock_loop p) in Ht;
      destruct (enqueue_sock_loop p rs w1) as [[] w2 | st w2 | w2]
  end; cbn [outcome_world] in Ht.
  - exists ([EvLock lock_sockqueue; EvUnlock lock_sockqueue] ++ tr ++
            [EvSignal cond_sockqueue]).
    split.
    + cbn [pthread_cond_signal emit outcome_world trace set_trace].
      rewrite Ht. cbn [log_events set_trace set_mem trace].
      rewrite <- !app_assoc. reflexivity.
    + cbn [app lock_discipline mutex_eqb].
      rewrite lock_discipline_app, Hd. reflexivity.
  - exists ([EvLock lock_sockqueue; EvUnlock lock_sockqueue] ++ tr).
    split.
    + cbn [outcome_world]. rewrite Ht.
      cbn [log_events set_trace set_mem trace].
      rewrite <- !app_assoc. reflexivity.
    + cbn [app lock_discipline mutex_eqb]. exact Hd.
  - exists ([EvLock lock_sockqueue; EvUnlock lock_sockqueue] ++ tr).
    split.
    + cbn [outcome_world]. rewrite Ht.
      cbn [log_events set_trace set_mem trace].
      rewrite <- !app_assoc. reflexivity.
    + cbn [app lock_discipline mutex_eqb]. exact Hd.
Qed.

Lemma while_empty_wait_discipline (isempty : globals -> bool) (c : condvar)
    (m : mutex) (ws : list wait_result) (w : world) :
  exists tr,
    trace (outcome_world (while_empty_wait isempty c m ws w)) =
      trace w ++ tr /\
    lock_discipline (Some m) tr = Some (Some m).
Proof.
  assert (Hm : mutex_eqb m m = true) by (destruct m; reflexivity).
  revert w. induction ws as [|r ws IH]; intros w;
    rewrite while_empty_wait_eq; destruct (isempty (mem w));
    try (exists []; split; [symmetry; apply app_nil_r | reflexivity]).
  destruct (negb (wr_rc r =? 0) && negb (wr_rc r =? ETIMEDOUT)).
  - eexists. split.
    + cbn [outcome_world log_events after_wait set_trace set_mem set_wait_in
           trace]. rewrite <- app_assoc. reflexivity.
    + cbn [app lock_discipline]. rewrite Hm. reflexivity.
  - destruct (IH (after_wait c m r ws w)) as (tr & Ht & Hd).
    exists (EvTimedWait c m (deadline (wr_now r)) :: tr). split.
    + rewrite Ht.
      cbn [after_wait log_events set_trace set_mem set_wait_in trace].
      rewrite <- app_assoc. reflexivity.
    + cbn [lock_discipline]. rewrite Hm. exact Hd.
Qed.

Lemma while_empty_wait_blocked_trace (isempty : globals -> bool)
    (c : condvar) (m : mutex) (ws : list wait_result) (w w' : world) :
  while_empty_wait isempty c m ws w = Blocks w' ->
  trace w' = trace w ++ timed_waits c m ws.
Proof.
  revert w. induction ws as [|r ws IH]; intros w H;
    rewrite while_empty_wait_eq in H; destruct (isempty (mem w));
    try discriminate.
  - injection H as <-. symmetry. apply app_nil_r.
  - destruct (negb (wr_rc r =? 0) && negb (wr_rc r =? ETIMEDOUT));
      [discriminate |].
    apply IH in H. rewrite H.
    cbn [after_wait log_events set_trace set_mem set_wait_in trace
         timed_waits map].
    rewrite <- app_assoc. reflexivity.
Qed.

Lemma block_on_events (isempty : globals -> bool) (c : condvar)
    (m : mutex) (call : M unit) (w : world) :
  call w =
    match while_empty_wait isempty c m (wait_in w) (log_events [EvLock m] w)
    with
    | Returns _ w1 => Returns tt (log_events [EvUnlock m] w1)
    | Exits st w1 => Exits st w1
    | Blocks w1 => Blocks w1
    end ->
  match call w with
  | Returns _ w' =>
      exists tr,
        trace w' = trace w ++ tr /\ lock_discipline None tr = Some None
  | Exits _ w' =>
      exists tr,
        trace w' = trace w ++ tr /\ lock_discipline None tr = Some (Some m)
  | Blocks w' =>
      trace w' = trace w ++ EvLock m :: timed_waits c m (wait_in w)
  end.
Proof.
  assert (Hm : mutex_eqb m m = true) by (destruct m; reflexivity).
  intros E. rewrite E. clear E.
  destruct (while_empty_wait_discipline isempty c m (wait_in w)
              (log_events [EvLock m] w)) as (tr & Ht & Hd).
  destruct (while_empty_wait isempty c m (wait_in w)
              (log_events [EvLock m] w)) as [[] w1 | st w1 | w1] eqn:L;
    cbn [outcome_world] in Ht.
  - exists ([EvLock m] ++ tr ++ [EvUnlock m]). split.
    + cbn [log_events set_trace trace]. rewrite Ht.
      cbn [log_events set_trace trace]. rewrite <- !app_assoc. reflexivity.
    + cbn [app lock_discipline]. rewrite lock_discipline_app, Hd.
      cbn [lock_discipline]. rewrite Hm. reflexivity.
  - exists ([EvLock m] ++ tr). split.
    + rewrite Ht. cbn [log_events set_trace trace].
      rewrite <- !app_assoc. reflexivity.
    + cbn [app lock_discipline]. exact Hd.
  - apply while_empty_wait_blocked_trace in L. rewrite L.
    cbn [log_events set_trace trace]. rewrite <- app_assoc. reflexivity.
Qed.

(** X9: no function of queue.c reads from a descriptor, signals a condition
    or calls a processing callback while it holds a mutex; it locks a mutex
    only when it holds none and unlocks only the one it holds. Every call of
    the cursor tests, of enqueue, drop and dequeue leaves no mutex held,
    whether it returns, ends the process or stays in a read. The two
    block_on functions leave none held when they return, and have their
    mutex locked when they end the process on a failed wait. When they stay
    in a wait, all that they have done is to lock their mutex and to make
    one timed wait on their own condition and mutex for each result that
    came back; the wait that they are in, which has released the mutex, is
    not an event. *)
Theorem X9_lock_discipline (w : world) :
  disciplined queue_tun_isfull w None /\
  disciplined queue_sock_isfull w None /\
  disciplined queue_tun_isempty w None /\
  disciplined queue_sock_isempty w None /\
  disciplined enqueue_tun w None /\
  disciplined enqueue_sock w None /\
  disciplined drop_tun w None /\
  disciplined drop_sock w None /\
  disciplined dequeue_tun w None /\
  disciplined dequeue_sock w None /\
  match block_on_tun_empty w with
  | Returns _ w' =>
      exists tr,
        trace w' = trace w ++ tr /\ lock_discipline None tr = Some None
  | Exits _ w' =>
      exists tr,
        trace w' = trace w ++ tr /\
        lock_discipline None tr = Some (Some lock_tunqueue)
  | Blocks w' =>
      trace w' =
      trace w ++
      EvLock lock_tunqueue ::
      timed_waits cond_tunqueue lock_tunqueue (wait_in w)
  end /\
  match block_on_sock_empty w with
  | Returns _ w' =>
      exists tr,
        trace w' = trace w ++ tr /\ lock_discipline None tr = Some None
  | Exits _ w' =>
      exists tr,
        trace w' = trace w ++ tr /\
        lock_discipline None tr = Some (Some lock_sockqueue)
  | Blocks w' =>
      trace w' =
      trace w ++
      EvLock lock_sockqueue ::
      timed_waits cond_sockqueue lock_sockqueue (wait_in w)
  end.
Proof.
  split; [unfold disciplined; rewrite queue_tun_isfull_eq; eexists;
          split; reflexivity |].
  split; [unfold disciplined; rewrite queue_sock_isfull_eq; eexists;
          split; reflexivity |].
  split; [unfold disciplined; rewrite queue_tun_isempty_eq; eexists;
          split; reflexivity |].
  split; [unfold disciplined; rewrite queue_sock_isempty_eq; eexists;
          split; reflexivity |].
  split; [apply enqueue_tun_disciplined |].
  split; [apply enqueue_sock_disciplined |].
  split; [apply (do_while_read_discipline set_tunfd_in drop_tun_body
                   drop_tun_body_discipline (fun _ _ => eq_refl)) |].
  split; [apply (do_while_read_discipline set_sockfd_in drop_sock_body
                   drop_sock_body_discipline (fun _ _ => eq_refl)) |].
  split.
  { unfold disciplined. rewrite dequeue_tun_eq.
    destruct (_queue_tun_isempty (mem w)); eexists; split; reflexivity. }
  split.
  { unfold disciplined. rewrite dequeue_sock_eq.
    destruct (_queue_sock_isempty (mem w)); eexists; split; reflexivity. }
  split.
  - apply (block_on_events _queue_tun_isempty cond_tunqueue lock_tunqueue
             block_on_tun_empty w (block_on_tun_empty_eq w)).
  - apply (block_on_events _queue_sock_isempty cond_sockqueue lock_sockqueue
             block_on_sock_empty w (block_on_sock_empty_eq w)).
Qed.

(** ** A thread left alone runs the function *)

Lemma script_passes_all (consume : list io_result -> world -> world)
    (pass : io_result -> world -> world)
    (script : world -> list io_result) :
  (forall r w, script (pass r w) = script w) ->
  (forall rs w, script (consume rs w) = rs) ->
  forall pre rest w,
    script w = pre ++ rest ->
    script (passes consume pass pre rest w) = rest.
Proof.
  intros Hp Hc pre. induction pre as [|r pre IH]; intros rest w Hs;
    [exact Hs |].
  cbn [passes]. apply IH. rewrite Hp, Hc. reflexivity.
Qed.

Lemma run_app (s1 s2 : list thread) (c : system) :
  run (s1 ++ s2) c =
  match run s1 c with
  | Running c1 => run s2 c1
  | Exited st w => Exited st w
  end.
Proof.
  revert c. induction s1 as [|t s1 IH]; intros c; [reflexivity |].
  cbn [app run]. destruct (step t c); [apply IH | reflexivity].
Qed.

Lemma producer_transients (pre rest : list io_result) (ptr : Z) (w : world)
    (cp : consumer_pc) :
  Forall transient pre -> 0 <= ptr < QUEUE_SIZE -> arrays_ok (mem w) ->
  tunfd_in w = pre ++ rest ->
  run (replicate (length pre) Producer) (mk_system w (PRead ptr) cp) =
  Running
    (mk_system (passes set_tunfd_in (enqueue_tun_pass ptr) pre rest w)
       (PRead ptr) cp).
Proof.
  revert w. induction pre as [|p pre IH]; intros w Hpre Hp Ha Hs;
    [reflexivity |].
  inversion Hpre as [|? ? Hr Hpre']; subst.
  cbn [length replicate run step sys_world producer consumer passes].
  rewrite (producer_step_read_eq ptr p (pre ++ rest)) by assumption.
  destruct (transient_bools p Hr) as [-> ->].
  apply IH; [exact Hpre' | exact Hp | | reflexivity].
  apply arrays_ok_enqueue_tun_pass, Ha.
Qed.

Lemma consumer_waits (waited rest : list wait_result) (r : wait_result)
    (w : world) (pp : producer_pc) :
  wait_in w = r :: waited ++ rest -> rc_ok r ->
  woken_nonempty _queue_tun_isempty waited (wr_others r (mem w)) ->
  run (replicate (S (length waited)) Consumer) (mk_system w pp CWaiting) =
  Running
    (mk_system
       (mk_world (after_waits (r :: waited) (mem w)) (errno w) (tunfd_in w)
          (sockfd_in w) rest
          (trace w ++
           timed_waits cond_tunqueue lock_tunqueue (r :: waited) ++
           [EvUnlock lock_tunqueue]))
       pp CCall).
Proof.
  revert r w. induction waited as [|r2 waited IH]; intros r w Hs Hr Hw.
  - cbn [length replicate run step sys_world producer consumer].
    rewrite (consumer_step_waiting_eq r ([] ++ rest)) by exact Hs.
    apply rc_ok_bools in Hr. rewrite Hr. cbn in Hw. rewrite Hw.
    unfold log_events, after_wait. cbn. rewrite <- app_assoc. reflexivity.
  - change (replicate (S (length (r2 :: waited))) Consumer)
      with (Consumer :: replicate (S (length waited)) Consumer).
    cbn [run step sys_world producer consumer].
    rewrite (consumer_step_waiting_eq r ((r2 :: waited) ++ rest))
      by exact Hs.
    apply rc_ok_bools in Hr. rewrite Hr.
    destruct Hw as (He & Hr2 & Hw). rewrite He.
    rewrite (IH r2); [| reflexivity | exact Hr2 | exact Hw].
    unfold after_wait, log_events. cbn. rewrite <- app_assoc. reflexivity.
Qed.

(** X10: the pieces that the scheduler interleaves make up the functions.
    If [enqueue_tun] returns from a state that satisfies the invariants,
    then the producer, run alone from the start of a call, comes back to
    the start of a call with the same world; so does the consumer through
    [block_on_tun_empty] when it returns, and through [dequeue_tun], whose
    call always returns. *)
Theorem X10_thread_alone_runs_the_function (w : world)
    (Hg : globals_ok (mem w)) :
  (forall w' cp,
     enqueue_tun w = Returns tt w' ->
     exists n,
       run (replicate n Producer) (mk_system w PCall cp) =
       Running (mk_system w' PCall cp)) /\
  (forall w' pp,
     block_on_tun_empty w = Returns tt w' ->
     exists n,
       run (replicate n Consumer) (mk_system w pp CBlock) =
       Running (mk_system w' pp CCall)) /\
  (forall pp,
     exists n w',
       dequeue_tun w = Returns tt w' /\
       run (replicate n Consumer) (mk_system w pp CCall) =
       Running (mk_system w' pp CBlock)).
Proof.
  pose proof Hg as [Hc Ha]. pose proof Hc as [[Hf Hcur] _].
  split; [|split].
  - intros w' cp H.
    destruct (Z.eq_dec (freeptr_tun (mem w)) (curptr_tun (mem w)))
      as [E | N].
    { rewrite enqueue_tun_full in H by exact E. injection H as <-.
      exists 1%nat.
      cbn [replicate run step sys_world producer consumer].
      rewrite producer_step_call_eq.
      apply Z.eqb_eq in E. rewrite E. reflexivity. }
    destruct (enqueue_tun_contract w Hc Ha N) as (_ & _ & _ & K & _).
    destruct (K w' H) as (pre & r & post & Hs & Hpre & Hr & _).
    rewrite (enqueue_tun_returns pre r post) in H by assumption.
    injection H as <-.
    exists (1 + (length pre + 2))%nat.
    rewrite replicate_add, run_app.
    cbn [replicate run step sys_world producer consumer].
    rewrite producer_step_call_eq.
    apply Z.eqb_neq in N. rewrite N.
    rewrite (rem_small (freeptr_tun (mem w))) by exact Hf.
    rewrite rem_is_mod by lia.
    change (log_events [EvLock lock_tunqueue; EvUnlock lock_tunqueue]
              (set_mem
                 (set_freeptr_tun
                    ((freeptr_tun (mem w) + 1) mod QUEUE_SIZE) (mem w)) w))
      with (after_reserve_tun w).
    rewrite replicate_add, run_app.
    rewrite (producer_transients pre (r :: post));
      [| exact Hpre | exact Hf
       | apply globals_ok_after_reserve_tun, Hg | exact Hs].
    cbn [replicate run step sys_world producer consumer].
    rewrite (producer_step_read_eq (freeptr_tun (mem w)) r post);
      [| exact Hf
       | apply globals_ok_passes_tun, globals_ok_after_reserve_tun, Hg
       | apply (script_passes_all set_tunfd_in
                  (enqueue_tun_pass (freeptr_tun (mem w))) tunfd_in);
         [intros; reflexivity | intros; reflexivity | exact Hs]].
    destruct (positive_bools r Hr) as [-> ->].
    rewrite passes_snoc. reflexivity.
  - intros w' pp H.
    apply (block_on_returns_iff _queue_tun_isempty cond_tunqueue
             lock_tunqueue block_on_tun_empty w w'
             (block_on_tun_empty_eq w)) in H.
    destruct H as (waited & rest & Hs & Hw & ->).
    destruct waited as [|r waited].
    + exists 1%nat.
      cbn [replicate run step sys_world producer consumer].
      rewrite consumer_step_block_eq. cbn in Hw. rewrite Hw.
      destruct w as [g e ti si wi tr]. cbn in *. subst wi. reflexivity.
    + destruct Hw as (He & Hr & Hw).
      exists (1 + S (length waited))%nat.
      rewrite replicate_add, run_app.
      change (replicate 1 Consumer) with [Consumer].
      cbn [run step sys_world producer consumer].
      rewrite consumer_step_block_eq, He.
      rewrite (consumer_waits waited rest r);
        [| exact Hs | exact Hr | exact Hw].
      unfold log_events. cbn. rewrite <- !app_assoc. reflexivity.
  - intros pp. rewrite dequeue_tun_eq.
    destruct (_queue_tun_isempty (mem w)) eqn:E.
    + exists 1%nat. eexists. split; [reflexivity |].
      cbn [replicate run step sys_world producer consumer].
      rewrite consumer_step_call_eq, E. reflexivity.
    + exists 2%nat. eexists. split; [reflexivity |].
      cbn [replicate run step sys_world producer consumer].
      rewrite consumer_step_call_eq, E.
      cbn [sys_world producer consumer].
      rewrite consumer_step_process_eq.
      unfold log_events. cbn. rewrite <- !app_assoc. reflexivity.
Qed.

(** ** First in, first out, on the socket side *)

Lemma published_sock_app (tr1 tr2 : list event) :
  published_sock (tr1 ++ tr2) = published_sock tr1 ++ published_sock tr2.
Proof. apply omap_app. Qed.

Lemma claimed_sock_app (tr1 tr2 : list event) :
  claimed_sock (tr1 ++ tr2) = claimed_sock tr1 ++ claimed_sock tr2.
Proof. apply omap_app. Qed.

Lemma published_sock_transient (ptr : Z) (pre : list io_result) :
  Forall transient pre ->
  published_sock (map (EvRead sockfd (SlotSock ptr)) pre) = [].
Proof.
  induction 1 as [|r pre [Hr _] _ IH]; [reflexivity |].
  cbn [map]. change (?e :: ?l) with ([e] ++ l).
  rewrite published_sock_app, IH, app_nil_r.
  destruct r as [d a | e]; [|reflexivity].
  cbn in Hr |- *. destruct (take MTU d); [reflexivity |].
  cbn in Hr. lia.
Qed.

Lemma published_sock_positive (ptr : Z) (d : list byte) (a : sockaddr_in) :
  positive (IoData d a) ->
  published_sock [EvRead sockfd (SlotSock ptr) (IoData d a)] =
  [(a, take MTU d)].
Proof.
  unfold positive. cbn. destruct (take MTU d); [cbn; lia | reflexivity].
Qed.

Lemma published_sock_dummy (rs : list io_result) :
  published_sock (map (EvRead sockfd DummySock) rs) = [].
Proof. induction rs as [|r rs IH]; [reflexivity | exact IH]. Qed.

Lemma claimed_sock_reads (f : fd) (dst : bufref) (rs : list io_result) :
  claimed_sock (map (EvRead f dst) rs) = [].
Proof. induction rs as [|r rs IH]; [reflexivity | exact IH]. Qed.

Lemma slots_from_sock_ext (s s' : globals) (i : Z) (n : nat) :
  queue_sock s' = queue_sock s -> length_sock s' = length_sock s ->
  client_addr s' = client_addr s ->
  slots_from_sock s' i n = slots_from_sock s i n.
Proof.
  intros Hq Hl Hca. revert i. induction n as [|n IH]; intros i; [reflexivity |].
  cbn [slots_from_sock]. rewrite IH. unfold slot_sock. rewrite Hq, Hl, Hca.
  reflexivity.
Qed.

Lemma slots_from_sock_snoc (s s' : globals) (n : nat) (i : Z) :
  0 <= i < QUEUE_SIZE ->
  (forall k : nat, (k < n)%nat ->
     slot_sock s' ((i + Z.of_nat k) mod QUEUE_SIZE) =
     slot_sock s ((i + Z.of_nat k) mod QUEUE_SIZE)) ->
  slots_from_sock s' i (S n) =
  slots_from_sock s i n ++ [slot_sock s' ((i + Z.of_nat n) mod QUEUE_SIZE)].
Proof.
  revert i. induction n as [|n IH]; intros i Hi Hk.
  - cbn [slots_from_sock app].
    replace ((i + Z.of_nat 0) mod QUEUE_SIZE) with i by mod_lia. reflexivity.
  - change (slots_from_sock s' i (S (S n)))
      with (slot_sock s' i :: slots_from_sock s' ((i + 1) mod QUEUE_SIZE) (S n)).
    rewrite IH.
    + cbn [slots_from_sock app].
      pose proof (Hk 0%nat ltac:(lia)) as H0.
      replace ((i + Z.of_nat 0) mod QUEUE_SIZE) with i in H0 by mod_lia.
      rewrite H0.
      replace (((i + 1) mod QUEUE_SIZE + Z.of_nat n) mod QUEUE_SIZE)
        with ((i + Z.of_nat (S n)) mod QUEUE_SIZE) by mod_lia.
      reflexivity.
    + mod_lia.
    + intros k Hlt.
      replace (((i + 1) mod QUEUE_SIZE + Z.of_nat k) mod QUEUE_SIZE)
        with ((i + Z.of_nat (S k)) mod QUEUE_SIZE) by mod_lia.
      apply Hk. lia.
Qed.

Lemma enqueue_sock_body_other_slot (ptr i : Z) (r : io_result) (w : world) :
  0 <= ptr -> 0 <= i -> i <> ptr ->
  slot_sock (mem (outcome_world (enqueue_sock_body ptr r w))) i =
  slot_sock (mem w) i.
Proof.
  intros Hp Hi Hn. unfold enqueue_sock_body. run_m.
  match goal with |- context [if ?b then _ else _] => destruct b end;
    cbn [outcome_world mem set_mem set_trace]; unfold slot_sock;
    cbn [write_buf queue_sock length_sock client_addr set_queue_sock
         set_length_sock set_client_addr];
    rewrite !idx_upd_ne by (assumption || congruence); reflexivity.
Qed.

Lemma enqueue_sock_other_slots (i : Z) (w : world) :
  cursors_ok (mem w) -> 0 <= i -> i <> freeptr_sock (mem w) ->
  slot_sock (mem (outcome_world (enqueue_sock w))) i = slot_sock (mem w) i.
Proof.
  intros [_ [Hf _]] Hi Hn.
  unfold enqueue_sock. rewrite bind_eq, enqueue_sock_reserve_eq.
  destruct (freeptr_sock (mem w) =? curptr_sock (mem w)); [reflexivity |].
  rewrite rem_small by exact Hf. rewrite bind_eq.
  match goal with
  | |- context [enqueue_sock_loop ?p ?rs ?w1] =>
      pose proof (do_while_read_frame (fun W => slot_sock (mem W) i)
                    set_sockfd_in (enqueue_sock_body p)
                    (fun r W =>
                       enqueue_sock_body_other_slot p i r W
                         ltac:(lia) Hi Hn)
                    (fun _ _ => eq_refl) rs w1) as K;
      change (do_while_read set_sockfd_in (enqueue_sock_body p))
        with (enqueue_sock_loop p) in K;
      destruct (enqueue_sock_loop p rs w1)
  end; exact K.
Qed.

Lemma enqueue_sock_written_slot (w w' : world) :
  globals_ok (mem w) ->
  freeptr_sock (mem w) <> curptr_sock (mem w) ->
  enqueue_sock w = Returns tt w' ->
  exists pre d a,
    Forall transient pre /\ positive (IoData d a) /\
    datagram (slot_sock (mem w') (freeptr_sock (mem w))) = (a, take MTU d) /\
    trace w' =
      trace w ++ [EvLock lock_sockqueue; EvUnlock lock_sockqueue] ++
      map (EvRead sockfd (SlotSock (freeptr_sock (mem w))))
        (pre ++ [IoData d a]) ++
      [EvSignal cond_sockqueue].
Proof.
  intros [Hc Ha] Hn H.
  destruct (enqueue_sock_contract w Hc Ha Hn) as (_ & _ & _ & K & _).
  destruct (K w' H) as (pre & r & post & Hs & Hpre & Hr & _ & Ht & _).
  destruct (positive_is_data r Hr) as (d & a & ->).
  exists pre, d, a.
  split; [exact Hpre |]. split; [exact Hr |]. split; [|exact Ht].
  rewrite (enqueue_sock_returns pre (IoData d a) post) in H by assumption.
  injection H as <-.
  cbn [log_events set_trace mem]. rewrite passes_snoc.
  assert (Hi : arrays_ok
                 (mem (passes set_sockfd_in
                         (enqueue_sock_pass (freeptr_sock (mem w))) pre
                         (IoData d a :: post) (after_reserve_sock w)))).
  { apply globals_ok_passes_sock, globals_ok_after_reserve_sock.
    split; assumption. }
  destruct Hi as (_ & Hq & _ & Hl & Hca).
  unfold datagram, slot_sock.
  cbn [enqueue_sock_pass after_recvfrom after_read mem set_mem length_sock
       queue_sock client_addr set_length_sock set_client_addr write_buf
       set_queue_sock log_events set_errno set_trace set_sockfd_in].
  rewrite !idx_upd_eq
    by (eapply slot_in_range; [apply Hc | eassumption]).
  cbn [io_ret io_fill io_from]. rewrite Nat2Z.id, take_app_length.
  reflexivity.
Qed.

Lemma enqueue_sock_fifo_step (w w' : world) :
  globals_ok (mem w) -> 0 <= curptr_sock (mem w) ->
  enqueue_sock w = Returns tt w' ->
  exists tr,
    trace w' = trace w ++ tr /\ claimed_sock tr = [] /\
    datagrams_in (mem w') = datagrams_in (mem w) ++ published_sock tr.
Proof.
  intros Hg Hpos H. pose proof Hg as [Hc Ha].
  pose proof Hc as [_ [Hf Hcur]].
  destruct (Z.eq_dec (freeptr_sock (mem w)) (curptr_sock (mem w))) as [E | N].
  { rewrite enqueue_sock_full in H by exact E. injection H as <-.
    exists [EvLock lock_sockqueue; EvUnlock lock_sockqueue].
    split; [reflexivity | split; [reflexivity |]].
    change (datagrams_in (mem w) = datagrams_in (mem w) ++ []).
    symmetry. apply app_nil_r. }
  destruct (enqueue_sock_written_slot w w' Hg N H)
    as (pre & d & a & Hpre & Hr & Hb & Ht).
  eexists. split; [exact Ht |].
  split.
  { rewrite !claimed_sock_app, claimed_sock_reads. reflexivity. }
  rewrite !published_sock_app, map_app, published_sock_app.
  rewrite published_sock_transient by exact Hpre.
  cbn [map]. rewrite published_sock_positive by exact Hr.
  change (published_sock [EvLock lock_sockqueue; EvUnlock lock_sockqueue])
    with (@nil (sockaddr_in * list byte)).
  change (published_sock [EvSignal cond_sockqueue]) with (@nil (sockaddr_in * list byte)).
  cbn [app].
  pose proof (enqueue_sock_cursors w) as Cu. rewrite H in Cu.
  apply Z.eqb_neq in N. rewrite N in Cu. apply Z.eqb_neq in N.
  unfold cursors_sock in Cu. cbn [outcome_world] in Cu.
  injection Cu as Cf Cc. rewrite rem_is_mod in Cf by lia.
  destruct (occupancy_arith (freeptr_sock (mem w)) (curptr_sock (mem w)))
    as (A1 & _ & _ & A4 & _); [exact Hf | lia |].
  unfold datagrams_in, contents_sock, stored_sock. rewrite Cf, Cc.
  rewrite (A4 N).
  replace (Z.to_nat ((freeptr_sock (mem w) - curptr_sock (mem w) - 1)
                       mod QUEUE_SIZE + 1))
    with (S (Z.to_nat ((freeptr_sock (mem w) - curptr_sock (mem w) - 1)
                         mod QUEUE_SIZE))) by lia.
  rewrite (slots_from_sock_snoc (mem w) (mem w')).
  - rewrite map_app. cbn [map]. f_equal. f_equal.
    rewrite <- Hb. f_equal. f_equal. mod_lia.
  - mod_lia.
  - intros k Hk.
    pose proof (enqueue_sock_other_slots
                  ((((curptr_sock (mem w) + 1) mod QUEUE_SIZE)
                    + Z.of_nat k) mod QUEUE_SIZE) w Hc) as K.
    rewrite H in K. apply K; mod_lia.
Qed.

Lemma dequeue_sock_fifo_step (w w' : world) :
  globals_ok (mem w) -> 0 <= curptr_sock (mem w) ->
  dequeue_sock w = Returns tt w' ->
  exists tr,
    trace w' = trace w ++ tr /\ published_sock tr = [] /\
    datagrams_in (mem w) = claimed_sock tr ++ datagrams_in (mem w').
Proof.
  intros [Hc Ha] Hpos H. pose proof Hc as [_ [Hf Hcur]].
  rewrite dequeue_sock_eq in H.
  destruct (_queue_sock_isempty (mem w)) eqn:E; injection H as <-.
  { exists [EvLock lock_sockqueue; EvUnlock lock_sockqueue].
    split; [reflexivity | split; reflexivity]. }
  eexists. split; [reflexivity |]. split; [reflexivity |].
  assert (NE : (curptr_sock (mem w) + 1) mod QUEUE_SIZE <> freeptr_sock (mem w)).
  { intros K. apply _queue_sock_isempty_true in K; [congruence | lia]. }
  destruct (occupancy_arith (freeptr_sock (mem w)) (curptr_sock (mem w)))
    as (A1 & _ & A3 & _ & A5 & _); [exact Hf | lia |].
  rewrite rem_is_mod by lia.
  unfold datagrams_in, contents_sock, stored_sock.
  cbn [claimed_sock omap log_events set_trace set_mem mem curptr_sock freeptr_sock
       set_curptr_sock app].
  rewrite (A5 NE).
  replace (Z.to_nat ((freeptr_sock (mem w) - curptr_sock (mem w) - 1)
                       mod QUEUE_SIZE))
    with (S (Z.to_nat ((freeptr_sock (mem w) - curptr_sock (mem w) - 1)
                         mod QUEUE_SIZE - 1)))
    by (assert ((freeptr_sock (mem w) - curptr_sock (mem w) - 1)
                  mod QUEUE_SIZE <> 0) by (intros K; apply A3 in K; auto);
        lia).
  cbn [slots_from_sock map].
  rewrite (slots_from_sock_ext (mem w)
             (set_curptr_sock ((curptr_sock (mem w) + 1) mod QUEUE_SIZE)
                (mem w))) by reflexivity.
  reflexivity.
Qed.

Lemma drop_sock_fifo_step (w w' : world) :
  drop_sock w = Returns tt w' ->
  exists tr,
    trace w' = trace w ++ tr /\ published_sock tr = [] /\ claimed_sock tr = [] /\
    datagrams_in (mem w') = datagrams_in (mem w) /\
    cursors_sock w' = cursors_sock w.
Proof.
  intros H.
  destruct (drop_sock_contract w) as (_ & _ & _ & K & _).
  destruct (K w' H) as (pre & r & post & _ & _ & _ & _ & Ht & _).
  pose proof (drop_sock_loop_queues (sockfd_in w) w) as Q.
  unfold drop_sock in H. rewrite H in Q. cbn [outcome_world] in Q.
  unfold queues in Q. injection Q as Q1 Q2 Q3 Q4 Q5 Q6 Q7 Q8 Q9.
  eexists. split; [exact Ht |].
  split; [cbn [app]; rewrite app_nil_r; apply published_sock_dummy |].
  split; [cbn [app]; rewrite app_nil_r; apply claimed_sock_reads |].
  split.
  - unfold datagrams_in, contents_sock, stored_sock. rewrite Q8, Q9.
    rewrite (slots_from_sock_ext (mem w) (mem w')) by assumption. reflexivity.
  - unfold cursors_sock. rewrite Q8, Q9. reflexivity.
Qed.

Lemma do_call_sock_keeps (c : call_sock) (w w1 : world) :
  globals_ok (mem w) -> 0 <= curptr_sock (mem w) ->
  do_call_sock c w = Returns tt w1 ->
  globals_ok (mem w1) /\ 0 <= curptr_sock (mem w1).
Proof.
  intros Hg Hpos H. destruct c; cbn [do_call_sock] in H.
  - split.
    + pose proof (keeps_ok_enqueue_sock w Hg) as K. rewrite H in K. exact K.
    + pose proof (enqueue_sock_cursors w) as K. rewrite H in K.
      unfold cursors_sock in K. cbn [outcome_world] in K.
      destruct (freeptr_sock (mem w) =? curptr_sock (mem w));
        injection K as _ ->; exact Hpos.
  - split.
    + pose proof (keeps_ok_drop_sock w Hg) as K. rewrite H in K. exact K.
    + destruct (drop_sock_fifo_step w w1 H) as (_ & _ & _ & _ & _ & K).
      unfold cursors_sock in K. injection K as _ ->. exact Hpos.
  - split.
    + pose proof (keeps_ok_dequeue_sock w Hg) as K. rewrite H in K. exact K.
    + pose proof (dequeue_sock_cursors w) as K. rewrite H in K.
      unfold cursors_sock in K. cbn [outcome_world] in K.
      destruct (_queue_sock_isempty (mem w)); injection K as _ ->;
        [exact Hpos |].
      rewrite rem_is_mod by lia. mod_lia.
Qed.

Lemma do_call_sock_fifo_step (c : call_sock) (w w1 : world) :
  globals_ok (mem w) -> 0 <= curptr_sock (mem w) ->
  do_call_sock c w = Returns tt w1 ->
  exists tr,
    trace w1 = trace w ++ tr /\
    datagrams_in (mem w) ++ published_sock tr = claimed_sock tr ++ datagrams_in (mem w1).
Proof.
  intros Hg Hpos H. destruct c; cbn [do_call_sock] in H.
  - destruct (enqueue_sock_fifo_step w w1 Hg Hpos H) as (tr & Ht & Hcl & Hu).
    exists tr. split; [exact Ht |]. rewrite Hcl, Hu. reflexivity.
  - destruct (drop_sock_fifo_step w w1 H) as (tr & Ht & Hp & Hcl & Hu & _).
    exists tr. split; [exact Ht |]. rewrite Hp, Hcl, Hu.
    apply app_nil_r.
  - destruct (dequeue_sock_fifo_step w w1 Hg Hpos H) as (tr & Ht & Hp & Hu).
    exists tr. split; [exact Ht |]. rewrite Hp, Hu. apply app_nil_r.
Qed.

(** X11: first in, first out on the socket side, with the senders. Once
    the consumer has taken a first datagram (the read cursor is no longer
    -1), whatever sequence of [enqueue_sock], [drop_sock] and
    [dequeue_sock] calls is run to completion one after the other, the
    datagrams stored at the start followed by those stored during the run
    are the datagrams handed to [process_sock_packet] during the run
    followed by those stored at the end, each with the address of its
    sender. *)
Theorem X11_fifo_of_complete_calls_sock (cs : list call_sock) (w w' : world)
    (Hg : globals_ok (mem w)) (Hpos : 0 <= curptr_sock (mem w))
    (H : do_calls_sock cs w = Returns tt w') :
  exists tr,
    trace w' = trace w ++ tr /\
    datagrams_in (mem w) ++ published_sock tr =
    claimed_sock tr ++ datagrams_in (mem w') /\
    claimed_sock tr `prefix_of` datagrams_in (mem w) ++ published_sock tr.
Proof.
  enough (K : exists tr,
             trace w' = trace w ++ tr /\
             datagrams_in (mem w) ++ published_sock tr =
             claimed_sock tr ++ datagrams_in (mem w')).
  { destruct K as (tr & Ht & Hu). exists tr.
    split; [exact Ht | split; [exact Hu |]].
    rewrite Hu. apply prefix_app_r. reflexivity. }
  revert w Hg Hpos H. induction cs as [|c cs IH]; intros w Hg Hpos H.
  - injection H as <-. exists [].
    split; [symmetry; apply app_nil_r |].
    cbn. apply app_nil_r.
  - cbn [do_calls_sock] in H. rewrite bind_eq in H.
    destruct (do_call_sock c w) as [[] w1 | |] eqn:E; try discriminate.
    destruct (do_call_sock_keeps c w w1 Hg Hpos E) as [Hg1 Hpos1].
    destruct (do_call_sock_fifo_step c w w1 Hg Hpos E) as (tr1 & Ht1 & Hu1).
    destruct (IH w1 Hg1 Hpos1 H) as (tr2 & Ht2 & Hu2).
    exists (tr1 ++ tr2).
    split; [rewrite Ht2, Ht1, app_assoc; reflexivity |].
    rewrite published_sock_app, claimed_sock_app.
    rewrite app_assoc, Hu1, <- app_assoc, Hu2, app_assoc. reflexivity.
Qed.

(** ** Reserving a slot, seen from the whole call *)

Lemma do_while_read_reads_into (consume : list io_result -> world -> world)
    (body : io_result -> M bool) (dst : bufref) :
  (forall r w, exists tr,
      trace (outcome_world (body r w)) = trace w ++ tr /\
      reads_only_into dst tr) ->
  (forall rs w, trace (consume rs w) = trace w) ->
  forall rs w, exists tr,
    trace (outcome_world (do_while_read consume body rs w)) = trace w ++ tr /\
    reads_only_into dst tr.
Proof.
  intros Hb Hc rs. induction rs as [|r rs IH]; intros w.
  - exists []. split; [symmetry; apply app_nil_r | constructor].
  - cbn [do_while_read]. rewrite bind_eq.
    destruct (Hb r (consume rs w)) as (tr1 & Ht1 & Hd1). rewrite Hc in Ht1.
    destruct (body r (consume rs w)) as [again w1 | st w1 | w1];
      cbn [outcome_world] in Ht1; try (exists tr1; split; assumption).
    destruct again; [|exists tr1; split; assumption].
    destruct (IH w1) as (tr2 & Ht2 & Hd2).
    exists (tr1 ++ tr2). split.
    + rewrite Ht2, Ht1, app_assoc. reflexivity.
    + apply Forall_app. split; assumption.
Qed.

Ltac body_reads_into :=
  intros; run_m;
  match goal with |- context [if ?b then _ else _] => destruct b end;
  eexists; (split; [cbn [outcome_world trace set_trace set_mem set_errno];
                    rewrite <- ?app_assoc; reflexivity
                   | repeat constructor]).

Lemma enqueue_tun_body_reads_into (ptr : Z) (r : io_result) (w : world) :
  exists tr,
    trace (outcome_world (enqueue_tun_body ptr r w)) = trace w ++ tr /\
    reads_only_into (SlotTun ptr) tr.
Proof. unfold enqueue_tun_body. body_reads_into. Qed.

Lemma enqueue_sock_body_reads_into (ptr : Z) (r : io_result) (w : world) :
  exists tr,
    trace (outcome_world (enqueue_sock_body ptr r w)) = trace w ++ tr /\
    reads_only_into (SlotSock ptr) tr.
Proof. unfold enqueue_sock_body. body_reads_into. Qed.

Lemma enqueue_tun_reads_into (w : world) :
  cursors_ok (mem w) -> freeptr_tun (mem w) <> curptr_tun (mem w) ->
  exists tr,
    trace (outcome_world (enqueue_tun w)) =
      trace w ++ [EvLock lock_tunqueue; EvUnlock lock_tunqueue] ++ tr /\
    reads_only_into (SlotTun (freeptr_tun (mem w))) tr.
Proof.
  intros Hc Hn. rewrite enqueue_tun_not_full by assumption.
  rewrite bind_eq.
  destruct (do_while_read_reads_into set_tunfd_in
              (enqueue_tun_body (freeptr_tun (mem w)))
              (SlotTun (freeptr_tun (mem w)))
              (enqueue_tun_body_reads_into (freeptr_tun (mem w)))
              (fun _ _ => eq_refl) (tunfd_in w) (after_reserve_tun w))
    as (tr & Ht & Hd).
  change (do_while_read set_tunfd_in (enqueue_tun_body (freeptr_tun (mem w))))
    with (enqueue_tun_loop (freeptr_tun (mem w))) in Ht.
  destruct (enqueue_tun_loop (freeptr_tun (mem w)) (tunfd_in w)
              (after_reserve_tun w)) as [[] w2 | st w2 | w2];
    cbn [outcome_world] in Ht.
  - exists (tr ++ [EvSignal cond_tunqueue]). split.
    + cbn [pthread_cond_signal emit outcome_world trace set_trace].
      rewrite Ht. cbn [after_reserve_tun log_events set_trace set_mem trace].
      rewrite <- !app_assoc. reflexivity.
    + apply Forall_app. split; [exact Hd | repeat constructor].
  - exists tr. split; [|exact Hd].
    cbn [outcome_world]. rewrite Ht.
    cbn [after_reserve_tun log_events set_trace set_mem trace].
    rewrite <- !app_assoc. reflexivity.
  - exists tr. split; [|exact Hd].
    cbn [outcome_world]. rewrite Ht.
    cbn [after_reserve_tun log_events set_trace set_mem trace].
    rewrite <- !app_assoc. reflexivity.
Qed.

Lemma enqueue_sock_reads_into (w : world) :
  cursors_ok (mem w) -> freeptr_sock (mem w) <> curptr_sock (mem w) ->
  exists tr,
    trace (outcome_world (enqueue_sock w)) =
      trace w ++ [EvLock lock_sockqueue; EvUnlock lock_sockqueue] ++ tr /\
    reads_only_into (SlotSock (freeptr_sock (mem w))) tr.
Proof.
  intros Hc Hn. rewrite enqueue_sock_not_full by assumption.
  rewrite bind_eq.
  destruct (do_while_read_reads_into set_sockfd_in
              (enqueue_sock_body (freeptr_sock (mem w)))
              (SlotSock (freeptr_sock (mem w)))
              (enqueue_sock_body_reads_into (freeptr_sock (mem w)))
              (fun _ _ => eq_refl) (sockfd_in w) (after_reserve_sock w))
    as (tr & Ht & Hd).
  change (do_while_read set_sockfd_in
            (enqueue_sock_body (freeptr_sock (mem w))))
    with (enqueue_sock_loop (freeptr_sock (mem w))) in Ht.
  destruct (enqueue_sock_loop (freeptr_sock (mem w)) (sockfd_in w)
              (after_reserve_sock w)) as [[] w2 | st w2 | w2];
    cbn [outcome_world] in Ht.
  - exists (tr ++ [EvSignal cond_sockqueue]). split.
    + cbn [pthread_cond_signal emit outcome_world trace set_trace].
      rewrite Ht. cbn [after_reserve_sock log_events set_trace set_mem trace].
      rewrite <- !app_assoc. reflexivity.
    + apply Forall_app. split; [exact Hd | repeat constructor].
  - exists tr. split; [|exact Hd].
    cbn [outcome_world]. rewrite Ht.
    cbn [after_reserve_sock log_events set_trace set_mem trace].
    rewrite <- !app_assoc. reflexivity.
  - exists tr. split; [|exact Hd].
    cbn [outcome_world]. rewrite Ht.
    cbn [after_reserve_sock log_events set_trace set_mem trace].
    rewrite <- !app_assoc. reflexivity.
Qed.

(** C6: [enqueue_tun] and [enqueue_sock] start by locking the mutex of the
    queue. On a full queue the critical section yields no slot, and the
    call unlocks and returns with the globals and the input untouched.
    Otherwise the critical section yields the slot at the write cursor and
    leaves the write cursor one further, modulo [QUEUE_SIZE], before it
    unlocks; the call then goes on, from that world, with its read loop on
    that slot and its signal. So, whatever the outcome of the call, the
    write cursor is one further and the read cursor is what it was, the
    slots other than the one at the old write cursor are what they were,
    and after the lock and unlock events the call locks nothing again and
    reads only into that slot. *)
Theorem C6_reserve_slot (w : world) (Hc : cursors_ok (mem w)) :
  (freeptr_tun (mem w) = curptr_tun (mem w) ->
   enqueue_tun_reserve w =
     Returns None
       (log_events [EvLock lock_tunqueue; EvUnlock lock_tunqueue] w) /\
   enqueue_tun w =
     Returns tt
       (log_events [EvLock lock_tunqueue; EvUnlock lock_tunqueue] w)) /\
  (freeptr_tun (mem w) <> curptr_tun (mem w) ->
   enqueue_tun_reserve w =
     Returns (Some (freeptr_tun (mem w)))
       (log_events [EvLock lock_tunqueue; EvUnlock lock_tunqueue]
          (set_mem
             (set_freeptr_tun ((freeptr_tun (mem w) + 1) mod QUEUE_SIZE)
                (mem w)) w)) /\
   enqueue_tun w =
     (enqueue_tun_loop (freeptr_tun (mem w)) (tunfd_in w);;
      pthread_cond_signal cond_tunqueue)
       (log_events [EvLock lock_tunqueue; EvUnlock lock_tunqueue]
          (set_mem
             (set_freeptr_tun ((freeptr_tun (mem w) + 1) mod QUEUE_SIZE)
                (mem w)) w)) /\
   cursors_tun (outcome_world (enqueue_tun w)) =
     ((freeptr_tun (mem w) + 1) mod QUEUE_SIZE, curptr_tun (mem w)) /\
   (forall i, 0 <= i -> i <> freeptr_tun (mem w) ->
      slot_tun (mem (outcome_world (enqueue_tun w))) i =
      slot_tun (mem w) i) /\
   exists tr,
     trace (outcome_world (enqueue_tun w)) =
       trace w ++ [EvLock lock_tunqueue; EvUnlock lock_tunqueue] ++ tr /\
     reads_only_into (SlotTun (freeptr_tun (mem w))) tr) /\
  (freeptr_sock (mem w) = curptr_sock (mem w) ->
   enqueue_sock_reserve w =
     Returns None
       (log_events [EvLock lock_sockqueue; EvUnlock lock_sockqueue] w) /\
   enqueue_sock w =
     Returns tt
       (log_events [EvLock lock_sockqueue; EvUnlock lock_sockqueue] w)) /\
  (freeptr_sock (mem w) <> curptr_sock (mem w) ->
   enqueue_sock_reserve w =
     Returns (Some (freeptr_sock (mem w)))
       (log_events [EvLock lock_sockqueue; EvUnlock lock_sockqueue]
          (set_mem
             (set_freeptr_sock ((freeptr_sock (mem w) + 1) mod QUEUE_SIZE)
                (mem w)) w)) /\
   enqueue_sock w =
     (enqueue_sock_loop (freeptr_sock (mem w)) (sockfd_in w);;
      pthread_cond_signal cond_sockqueue)
       (log_events [EvLock lock_sockqueue; EvUnlock lock_sockqueue]
          (set_mem
             (set_freeptr_sock ((freeptr_sock (mem w) + 1) mod QUEUE_SIZE)
                (mem w)) w)) /\
   cursors_sock (outcome_world (enqueue_sock w)) =
     ((freeptr_sock (mem w) + 1) mod QUEUE_SIZE, curptr_sock (mem w)) /\
   (forall i, 0 <= i -> i <> freeptr_sock (mem w) ->
      slot_sock (mem (outcome_world (enqueue_sock w))) i =
      slot_sock (mem w) i) /\
   exists tr,
     trace (outcome_world (enqueue_sock w)) =
       trace w ++ [EvLock lock_sockqueue; EvUnlock lock_sockqueue] ++ tr /\
     reads_only_into (SlotSock (freeptr_sock (mem w))) tr).
Proof.
  pose proof Hc as [[Hft _] [Hfs _]].
  split; [|split; [|split]].
  - intros H. split; [|apply enqueue_tun_full; exact H].
    rewrite enqueue_tun_reserve_eq. apply Z.eqb_eq in H. rewrite H.
    reflexivity.
  - intros H. split; [|split; [|split; [|split]]].
    + rewrite enqueue_tun_reserve_eq.
      apply Z.eqb_neq in H. rewrite H.
      rewrite rem_small by exact Hft. rewrite rem_is_mod by lia.
      reflexivity.
    + apply enqueue_tun_not_full; assumption.
    + rewrite enqueue_tun_cursors.
      apply Z.eqb_neq in H. rewrite H. rewrite rem_is_mod by lia.
      reflexivity.
    + intros i Hi Hn. apply enqueue_tun_other_slots; assumption.
    + apply enqueue_tun_reads_into; assumption.
  - intros H. split; [|apply enqueue_sock_full; exact H].
    rewrite enqueue_sock_reserve_eq. apply Z.eqb_eq in H. rewrite H.
    reflexivity.
  - intros H. split; [|split; [|split; [|split]]].
    + rewrite enqueue_sock_reserve_eq.
      apply Z.eqb_neq in H. rewrite H.
      rewrite rem_small by exact Hfs. rewrite rem_is_mod by lia.
      reflexivity.
    + apply enqueue_sock_not_full; assumption.
    + rewrite enqueue_sock_cursors.
      apply Z.eqb_neq in H. rewrite H. rewrite rem_is_mod by lia.
      reflexivity.
    + intros i Hi Hn. apply enqueue_sock_other_slots; assumption.
    + apply enqueue_sock_reads_into; assumption.
Qed.

End Queue.

(** * Runs from program start

    In the closed statements below [MTU] is 1280; nothing depends on the
    value. *)

Lemma cursors_okb_true (s : globals) :
  cursors_okb s = true <-> cursors_ok s.
Proof.
  unfold cursors_okb, cursors_ok, in_range.
  rewrite !andb_true_iff, !Z.leb_le, !Z.ltb_lt. tauto.
Qed.

Lemma arrays_okb_true (s : globals) :
  arrays_okb s = true <-> arrays_ok s.
Proof.
  unfold arrays_okb, arrays_ok.
  rewrite !andb_true_iff, !Nat.eqb_eq. tauto.
Qed.

Lemma cursors_ok_init (MTU : nat) : cursors_ok (init_globals MTU).
Proof. apply cursors_okb_true. reflexivity. Qed.

Lemma arrays_ok_init (MTU : nat) : arrays_ok (init_globals MTU).
Proof. apply arrays_okb_true. reflexivity. Qed.

(** C1, as the code behaves: from the initial state, in which [curptr_tun]
    is -1, the write cursor never meets the read cursor. After 31 calls of
    [enqueue_tun] that each stored a unit, [queue_tun_isfull] and
    [queue_tun_isempty] both return false; the 32nd call reserves slot 31
    and wraps the write cursor to 0, after which [queue_tun_isempty] returns
    true although 32 units are stored and none was claimed; the 33rd call
    stores its unit in slot 0, over the first unit. *)
Theorem C1_initial_queue_never_full (MTU : nat) (Hmtu : (1 <= MTU)%nat) :
  exists w31 w32 w33,
    times 31 (enqueue_tun MTU) (init_world MTU (units bytes_1_to_33) [] [])
      = Returns tt w31 /\
    (exists w, queue_tun_isfull w31 = Returns false w) /\
    (exists w, queue_tun_isempty w31 = Returns false w) /\
    enqueue_tun MTU w31 = Returns tt w32 /\
    freeptr_tun (mem w32) = 0 /\ curptr_tun (mem w32) = -1 /\
    take 1 (idx (queue_tun (mem w32)) 31) = [x20] /\
    (exists w, queue_tun_isempty w32 = Returns true w) /\
    take 1 (idx (queue_tun (mem w32)) 0) = [x01] /\
    enqueue_tun MTU w32 = Returns tt w33 /\
    take 1 (idx (queue_tun (mem w33)) 0) = [x21].
Proof.
  destruct MTU as [|n]; [lia |].
  do 3 eexists.
  split; [vm_compute; reflexivity |].
  split; [eexists; vm_compute; reflexivity |].
  split; [eexists; vm_compute; reflexivity |].
  split; [vm_compute; reflexivity |].
  split; [vm_compute; reflexivity |].
  split; [vm_compute; reflexivity |].
  split; [vm_compute; reflexivity |].
  split; [eexists; vm_compute; reflexivity |].
  split; [vm_compute; reflexivity |].
  split; [vm_compute; reflexivity |].
  vm_compute; reflexivity.
Qed.

(** The same run on the socket queue. *)
Lemma initial_sock_queue_never_full (MTU : nat) (Hmtu : (1 <= MTU)%nat) :
  exists w31 w32 w33,
    times 31 (enqueue_sock MTU) (init_world MTU [] (units bytes_1_to_33) [])
      = Returns tt w31 /\
    (exists w, queue_sock_isfull w31 = Returns false w) /\
    (exists w, queue_sock_isempty w31 = Returns false w) /\
    enqueue_sock MTU w31 = Returns tt w32 /\
    freeptr_sock (mem w32) = 0 /\ curptr_sock (mem w32) = -1 /\
    (exists w, queue_sock_isempty w32 = Returns true w) /\
    take 1 (idx (queue_sock (mem w32)) 0) = [x01] /\
    enqueue_sock MTU w32 = Returns tt w33 /\
    take 1 (idx (queue_sock (mem w33)) 0) = [x21].
Proof.
  destruct MTU as [|n]; [lia |].
  do 3 eexists.
  split; [vm_compute; reflexivity |].
  split; [eexists; vm_compute; reflexivity |].
  split; [eexists; vm_compute; reflexivity |].
  split; [vm_compute; reflexivity |].
  split; [vm_compute; reflexivity |].
  split; [vm_compute; reflexivity |].
  split; [eexists; vm_compute; reflexivity |].
  split; [vm_compute; reflexivity |].
  split; [vm_compute; reflexivity |].
  vm_compute; reflexivity.
Qed.

(** C3, as the code behaves: the producer reserves slot 0 and is preempted
    before its read; the consumer finds the queue not empty, leaves
    [block_on_tun_empty], claims slot 0 in [dequeue_tun] and hands
    [process_tun_packet] the slot as it was at program start, with length
    0, while the unit is still unread on the descriptor. *)
Theorem C3_consumer_claims_unwritten_slot (MTU : nat) :
  exists c c',
    run MTU [Producer; Consumer; Consumer] (init_system MTU (units [x01]) [])
      = Running c /\
    producer c = PRead 0 /\
    consumer c = CProcess 0 /\
    tunfd_in (sys_world c) = units [x01] /\
    published MTU (trace (sys_world c)) = [] /\
    step MTU Consumer c = Running c' /\
    trace (sys_world c') =
      trace (sys_world c) ++ [EvProcessTun (zero_buffer MTU) 0] /\
    producer c' = PRead 0.
Proof.
  do 2 eexists.
  split; [vm_compute; reflexivity |].
  split; [vm_compute; reflexivity |].
  split; [vm_compute; reflexivity |].
  split; [vm_compute; reflexivity |].
  split; [vm_compute; reflexivity |].
  split; [vm_compute; reflexivity |].
  split; [vm_compute; reflexivity |].
  vm_compute; reflexivity.
Qed.

(** C4, as the code behaves. First run: the producer completes 33 calls of
    [enqueue_tun] from program start before the consumer runs; the consumer
    then claims one unit, the 33rd, and finds the queue empty. Second run:
    the consumer claims the slot that the producer has reserved and not yet
    written, so that what it is handed first is not the unit published
    first, which it finds no trace of afterwards. In both runs the units
    claimed are not the first units published. *)
Theorem C4_fifo_violated (MTU : nat) (Hmtu : (1 <= MTU)%nat) :
  (exists c,
     run MTU (replicate 99 Producer ++ replicate 6 Consumer)
       (init_system MTU (units bytes_1_to_33) []) = Running c /\
     published MTU (trace (sys_world c)) = map (fun b => [b]) bytes_1_to_33 /\
     claimed (trace (sys_world c)) = [[x21]] /\
     consumer c = CWaiting /\
     ~ claimed (trace (sys_world c))
         `prefix_of` published MTU (trace (sys_world c))) /\
  (exists c,
     run MTU
       [Producer; Consumer; Consumer; Consumer; Producer; Producer; Consumer]
       (init_system MTU (units [x01]) []) = Running c /\
     published MTU (trace (sys_world c)) = [[x01]] /\
     claimed (trace (sys_world c)) = [[]] /\
     producer c = PCall /\ consumer c = CWaiting /\
     ~ claimed (trace (sys_world c))
         `prefix_of` published MTU (trace (sys_world c))).
Proof.
  destruct MTU as [|n]; [lia |].
  assert (T : take n ([] : list byte) = []) by apply take_nil.
  vm_compute in T.
  split.
  - eexists.
    split; [vm_compute; reflexivity |].
    split; [vm_compute; rewrite !T; reflexivity |].
    split; [vm_compute; rewrite !T; vm_compute; reflexivity |].
    split; [vm_compute; reflexivity |].
    intros [k Hk]. vm_compute in Hk. rewrite !T in Hk. vm_compute in Hk.
    discriminate Hk.
  - eexists.
    split; [vm_compute; reflexivity |].
    split; [vm_compute; rewrite !T; reflexivity |].
    split; [vm_compute; reflexivity |].
    split; [vm_compute; reflexivity |].
    split; [vm_compute; reflexivity |].
    intros [k Hk]. vm_compute in Hk. rewrite !T in Hk. discriminate Hk.
Qed.

(** C2, as stated, fails: a timeout that expires on an empty queue does not
    make [block_on_tun_empty] or [block_on_sock_empty] return. With one
    expiring wait to come, the call is again inside a wait after it; with
    two expiring waits followed by a wait during which the producer
    advances the write cursor, the call returns after the third wait
    only. *)
Lemma C2_timeout_expiry_does_not_return :
  wr_rc timeout_wait = ETIMEDOUT /\
  _queue_tun_isempty (mem (init_world 1280 [] [] [timeout_wait])) = true /\
  block_on_tun_empty (init_world 1280 [] [] [timeout_wait]) =
    Blocks
      (mk_world (init_globals 1280) 0 [] [] []
         [EvLock lock_tunqueue;
          EvTimedWait cond_tunqueue lock_tunqueue (mk_timespec 1 0)]) /\
  block_on_sock_empty (init_world 1280 [] [] [timeout_wait]) =
    Blocks
      (mk_world (init_globals 1280) 0 [] [] []
         [EvLock lock_sockqueue;
          EvTimedWait cond_sockqueue lock_sockqueue (mk_timespec 1 0)]) /\
  block_on_tun_empty
    (init_world 1280 [] []
       [timeout_wait; timeout_wait;
        mk_wait_result (mk_timespec 2 0) 0 (set_freeptr_tun 1)]) =
    Returns tt
      (mk_world (set_freeptr_tun 1 (init_globals 1280)) 0 [] [] []
         [EvLock lock_tunqueue;
          EvTimedWait cond_tunqueue lock_tunqueue (mk_timespec 1 0);
          EvTimedWait cond_tunqueue lock_tunqueue (mk_timespec 1 0);
          EvTimedWait cond_tunqueue lock_tunqueue (mk_timespec 3 0);
          EvUnlock lock_tunqueue]).
Proof.
  split; [reflexivity |].
  split; [reflexivity |].
  split; [vm_compute; reflexivity |].
  split; [vm_compute; reflexivity |].
  vm_compute; reflexivity.
Qed.

(** ** The theorems at concrete worlds *)

(** A world in which the tunnel queue is full: one unit stored and claimed,
    then 31 more stored. *)
Definition full_tun_world : world :=
  outcome_world
    ((enqueue_tun 1280;; dequeue_tun;; times 31 (enqueue_tun 1280))
       (init_world 1280 (units bytes_1_to_33) [] [])).

(** A world in which the tunnel queue holds one unit. *)
Definition one_unit_world : world :=
  outcome_world (enqueue_tun 1280 (init_world 1280 (units [x07]) [] [])).

(** A world whose tunnel descriptor gives a transient error, an empty unit,
    and then a unit of three bytes. *)
Definition retry_world : world :=
  init_world 1280
    [IoError EAGAIN; IoData [] sockaddr_zero;
     IoData [x0a; x0b; x0c] sockaddr_zero] [] [].

Lemma C1_witness :
  (1 <= 1280)%nat /\
  exists w31,
    times 31 (enqueue_tun 1280) (init_world 1280 (units bytes_1_to_33) [] [])
      = Returns tt w31 /\
    exists w, queue_tun_isfull w31 = Returns false w.
Proof.
  split; [lia |].
  destruct (C1_initial_queue_never_full 1280 ltac:(lia))
    as (w31 & w32 & w33 & H1 & H2 & _).
  exists w31. split; [exact H1 | exact H2].
Defined.

Lemma C4_witness :
  (1 <= 1280)%nat /\
  exists c,
    run 1280
      [Producer; Consumer; Consumer; Consumer; Producer; Producer; Consumer]
      (init_system 1280 (units [x01]) []) = Running c /\
    published 1280 (trace (sys_world c)) = [[x01]] /\
    claimed (trace (sys_world c)) = [[]].
Proof.
  split; [lia |].
  destruct (C4_fifo_violated 1280 ltac:(lia))
    as (_ & c & H1 & H2 & H3 & _).
  exists c. split; [exact H1 | split; [exact H2 | exact H3]].
Defined.

Lemma C5_witness :
  cursors_ok (mem (init_world 1280 [] [] [])) /\
  (exists b,
     queue_tun_isempty (init_world 1280 [] [] []) =
       Returns b
         (log_events [EvLock lock_tunqueue; EvUnlock lock_tunqueue]
            (init_world 1280 [] [] [])) /\
     (b = true <->
      (curptr_tun (mem (init_world 1280 [] [] [])) + 1) mod QUEUE_SIZE =
      freeptr_tun (mem (init_world 1280 [] [] [])))).
Proof.
  assert (H : cursors_ok (mem (init_world 1280 [] [] [])))
    by (apply cursors_okb_true; reflexivity).
  split; [exact H |].
  exact (proj1 (proj2 (proj2 (C5_isfull_isempty (init_world 1280 [] [] []) H)))).
Defined.

Lemma C6_witness :
  cursors_ok (mem (init_world 1280 [] (units [x05]) [])) /\
  cursors_ok (mem retry_world) /\
  cursors_ok (mem full_tun_world) /\
  enqueue_tun_reserve retry_world =
    Returns (Some 0)
      (log_events [EvLock lock_tunqueue; EvUnlock lock_tunqueue]
         (set_mem (set_freeptr_tun 1 (init_globals 1280)) retry_world)) /\
  cursors_tun (outcome_world (enqueue_tun 1280 retry_world)) = (1, -1) /\
  cursors_sock
    (outcome_world (enqueue_sock 1280 (init_world 1280 [] (units [x05]) [])))
    = (1, -1) /\
  (exists tr,
     trace
       (outcome_world
          (enqueue_sock 1280 (init_world 1280 [] (units [x05]) []))) =
     trace (init_world 1280 [] (units [x05]) []) ++
     [EvLock lock_sockqueue; EvUnlock lock_sockqueue] ++ tr /\
     reads_only_into
       (SlotSock (freeptr_sock (mem (init_world 1280 [] (units [x05]) []))))
       tr) /\
  enqueue_tun 1280 full_tun_world =
    Returns tt
      (log_events [EvLock lock_tunqueue; EvUnlock lock_tunqueue]
         full_tun_world).
Proof.
  assert (S : cursors_ok (mem (init_world 1280 [] (units [x05]) [])))
    by (apply cursors_okb_true; reflexivity).
  assert (H : cursors_ok (mem retry_world))
    by (apply cursors_okb_true; reflexivity).
  assert (F : cursors_ok (mem full_tun_world))
    by (apply cursors_okb_true; vm_compute; reflexivity).
  split; [exact S |]. split; [exact H |]. split; [exact F |].
  destruct (C6_reserve_slot 1280 retry_world H) as (_ & T & _).
  destruct (T ltac:(discriminate)) as (T1 & _ & T3 & _).
  destruct (C6_reserve_slot 1280 (init_world 1280 [] (units [x05]) []) S)
    as (_ & _ & _ & K).
  destruct (K ltac:(discriminate)) as (_ & _ & K3 & _ & K5).
  split; [exact T1 |]. split; [exact T3 |]. split; [exact K3 |].
  split; [exact K5 |].
  apply (proj1 (C6_reserve_slot 1280 full_tun_world F)).
  vm_compute; reflexivity.
Defined.

Lemma C7_witness :
  cursors_ok (mem one_unit_world) /\
  cursors_ok (mem (init_world 1280 [] [] [])) /\
  (exists w',
     dequeue_tun one_unit_world = Returns tt w' /\
     claimed (trace w') = [[x07]] /\ curptr_tun (mem w') = 0) /\
  dequeue_tun (init_world 1280 [] [] []) =
    Returns tt
      (log_events [EvLock lock_tunqueue; EvUnlock lock_tunqueue]
         (init_world 1280 [] [] [])).
Proof.
  assert (H : cursors_ok (mem one_unit_world))
    by (apply cursors_okb_true; vm_compute; reflexivity).
  assert (E : cursors_ok (mem (init_world 1280 [] [] [])))
    by (apply cursors_okb_true; reflexivity).
  split; [exact H |]. split; [exact E |]. split.
  - eexists. split.
    + apply (proj1 (proj2 (C7_dequeue one_unit_world H))).
      vm_compute. discriminate.
    + split; vm_compute; reflexivity.
  - apply (proj1 (C7_dequeue (init_world 1280 [] [] []) E)).
    reflexivity.
Defined.

Lemma C8_witness :
  cursors_ok (mem retry_world) /\ arrays_ok (mem retry_world) /\
  (exists w',
     enqueue_tun 1280 retry_world = Returns tt w' /\
     0 < idx (length_tun (mem w')) (freeptr_tun (mem retry_world))) /\
  read_loop_contract 1280 (drop_tun 1280) tunfd_in tunfd DummyTun "Read error"
    [] [] retry_world.
Proof.
  assert (H : cursors_ok (mem retry_world))
    by (apply cursors_okb_true; reflexivity).
  assert (A : arrays_ok (mem retry_world))
    by (apply arrays_okb_true; reflexivity).
  split; [exact H |]. split; [exact A |].
  destruct (C8_read_loops 1280 retry_world H A) as (D & _ & T & _).
  split; [|exact D].
  assert (N : freeptr_tun (mem retry_world) <> curptr_tun (mem retry_world))
    by discriminate.
  destruct (T N) as (_ & L).
  eexists. split; [vm_compute; reflexivity |].
  apply L. vm_compute; reflexivity.
Defined.

Lemma C9_witness :
  drop_tun 1280 retry_world =
    Returns tt (outcome_world (drop_tun 1280 retry_world)) /\
  queues (mem (outcome_world (drop_tun 1280 retry_world))) =
  queues (mem retry_world).
Proof.
  assert (H : drop_tun 1280 retry_world =
              Returns tt (outcome_world (drop_tun 1280 retry_world)))
    by (vm_compute; reflexivity).
  split; [exact H |].
  apply (C9_drop_leaves_queues 1280 retry_world _ (or_introl H)).
Defined.

(** ** The further properties at concrete worlds *)

(** A world in which the consumer has claimed a first unit and the tunnel
    queue is empty again, three more units pending on the descriptor. *)
Definition claimed_once_world : world :=
  outcome_world
    ((enqueue_tun 1280;; dequeue_tun)
       (init_world 1280 (units [x01; x02; x03; x04]) [] [])).

Lemma X2_witness :
  system_ok (init_system 1280 (units [x01; x02]) []) /\
  exists c',
    run 1280 [Producer; Consumer; Producer; Consumer; Consumer; Producer]
      (init_system 1280 (units [x01; x02]) []) = Running c' /\
    system_ok c'.
Proof.
  assert (H : system_ok (init_system 1280 (units [x01; x02]) [])).
  { split; [split; [apply cursors_okb_true | apply arrays_okb_true];
            reflexivity |].
    split; [constructor |]. split; intros ? [=]. }
  split; [exact H |].
  eexists. split; [vm_compute; reflexivity |].
  apply (X2_interleavings_stay_in_bounds 1280
           [Producer; Consumer; Producer; Consumer; Consumer; Producer]
           (init_system 1280 (units [x01; x02]) []) _ H).
  vm_compute; reflexivity.
Defined.

Lemma X4_witness :
  cursors_ok (mem claimed_once_world) /\
  0 <= curptr_tun (mem claimed_once_world) /\
  0 <= stored_tun (mem claimed_once_world) <= 31 /\
  (_queue_tun_isempty (mem claimed_once_world) = true <->
   stored_tun (mem claimed_once_world) = 0).
Proof.
  assert (H : cursors_ok (mem claimed_once_world))
    by (apply cursors_okb_true; vm_compute; reflexivity).
  assert (P : 0 <= curptr_tun (mem claimed_once_world))
    by (apply Z.leb_le; vm_compute; reflexivity).
  split; [exact H |]. split; [exact P |].
  destruct (proj1 (X4_occupancy 1280 claimed_once_world H) P)
    as (A & _ & B & _).
  split; [exact A | exact B].
Defined.

Lemma X5_witness :
  globals_ok (mem claimed_once_world) /\
  0 <= curptr_tun (mem claimed_once_world) /\
  do_calls 1280
    [CallEnqueue; CallEnqueue; CallDequeue; CallDrop; CallDequeue;
     CallDequeue] claimed_once_world =
  Returns tt
    (outcome_world
       (do_calls 1280
          [CallEnqueue; CallEnqueue; CallDequeue; CallDrop; CallDequeue;
           CallDequeue] claimed_once_world)) /\
  exists tr,
    units_in (mem claimed_once_world) ++ published 1280 tr =
    claimed tr ++
    units_in
      (mem (outcome_world
              (do_calls 1280
                 [CallEnqueue; CallEnqueue; CallDequeue; CallDrop;
                  CallDequeue; CallDequeue] claimed_once_world))).
Proof.
  assert (G : globals_ok (mem claimed_once_world)).
  { split; [apply cursors_okb_true | apply arrays_okb_true];
      vm_compute; reflexivity. }
  assert (P : 0 <= curptr_tun (mem claimed_once_world))
    by (apply Z.leb_le; vm_compute; reflexivity).
  assert (R : do_calls 1280
                [CallEnqueue; CallEnqueue; CallDequeue; CallDrop;
                 CallDequeue; CallDequeue] claimed_once_world =
              Returns tt
                (outcome_world
                   (do_calls 1280
                      [CallEnqueue; CallEnqueue; CallDequeue; CallDrop;
                       CallDequeue; CallDequeue] claimed_once_world)))
    by (vm_compute; reflexivity).
  split; [exact G |]. split; [exact P |]. split; [exact R |].
  destruct (X5_fifo_of_complete_calls 1280 _ _ _ G P R) as (tr & _ & K & _).
  exists tr. exact K.
Defined.

Lemma X6_witness :
  globals_ok (mem retry_world) /\
  Forall (transient 1280) [IoError EAGAIN; IoData [] sockaddr_zero] /\
  positive 1280 (IoData [x0a; x0b; x0c] sockaddr_zero) /\
  exists w' old,
    (enqueue_tun 1280;; dequeue_tun) retry_world = Returns tt w' /\
    trace w' =
      trace retry_world ++ [EvLock lock_tunqueue; EvUnlock lock_tunqueue] ++
      map (EvRead tunfd (SlotTun (freeptr_tun (mem retry_world))))
        ([IoError EAGAIN; IoData [] sockaddr_zero] ++
         [IoData [x0a; x0b; x0c] sockaddr_zero]) ++
      [EvSignal cond_tunqueue; EvLock lock_tunqueue; EvUnlock lock_tunqueue;
       EvProcessTun (take 1280 [x0a; x0b; x0c] ++ old)
         (Z.of_nat (length (take 1280 [x0a; x0b; x0c])))] /\
    _queue_tun_isempty (mem w') = true /\ tunfd_in w' = [].
Proof.
  assert (G : globals_ok (mem retry_world)).
  { split; [apply cursors_okb_true | apply arrays_okb_true]; reflexivity. }
  assert (T : Forall (transient 1280)
                [IoError EAGAIN; IoData [] sockaddr_zero]).
  { constructor; [|constructor; [|constructor]].
    - split; [vm_compute; discriminate |].
      intros (e & He & H1 & _). injection He as <-. apply H1. reflexivity.
    - split; [vm_compute; discriminate |].
      intros (e & He & _). discriminate He. }
  assert (P : positive 1280 (IoData [x0a; x0b; x0c] sockaddr_zero))
    by (vm_compute; reflexivity).
  split; [exact G |]. split; [exact T |]. split; [exact P |].
  apply (proj1 (X6_round_trip 1280 retry_world _ _ _ [] G T P));
    reflexivity.
Defined.

Lemma X8_witness :
  system_ok (init_system 1280 (units [x01]) []) /\
  waits_quiet (wait_in (sys_world (init_system 1280 (units [x01]) []))) /\
  exists c',
    step 1280 Producer (init_system 1280 (units [x01]) []) = Running c' /\
    curptr_tun (mem (sys_world c')) =
    curptr_tun (mem (sys_world (init_system 1280 (units [x01]) []))).
Proof.
  assert (H : system_ok (init_system 1280 (units [x01]) [])).
  { split; [split; [apply cursors_okb_true | apply arrays_okb_true];
            reflexivity |].
    split; [constructor |]. split; intros ? [=]. }
  assert (Q : waits_quiet
                (wait_in (sys_world (init_system 1280 (units [x01]) []))))
    by constructor.
  split; [exact H |]. split; [exact Q |].
  eexists. split; [vm_compute; reflexivity |].
  apply (proj1 (X8_single_writer 1280 Producer
                  (init_system 1280 (units [x01]) []) _ H Q
                  ltac:(vm_compute; reflexivity))).
Defined.

Lemma X10_witness :
  globals_ok (mem retry_world) /\
  exists n,
    run 1280 (replicate n Producer) (mk_system retry_world PCall CBlock) =
    Running
      (mk_system (outcome_world (enqueue_tun 1280 retry_world)) PCall CBlock).
Proof.
  assert (G : globals_ok (mem retry_world)).
  { split; [apply cursors_okb_true | apply arrays_okb_true]; reflexivity. }
  split; [exact G |].
  apply (proj1 (X10_thread_alone_runs_the_function 1280 retry_world G)).
  vm_compute; reflexivity.
Defined.

(** A world in which the consumer of the socket queue has claimed a first
    datagram, two more, from two other senders, pending on the socket. *)
Definition claimed_once_sock_world : world :=
  outcome_world
    ((enqueue_sock 1280;; dequeue_sock)
       (init_world 1280 []
          [IoData [x01] (mk_sockaddr_in 2 5000 1);
           IoData [x02; x03] (mk_sockaddr_in 2 5001 2);
           IoData [x04] (mk_sockaddr_in 2 5002 3)] [])).

Lemma X11_witness :
  globals_ok (mem claimed_once_sock_world) /\
  0 <= curptr_sock (mem claimed_once_sock_world) /\
  do_calls_sock 1280 [SockEnqueue; SockEnqueue; SockDequeue; SockDequeue]
    claimed_once_sock_world =
  Returns tt
    (outcome_world
       (do_calls_sock 1280
          [SockEnqueue; SockEnqueue; SockDequeue; SockDequeue]
          claimed_once_sock_world)) /\
  exists tr,
    datagrams_in (mem claimed_once_sock_world) ++ published_sock 1280 tr =
    claimed_sock tr ++
    datagrams_in
      (mem (outcome_world
              (do_calls_sock 1280
                 [SockEnqueue; SockEnqueue; SockDequeue; SockDequeue]
                 claimed_once_sock_world))).
Proof.
  assert (G : globals_ok (mem claimed_once_sock_world)).
  { split; [apply cursors_okb_true | apply arrays_okb_true];
      vm_compute; reflexivity. }
  assert (P : 0 <= curptr_sock (mem claimed_once_sock_world))
    by (apply Z.leb_le; vm_compute; reflexivity).
  assert (R : do_calls_sock 1280
                [SockEnqueue; SockEnqueue; SockDequeue; SockDequeue]
                claimed_once_sock_world =
              Returns tt
                (outcome_world
                   (do_calls_sock 1280
                      [SockEnqueue; SockEnqueue; SockDequeue; SockDequeue]
                      claimed_once_sock_world)))
    by (vm_compute; reflexivity).
  split; [exact G |]. split; [exact P |]. split; [exact R |].
  destruct (X11_fifo_of_complete_calls_sock 1280 _ _ _ G P R)
    as (tr & _ & K & _).
  exists tr. exact K.
Defined.
